(** * Repository synchronisation, local cache and relevance search

    A shallow embedding of the synchronisation core of the agentic-support
    application: the tree reconstructor and the cache store
    ([src/lib/github-db.ts]), the provider client ([GitHubService]), the two
    sync orchestrators, the relevance search engine
    ([src/lib/server-code-context-service.ts]), the steps of the issue
    analysis, and the file browser of the editor that reads the cache.

    Conventions of the embedding.
    - JavaScript objects that are mutated through aliases (the tree nodes of
      [buildFileTree]) live in an explicit heap indexed by allocation order.
    - [async] code is sequential here: an awaited call is a function call,
      and a rejected promise is the [Thrown] outcome of the call.
    - The remote hosting API (Octokit) is an oracle passed as an argument.
    - Counts and budgets are exact rationals ([Q]); every budget that occurs
      is an integer or a half, which a double represents exactly.
    - Relevance and confidence scores are computed over an abstract
      arithmetic ([Numbers.Number]) constrained by order laws.
    - The order of [localeCompare] is the host's ([GithubDb.Collation]):
      nothing is assumed of it but what a theorem states. *)

From Stdlib Require Import ZArith QArith Qround String Ascii List Lia.
From Stdlib Require Import Sorting.Permutation Sorting.Sorted.
From Stdlib Require Import Structures.OrdersEx.
From stdpp Require Import base option list gmap strings pretty.

Set Warnings "-register-all".
Open Scope string_scope.
Open Scope list_scope.

(** ** JavaScript built-ins used by the code *)

Module JS.

Section ArraySort.
Context {A : Type} (cmp : A -> A -> comparison).

(** [Array.prototype.sort(cmp)] is stable; here it is a stable insertion
    sort, [cmp a b] being the sign of the comparator's result. *)
Fixpoint insertSorted (x : A) (l : list A) : list A :=
  match l with
  | [] => [x]
  | y :: r =>
      match cmp x y with
      | Gt => y :: insertSorted x r
      | _ => x :: y :: r
      end
  end.

Definition arraySort (l : list A) : list A := foldr insertSorted [] l.

(** [a] may stand before [b] in a sorted array. *)
Definition ordered (a b : A) : Prop := cmp a b <> Gt.
End ArraySort.

(** [Array.prototype.slice(0, e)] for an integer [e]: a negative [e] counts
    from the end of the array. *)
Definition slice0 {A : Type} (l : list A) (e : Z) : list A :=
  if (e <? 0)%Z then take (Z.to_nat (Z.of_nat (length l) + e)) l
  else take (Z.to_nat e) l.

(** [ToIntegerOrInfinity] on a finite number: truncation towards zero. *)
Definition truncate (q : Q) : Z :=
  if Qle_bool 0 q then Qfloor q else Qceiling q.

(** [String.prototype.split(sep)] for a one-character separator. *)
Fixpoint splitAux (sep : ascii) (cur : string) (s : string) : list string :=
  match s with
  | EmptyString => [cur]
  | String c r =>
      if Ascii.eqb c sep then cur :: splitAux sep "" r
      else splitAux sep (String.append cur (String c "")) r
  end.

Definition splitOn (sep : ascii) (s : string) : list string := splitAux sep "" s.

Definition splitSlash (s : string) : list string := splitOn "/"%char s.

(** [Array.prototype.join(sep)]. *)
Fixpoint join (sep : string) (l : list string) : string :=
  match l with
  | [] => ""
  | [x] => x
  | x :: r => String.append x (String.append sep (join sep r))
  end.

Definition joinSlash (l : list string) : string := join "/" l.

(** Character classes of regular expressions, on ASCII: [\w] and [\s]. *)
Definition between (lo hi : nat) (c : ascii) : bool :=
  (lo <=? nat_of_ascii c)%nat && (nat_of_ascii c <=? hi)%nat.

Definition isUpper (c : ascii) : bool := between 65 90 c.
Definition isLower (c : ascii) : bool := between 97 122 c.
Definition isDigit (c : ascii) : bool := between 48 57 c.

Definition isWordChar (c : ascii) : bool :=
  isUpper c || isLower c || isDigit c || Ascii.eqb c "_"%char.

Definition isSpace (c : ascii) : bool :=
  between 9 13 c || Ascii.eqb c " "%char.

(** [String.prototype.toLowerCase], on ASCII. *)
Definition lowerChar (c : ascii) : ascii :=
  if isUpper c then ascii_of_nat (nat_of_ascii c + 32) else c.

Fixpoint toLowerCase (s : string) : string :=
  match s with
  | EmptyString => EmptyString
  | String c r => String (lowerChar c) (toLowerCase r)
  end.

(** [s.includes(t)]. *)
Fixpoint includes (s t : string) : bool :=
  String.prefix t s ||
  match s with
  | EmptyString => false
  | String _ r => includes r t
  end.

(** [a.includes(x)] on an array of strings. *)
Definition arrayIncludes (a : list string) (x : string) : bool :=
  existsb (String.eqb x) a.

(** [[...new Set(a)]]: the first occurrence of every element, in order. *)
Fixpoint dedupe (seen : list string) (a : list string) : list string :=
  match a with
  | [] => []
  | x :: r =>
      if arrayIncludes seen x then dedupe seen r
      else x :: dedupe (x :: seen) r
  end.

(** The words of [s.split(/\s+/)] that are not empty. *)
Fixpoint wordsAux (cur : string) (s : string) : list string :=
  match s with
  | EmptyString => if String.eqb cur "" then [] else [cur]
  | String c r =>
      if isSpace c
      then (if String.eqb cur "" then wordsAux "" r else cur :: wordsAux "" r)
      else wordsAux (String.append cur (String c "")) r
  end.

Definition words (s : string) : list string := wordsAux "" s.

(** [s.replace(/[^\w\s]/g, ' ')]. *)
Fixpoint blankPunctuation (s : string) : string :=
  match s with
  | EmptyString => EmptyString
  | String c r =>
      String (if isWordChar c || isSpace c then c else " "%char) (blankPunctuation r)
  end.

(** The number of matches of [new RegExp('\\b' + term + '\\b', 'gi')] in
    [s], for a [term] made of word characters, which the RegExp then
    matches literally: whole-word occurrences, found from left to right
    without overlap. *)
Definition isWord (c : option ascii) : bool :=
  match c with Some c => isWordChar c | None => false end.

Definition wordBoundary (before after : option ascii) : bool :=
  xorb (isWord before) (isWord after).

Definition headChar (s : string) : option ascii :=
  match s with EmptyString => None | String c _ => Some c end.

Fixpoint lastChar (prev : option ascii) (s : string) : option ascii :=
  match s with EmptyString => prev | String c r => lastChar (Some c) r end.

Fixpoint matchHead (term s : string) : option string :=
  match term with
  | EmptyString => Some s
  | String t term' =>
      match s with
      | EmptyString => None
      | String c s' =>
          if Ascii.eqb (lowerChar t) (lowerChar c) then matchHead term' s' else None
      end
  end.

Fixpoint countWordMatches (term : string) (prev : option ascii) (s : string)
    (skip : nat) : nat :=
  match s with
  | EmptyString => 0
  | String c r =>
      match skip with
      | S k => countWordMatches term (Some c) r k
      | O =>
          match matchHead term s with
          | Some rest =>
              if wordBoundary prev (Some c) &&
                 wordBoundary (lastChar prev term) (headChar rest)
              then S (countWordMatches term (Some c) r (String.length term - 1))
              else countWordMatches term (Some c) r 0
          | None => countWordMatches term (Some c) r 0
          end
      end
  end.

End JS.

(** ** The cache store: [src/lib/github-db.ts] *)

Module GithubDb.

Inductive FileType := file | dir.

#[global] Instance FileType_eq_dec : EqDecision FileType.
Proof. solve_decision. Defined.

Record GitHubFile := mkGitHubFile {
  file_repoId : string;
  file_path : string;
  file_name : string;
  file_type : FileType;
  file_sha : string;
  file_size : option Z;
  file_downloadUrl : option string;
  file_content : option string;
  file_parentPath : string;
  file_lastSynced : Z
}.

Inductive SyncStatus := pending | syncing | completed | error.

#[global] Instance SyncStatus_eq_dec : EqDecision SyncStatus.
Proof. solve_decision. Defined.

Record GitHubRepo := mkGitHubRepo {
  repo_id : string;
  repo_name : string;
  repo_fullName : string;
  repo_defaultBranch : string;
  repo_lastSynced : Z;
  repo_totalFiles : Z;
  repo_syncStatus : SyncStatus
}.

Inductive IssueState := open | closed.

#[global] Instance IssueState_eq_dec : EqDecision IssueState.
Proof. solve_decision. Defined.

Record Label := mkLabel {
  label_name : string;
  label_color : string;
  label_description : option string
}.

Record GitHubIssueDB := mkGitHubIssueDB {
  issue_issueId : Z;
  issue_repoId : string;
  issue_number : Z;
  issue_title : string;
  issue_body : option string;
  issue_state : IssueState;
  issue_htmlUrl : string;
  issue_createdAt : string;
  issue_updatedAt : string;
  issue_closedAt : option string;
  issue_authorLogin : string;
  issue_authorAvatarUrl : string;
  issue_assignees : list string;
  issue_labels : list Label;
  issue_milestone : option string;
  issue_comments : Z;
  issue_lastSynced : Z
}.

(** The node of the file tree as the caller sees it. *)
Inductive FileTreeNode := mkFileTreeNode {
  tn_name : string;
  tn_path : string;
  tn_type : FileType;
  tn_sha : string;
  tn_size : option Z;
  tn_downloadUrl : option string;
  tn_children : option (list FileTreeNode);
  tn_isExpanded : bool
}.

(** A node object in the heap: [children] holds references. *)
Record NodeObj := mkNodeObj {
  obj_name : string;
  obj_path : string;
  obj_type : FileType;
  obj_sha : string;
  obj_size : option Z;
  obj_downloadUrl : option string;
  obj_children : option (list nat);
  obj_isExpanded : bool
}.

(** The object graph below a reference, unfolded into a tree; every node
    keeps the reference it was read from. *)
Inductive ObjTree := ONode (a : nat) (o : NodeObj) (kids : option (list ObjTree)).

Definition rootAddr (t : ObjTree) : nat := match t with ONode a _ _ => a end.

Fixpoint addrs (t : ObjTree) : list nat :=
  match t with
  | ONode a _ kids =>
      a :: match kids with
           | Some ts => concat (map addrs ts)
           | None => []
           end
  end.

Fixpoint erase (t : ObjTree) : FileTreeNode :=
  match t with
  | ONode _ o kids =>
      {| tn_name := obj_name o; tn_path := obj_path o; tn_type := obj_type o;
         tn_sha := obj_sha o; tn_size := obj_size o;
         tn_downloadUrl := obj_downloadUrl o;
         tn_children := match kids with
                        | Some ts => Some (map erase ts)
                        | None => None
                        end;
         tn_isExpanded := obj_isExpanded o |}
  end.

(** Depth-first flattening of a returned tree, collecting paths. *)
Fixpoint flattenPaths (n : FileTreeNode) : list string :=
  match n with
  | mkFileTreeNode _ p _ _ _ _ kids _ =>
      p :: match kids with
           | Some ns => concat (map flattenPaths ns)
           | None => []
           end
  end.

(** Every node of a returned tree, depth-first. *)
Fixpoint subnodes (n : FileTreeNode) : list FileTreeNode :=
  n :: match n with
       | mkFileTreeNode _ _ _ _ _ _ kids _ =>
           match kids with
           | Some ns => concat (map subnodes ns)
           | None => []
           end
       end.

Fixpoint unfold (fuel : nat) (h : list NodeObj) (a : nat) : option ObjTree :=
  match fuel with
  | O => None
  | S fuel' =>
      match h !! a with
      | None => None
      | Some o =>
          match obj_children o with
          | None => Some (ONode a o None)
          | Some cs =>
              match mapM (unfold fuel' h) cs with
              | Some ts => Some (ONode a o (Some ts))
              | None => None
              end
          end
      end
  end.

Record BuildState := mkBuildState {
  heap : list NodeObj;
  pathMap : gmap string nat;
  tree : list nat
}.

Definition initState : BuildState := mkBuildState [] ∅ [].

Definition isRootParent (p : string) : bool :=
  String.eqb p "" || String.eqb p "/".

(** The node literal of the loop body. *)
Definition newNode (f : GitHubFile) : NodeObj :=
  {| obj_name := file_name f; obj_path := file_path f; obj_type := file_type f;
     obj_sha := file_sha f; obj_size := file_size f;
     obj_downloadUrl := file_downloadUrl f;
     obj_children := match file_type f with dir => Some [] | file => None end;
     obj_isExpanded := false |}.

Definition withChildren (o : NodeObj) (cs : list nat) : NodeObj :=
  {| obj_name := obj_name o; obj_path := obj_path o; obj_type := obj_type o;
     obj_sha := obj_sha o; obj_size := obj_size o;
     obj_downloadUrl := obj_downloadUrl o;
     obj_children := Some cs;
     obj_isExpanded := obj_isExpanded o |}.

(** One iteration of [for (const file of files)]. *)
Definition visit (st : BuildState) (f : GitHubFile) : BuildState :=
  let a := length (heap st) in
  let heap1 := heap st ++ [newNode f] in
  let pm := <[file_path f := a]> (pathMap st) in
  if isRootParent (file_parentPath f) then
    mkBuildState heap1 pm (tree st ++ [a])
  else
    match pm !! file_parentPath f with
    | Some p =>
        match heap1 !! p with
        | Some parent =>
            match obj_children parent with
            | Some cs =>
                mkBuildState (<[p := withChildren parent (cs ++ [a])]> heap1) pm (tree st)
            | None => mkBuildState heap1 pm (tree st)
            end
        | None => mkBuildState heap1 pm (tree st)
        end
    | None => mkBuildState heap1 pm (tree st)
    end.

Definition run (sorted : list GitHubFile) : BuildState :=
  fold_left visit sorted initState.

Section BuildFileTree.
(** The order of [a.path.localeCompare(b.path)]. *)
Variable localeCompare : string -> string -> comparison.

Definition byPath (a b : GitHubFile) : comparison :=
  localeCompare (file_path a) (file_path b).

Definition sortFiles (files : list GitHubFile) : list GitHubFile :=
  JS.arraySort byPath files.

Definition buildFileTreeObjs (files : list GitHubFile) : option (list ObjTree) :=
  let st := run (sortFiles files) in
  mapM (unfold (S (length (heap st))) (heap st)) (tree st).

Definition buildFileTreeWith (files : list GitHubFile) : option (list FileTreeNode) :=
  map erase <$> buildFileTreeObjs files.
End BuildFileTree.

(** [String.prototype.localeCompare] is the host's: the order it gives
    depends on the locale and on the collation data of the engine, and is no
    part of this code. It is an input of the model; [localeCompare a b] is
    the sign of [a.localeCompare(b)]. *)
Class Collation := localeCompare : string -> string -> comparison.

(** What ECMAScript asks of [localeCompare]: a consistent comparison, that
    is, a total preorder of the strings. Different strings may tie. *)
Class CollationLaws `{Collation} : Prop := {
  collation_opp : forall a b, localeCompare b a = CompOpp (localeCompare a b);
  collation_trans : forall a b c,
    localeCompare a b <> Gt -> localeCompare b c <> Gt -> localeCompare a c <> Gt
}.

Definition buildFileTree `{Collation} (files : list GitHubFile)
    : option (list FileTreeNode) :=
  buildFileTreeWith localeCompare files.

(** *** The state the loop reaches, in closed form *)

(** The reference [pathMap] holds for [p] after the entries of [s]. *)
Fixpoint lastIdx (s : list GitHubFile) (p : string) : option nat :=
  match s with
  | [] => None
  | f :: r =>
      match lastIdx r p with
      | Some k => Some (S k)
      | None => if decide (file_path f = p) then Some 0 else None
      end
  end.

Definition isRootAt (s : list GitHubFile) (j : nat) : bool :=
  match s !! j with
  | Some e => isRootParent (file_parentPath e)
  | None => false
  end.

Definition isDirAt (s : list GitHubFile) (i : nat) : bool :=
  match s !! i with
  | Some d => match file_type d with dir => true | file => false end
  | None => false
  end.

(** The node to whose [children] the [j]-th entry of the pass is pushed. *)
Definition parentAt (s : list GitHubFile) (j : nat) : option nat :=
  match s !! j with
  | None => None
  | Some e =>
      if isRootParent (file_parentPath e) then None
      else
        match lastIdx (take (S j) s) (file_parentPath e) with
        | Some k => if isDirAt s k then Some k else None
        | None => None
        end
  end.

Definition kidsAt (s : list GitHubFile) (i : nat) : list nat :=
  filter (fun j => parentAt s j = Some i) (seq 0 (length s)).

Definition rootsOf (s : list GitHubFile) : list nat :=
  filter (fun j => isRootAt s j = true) (seq 0 (length s)).

Definition objAt (s : list GitHubFile) (i : nat) (f : GitHubFile) : NodeObj :=
  match file_type f with
  | dir => withChildren (newNode f) (kidsAt s i)
  | file => newNode f
  end.

Record Inv (s : list GitHubFile) (st : BuildState) : Prop := mkInv {
  inv_length : length (heap st) = length s;
  inv_heap : forall i f, s !! i = Some f -> heap st !! i = Some (objAt s i f);
  inv_pathMap : forall p, pathMap st !! p = lastIdx s p;
  inv_tree : tree st = rootsOf s
}.

Definition pathAt (s : list GitHubFile) (a : nat) : string :=
  match s !! a with Some f => file_path f | None => "" end.

(** A returned node shows the fields of an entry. *)
Definition represents (n : FileTreeNode) (f : GitHubFile) : Prop :=
  tn_name n = file_name f /\ tn_path n = file_path f /\
  tn_type n = file_type f /\ tn_sha n = file_sha f /\
  tn_size n = file_size f /\ tn_downloadUrl n = file_downloadUrl f.

(** The entries of the pass that name [p] as their parent directory. *)
Definition childEntries (sorted : list GitHubFile) (p : string) : list GitHubFile :=
  filter (fun e => isRootParent (file_parentPath e) = false /\ file_parentPath e = p)
         sorted.

(** Paths are unique. *)
Definition uniquePaths (files : list GitHubFile) : Prop :=
  NoDup (map file_path files).

(** Every non-empty parent path is the path of a directory of the list. *)
Definition parentsPresent (files : list GitHubFile) : Prop :=
  forall e, e ∈ files -> file_parentPath e <> "" ->
    exists d, d ∈ files /\ file_type d = dir /\ file_path d = file_parentPath e.

(** No two entries of the list tie in the collation, unless they have the
    same path. *)
Definition pathsToldApart `{Collation} (files : list GitHubFile) : Prop :=
  forall f g, f ∈ files -> g ∈ files ->
    localeCompare (file_path f) (file_path g) = Eq -> file_path f = file_path g.

(** Every entry that is not a root item has a directory of the list as its
    parent, and that directory comes strictly first in the sort order. *)
Definition parentsSortFirst (cmp : string -> string -> comparison)
    (files : list GitHubFile) : Prop :=
  forall e, e ∈ files -> isRootParent (file_parentPath e) = false ->
    exists d, d ∈ files /\ file_type d = dir /\ file_path d = file_parentPath e /\
      cmp (file_path d) (file_path e) = Lt.

(** The parent-prefix invariant of the design: the parent path is a strict
    prefix of the path. *)
Definition parentPrefix (files : list GitHubFile) : Prop :=
  forall e, e ∈ files -> isRootParent (file_parentPath e) = false ->
    file_parentPath e <> file_path e /\
    String.prefix (file_parentPath e) (file_path e) = true /\
    exists d, d ∈ files /\ file_type d = dir /\ file_path d = file_parentPath e.

Definition samePathSet (forest : list FileTreeNode) (files : list GitHubFile) : Prop :=
  forall p, p ∈ concat (map flattenPaths forest) <-> p ∈ map file_path files.

(** The [children] array of every directory node of the forest lists the
    entries whose [parentPath] is the path of the node. *)
Definition childrenMatch (forest : list FileTreeNode) (sorted : list GitHubFile) : Prop :=
  forall n, n ∈ concat (map subnodes forest) -> tn_type n = dir ->
    exists ns, tn_children n = Some ns /\
      Forall2 represents ns (childEntries sorted (tn_path n)).

(** *** The tables *)

Record GitHubDatabase := mkGitHubDatabase {
  repos : gmap string GitHubRepo;
  files : list GitHubFile;
  issues : list GitHubIssueDB
}.

Definition emptyDatabase : GitHubDatabase := mkGitHubDatabase ∅ [] [].

Definition getFileTree `{Collation} (db : GitHubDatabase) (repoId : string)
    : option (list FileTreeNode) :=
  buildFileTree (filter (fun f => file_repoId f = repoId) (files db)).

Definition saveRepo (db : GitHubDatabase) (repo : GitHubRepo) : GitHubDatabase :=
  mkGitHubDatabase (<[repo_id repo := repo]> (repos db)) (files db) (issues db).

(** Clear the files of the repository, then add the new ones. *)
Definition saveFiles (db : GitHubDatabase) (repoId : string) (fs : list GitHubFile)
    : GitHubDatabase :=
  mkGitHubDatabase (repos db)
    (filter (fun f => file_repoId f <> repoId) (files db) ++ fs) (issues db).

Definition getRepoSyncStatus (db : GitHubDatabase) (repoId : string) : option GitHubRepo :=
  repos db !! repoId.

Definition updateRepoSyncStatus (db : GitHubDatabase) (repoId : string)
    (status : SyncStatus) (totalFiles : option Z) (now : Z) : GitHubDatabase :=
  let update r :=
    {| repo_id := repo_id r; repo_name := repo_name r; repo_fullName := repo_fullName r;
       repo_defaultBranch := repo_defaultBranch r; repo_lastSynced := now;
       repo_totalFiles := match totalFiles with Some n => n | None => repo_totalFiles r end;
       repo_syncStatus := status |} in
  mkGitHubDatabase (alter update repoId (repos db)) (files db) (issues db).

Definition clearRepo (db : GitHubDatabase) (repoId : string) : GitHubDatabase :=
  mkGitHubDatabase (delete repoId (repos db))
    (filter (fun f => file_repoId f <> repoId) (files db))
    (filter (fun i => issue_repoId i <> repoId) (issues db)).

(** Clear the issues of the repository, then add the new ones. *)
Definition saveIssues (db : GitHubDatabase) (repoId : string) (new : list GitHubIssueDB)
    : GitHubDatabase :=
  mkGitHubDatabase (repos db) (files db)
    (filter (fun i => issue_repoId i <> repoId) (issues db) ++ new).

Definition issuesOf (db : GitHubDatabase) (repoId : string) : list GitHubIssueDB :=
  filter (fun i => issue_repoId i = repoId) (issues db).

Record IssuesCount := mkIssuesCount {
  count_open : nat;
  count_closed : nat;
  count_total : nat
}.

Definition getIssuesCount (db : GitHubDatabase) (repoId : string) : IssuesCount :=
  let allIssues := issuesOf db repoId in
  {| count_open := length (filter (fun i => issue_state i = open) allIssues);
     count_closed := length (filter (fun i => issue_state i = closed) allIssues);
     count_total := length allIssues |}.

(** Example: a host that compares strings code unit by code unit. *)
Definition codeUnitOrder : Collation := String_as_OT.compare.

(** Example inputs. *)
Definition entry (p n : string) (t : FileType) (pp : string) : GitHubFile :=
  {| file_repoId := "1"; file_path := p; file_name := n; file_type := t;
     file_sha := ""; file_size := None; file_downloadUrl := None;
     file_content := None; file_parentPath := pp; file_lastSynced := 0 |}.

(** The tree of the design's scenario, in shuffled order. *)
Definition scenarioTree : list GitHubFile :=
  [ entry "src/utils/b.ts" "b.ts" file "src/utils";
    entry "src/a.ts" "a.ts" file "src";
    entry "src/utils" "utils" dir "src";
    entry "src" "src" dir "" ].

(** A file whose parent directory sorts after it. *)
Definition lateParent : list GitHubFile :=
  [ entry "b" "b" file "z"; entry "z" "z" dir "" ].

End GithubDb.


(** ** Effects: calls to the remote API, the store, observers *)

Module Runtime.

(** A JavaScript [Error]: its message, and the [status] that the HTTP
    client attaches to a failed request. *)
Record JsError := mkError {
  err_message : string;
  err_status : option Z
}.

(** How a call ends: it returns, it throws, or (for a loop run with too
    little fuel) it has not ended yet. *)
Inductive Outcome (A : Type) : Type :=
| Returned (a : A)
| Thrown (e : JsError)
| Diverged.

Arguments Returned {A} a.
Arguments Thrown {A} e.
Arguments Diverged {A}.

Definition M (W A : Type) : Type := W -> Outcome A * W.

Section Monad.
Context {W : Type}.

Definition ret {A} (a : A) : M W A := fun w => (Returned a, w).

Definition bind {A B} (m : M W A) (k : A -> M W B) : M W B :=
  fun w =>
    match m w with
    | (Returned a, w') => k a w'
    | (Thrown e, w') => (Thrown e, w')
    | (Diverged, w') => (Diverged, w')
    end.

Definition throw {A} (e : JsError) : M W A := fun w => (Thrown e, w).

Definition diverge {A} : M W A := fun w => (Diverged, w).

(** [try { m } catch (e) { h e }]. *)
Definition tryCatch {A} (m : M W A) (h : JsError -> M W A) : M W A :=
  fun w =>
    match m w with
    | (Thrown e, w') => h e w'
    | r => r
    end.

Definition get : M W W := fun w => (Returned w, w).

Definition modify (f : W -> W) : M W unit := fun w => (Returned tt, f w).

(** [for (const x of l) { body x }]. *)
Fixpoint forEach {A} (l : list A) (body : A -> M W unit) : M W unit :=
  match l with
  | [] => ret tt
  | x :: r => bind (body x) (fun _ => forEach r body)
  end.
End Monad.

Declare Scope js_scope.
Delimit Scope js_scope with js.
Notation "'let*' x ':=' m 'in' k" := (bind m (fun x => k))
  (at level 10, x pattern, m at level 100, k at level 200) : js_scope.

(** [x || fallback] on strings: the empty string is falsy. *)
Definition orElse (x : option string) (fallback : string) : string :=
  match x with
  | Some s => if String.eqb s "" then fallback else s
  | None => fallback
  end.

(** Truthiness of an optional string. *)
Definition truthy (x : option string) : bool :=
  match x with
  | Some s => negb (String.eqb s "")
  | None => false
  end.

(** [Number.prototype.toString] on an integer. *)
Definition toString (z : Z) : string := pretty z.

End Runtime.

(** ** Provider data, requests and observers: [types.ts] and the sync services *)

Module Types.
Import GithubDb Runtime.

Record IssueLabel := mkIssueLabel {
  il_name : string;
  il_color : string
}.

Record GitHubIssue := mkGitHubIssue {
  gi_id : Z;
  gi_number : Z;
  gi_title : string;
  gi_body : option string;
  gi_state : IssueState;
  gi_html_url : string;
  gi_created_at : string;
  gi_updated_at : string;
  gi_labels : list IssueLabel
}.

Record GitHubRepository := mkGitHubRepository {
  gr_id : Z;
  gr_name : string;
  gr_full_name : string;
  gr_description : option string;
  gr_html_url : string;
  gr_clone_url : string;
  gr_default_branch : string
}.

Inductive TreeItemType := ty_blob | ty_tree | ty_commit.

Record GitHubTreeItem := mkGitHubTreeItem {
  ti_path : string;
  ti_mode : string;
  ti_type : TreeItemType;
  ti_sha : string;
  ti_size : option Z;
  ti_url : string
}.

(** What the REST API sends. *)
Inductive RawLabel :=
| LabelText (s : string)
| LabelObject (name color : option string).

Record RawIssue := mkRawIssue {
  raw_id : Z;
  raw_number : Z;
  raw_title : string;
  raw_body : option string;
  raw_state : IssueState;
  raw_html_url : string;
  raw_created_at : string;
  raw_updated_at : string;
  raw_labels : list RawLabel
}.

Record RawTreeItem := mkRawTreeItem {
  rt_path : option string;
  rt_mode : option string;
  rt_type : TreeItemType;
  rt_sha : option string;
  rt_size : option Z;
  rt_url : option string
}.

(** The answer of [repos.getContent]: a file object, with its base64
    [content], or something without a [content] field (a directory). *)
Inductive ContentData :=
| FileData (content : option string)
| Listing.

Inductive StateFilter := only_open | only_closed | all.

Record ListForRepoParams := mkListForRepoParams {
  lp_owner : option string;
  lp_repo : option string;
  lp_state : StateFilter;
  lp_per_page : Z;
  lp_page : option Z
}.

Record GetContentParams := mkGetContentParams {
  gc_owner : option string;
  gc_repo : option string;
  gc_path : string;
  gc_ref : option string
}.

Record GetTreeParams := mkGetTreeParams {
  gt_owner : option string;
  gt_repo : option string;
  gt_tree_sha : string;
  gt_recursive : string
}.

Inductive Request :=
| ListForRepo (p : ListForRepoParams)
| GetContent (p : GetContentParams)
| ReposGet (owner repo : option string)
| GetTree (p : GetTreeParams).

Inductive Reply (A : Type) : Type :=
| Data (a : A)
| Failure (e : JsError).

Arguments Data {A} a.
Arguments Failure {A} e.

(** The remote side. Every endpoint answers a request knowing how many
    requests were made before it, so that answers may change over time. *)
Record Octokit := mkOctokit {
  issues_listForRepo : nat -> ListForRepoParams -> Reply (list RawIssue);
  repos_getContent : nat -> GetContentParams -> Reply ContentData;
  repos_get : nat -> option string -> option string -> Reply string;
  git_getTree : nat -> GetTreeParams -> Reply (list RawTreeItem);
  base64_decode : string -> string
}.

Inductive ProgressStatus := st_starting | st_syncing | st_completed | st_error.

Record IssuesSyncProgress := mkIssuesSyncProgress {
  ip_repoId : string;
  ip_repoName : string;
  ip_currentPage : Z;
  ip_totalPages : Z;
  ip_issuesProcessed : nat;
  ip_totalIssues : nat;
  ip_currentState : IssueState;
  ip_status : ProgressStatus;
  ip_error : option string
}.

Record SyncProgress := mkSyncProgress {
  sp_total : nat;
  sp_completed : nat;
  sp_currentFile : string;
  sp_status : ProgressStatus;
  sp_error : option string
}.

(** Everything a sync call can touch: the requests made so far, the
    store, what the two observers were shown, the [progress] object of a
    running issue sync, and the clock. *)
Record World := mkWorld {
  requests : list Request;
  store : GitHubDatabase;
  issuesEvents : list IssuesSyncProgress;
  syncEvents : list SyncProgress;
  progress : IssuesSyncProgress;
  now : Z
}.

Definition withRequests (w : World) (r : list Request) : World :=
  mkWorld r (store w) (issuesEvents w) (syncEvents w) (progress w) (now w).

Definition withStore (w : World) (db : GitHubDatabase) : World :=
  mkWorld (requests w) db (issuesEvents w) (syncEvents w) (progress w) (now w).

Definition withIssuesEvents (w : World) (l : list IssuesSyncProgress) : World :=
  mkWorld (requests w) (store w) l (syncEvents w) (progress w) (now w).

Definition withSyncEvents (w : World) (l : list SyncProgress) : World :=
  mkWorld (requests w) (store w) (issuesEvents w) l (progress w) (now w).

Definition withProgress (w : World) (p : IssuesSyncProgress) : World :=
  mkWorld (requests w) (store w) (issuesEvents w) (syncEvents w) p (now w).

End Types.

(** ** The provider client: [GitHubService] *)

Module Integrations.
Import JS GithubDb Runtime Types.
Local Open Scope js_scope.

Section GitHubService.
Variable octokit : Octokit.

(** An awaited call of an endpoint: the request is recorded, the answer
    is the value of the promise. *)
Definition requested (r : Request) (w : World) : World :=
  withRequests w (requests w ++ [r]).

Definition call {A} (r : Request) (answer : nat -> Reply A) : M World A :=
  fun w =>
    match answer (length (requests w)) with
    | Data a => (Returned a, requested r w)
    | Failure e => (Thrown e, requested r w)
    end.

Definition toLabel (l : RawLabel) : IssueLabel :=
  match l with
  | LabelText s => mkIssueLabel s ""
  | LabelObject name color => mkIssueLabel (orElse name "") (orElse color "")
  end.

Definition toIssue (i : RawIssue) : GitHubIssue :=
  {| gi_id := raw_id i; gi_number := raw_number i; gi_title := raw_title i;
     gi_body := if truthy (raw_body i) then raw_body i else None;
     gi_state := raw_state i; gi_html_url := raw_html_url i;
     gi_created_at := raw_created_at i; gi_updated_at := raw_updated_at i;
     gi_labels := map toLabel (raw_labels i) |}.

(** The request of [getIssues]: fifty per page, and no [page]. *)
Definition listParams (owner repo : option string) (state : StateFilter)
    : ListForRepoParams :=
  {| lp_owner := owner; lp_repo := repo; lp_state := state;
     lp_per_page := 50; lp_page := None |}.

Definition getIssues (owner repo : option string) (state : StateFilter)
    : M World (list GitHubIssue) :=
  tryCatch
    (let p := listParams owner repo state in
     let* data := call (ListForRepo p) (fun n => issues_listForRepo octokit n p) in
     ret (map toIssue data))
    (fun _ => throw (mkError "Failed to fetch issues" None)).

(** What [getIssues] delivers in world [w]; nothing when it throws. *)
Definition nextPage (owner repo : option string) (state : StateFilter) (w : World)
    : list GitHubIssue :=
  match issues_listForRepo octokit (length (requests w)) (listParams owner repo state) with
  | Data d => map toIssue d
  | Failure _ => []
  end.

Definition toTreeItem (i : RawTreeItem) : GitHubTreeItem :=
  {| ti_path := orElse (rt_path i) ""; ti_mode := orElse (rt_mode i) "";
     ti_type := rt_type i; ti_sha := orElse (rt_sha i) "";
     ti_size := rt_size i; ti_url := orElse (rt_url i) "" |}.

Definition getRepositoryTree (repoFullName branch : string)
    : M World (list GitHubTreeItem) :=
  tryCatch
    (let parts := splitSlash repoFullName in
     let p := {| gt_owner := parts !! 0%nat; gt_repo := parts !! 1%nat;
                 gt_tree_sha := branch; gt_recursive := "true" |} in
     let* data := call (GetTree p) (fun n => git_getTree octokit n p) in
     ret (map toTreeItem data))
    (fun _ => throw (mkError "Failed to fetch repository tree" None)).

(** The inner [fetchContent] of [getFileContent]: [None] stands for the
    [null] it returns on a 404 at a given ref. *)
Definition fetchContent (owner repo : option string) (path : string)
    (ref : option string) : M World (option string) :=
  tryCatch
    (let p := {| gc_owner := owner; gc_repo := repo; gc_path := path; gc_ref := ref |} in
     let* data := call (GetContent p) (fun n => repos_getContent octokit n p) in
     match data with
     | FileData (Some c) =>
         if String.eqb c "" then throw (mkError "File content not found" None)
         else ret (Some (base64_decode octokit c))
     | _ => throw (mkError "File content not found" None)
     end)
    (fun e =>
       if bool_decide (err_status e = Some 404%Z) && truthy ref then ret None
       else throw e).

Definition notFoundAtPath (path : string) (refToUse : option string) : string :=
  String.append "File not found at path: "
    (String.append path
       (if truthy refToUse
        then String.append " (ref: " (String.append (default "" refToUse) ")")
        else "")).

Definition failedToFetch (e : JsError) : string :=
  String.append "Failed to fetch file content: "
    (orElse (Some (err_message e)) "Unknown error").

Definition getFileContent (ownerOrFullName repoOrPath : string)
    (pathOrRef ref : option string) : M World string :=
  let '(owner, repo, path, refToUse) :=
    match ref with
    | Some r =>
        if truthy pathOrRef
        then (Some ownerOrFullName, Some repoOrPath, default "" pathOrRef, Some r)
        else (splitSlash ownerOrFullName !! 0%nat, splitSlash ownerOrFullName !! 1%nat,
              repoOrPath, pathOrRef)
    | None =>
        (splitSlash ownerOrFullName !! 0%nat, splitSlash ownerOrFullName !! 1%nat,
         repoOrPath, pathOrRef)
    end in
  tryCatch
    (let* first :=
       if truthy refToUse then fetchContent owner repo path refToUse
       else ret None in
     match first with
     | Some content => ret content
     | None =>
         let* branch := call (ReposGet owner repo) (fun n => repos_get octokit n owner repo) in
         let* content := fetchContent owner repo path (Some branch) in
         match content with
         | Some c => ret c
         | None => throw (mkError "File not found in the repository" None)
         end
     end)
    (fun e =>
       if bool_decide (err_status e = Some 404%Z)
       then throw (mkError (notFoundAtPath path refToUse) None)
       else throw (mkError (failedToFetch e) None)).
End GitHubService.

(** A remote repository that holds the issues [l] and nothing else: the
    listing endpoint answers with the requested page of the issues in the
    requested state, every other endpoint with 404. *)
Definition inState (f : StateFilter) (s : IssueState) : bool :=
  match f, s with
  | only_open, open => true
  | only_closed, closed => true
  | all, _ => true
  | _, _ => false
  end.

Definition listing (l : list RawIssue) (p : ListForRepoParams) : list RawIssue :=
  let matching := filter (fun i => inState (lp_state p) (raw_state i) = true) l in
  let skipped := Z.to_nat ((default 1%Z (lp_page p) - 1) * lp_per_page p) in
  take (Z.to_nat (lp_per_page p)) (drop skipped matching).

Definition notFound : JsError := mkError "Not Found" (Some 404%Z).

Definition hosting (l : list RawIssue) : Octokit :=
  {| issues_listForRepo := fun _ p => Data (listing l p);
     repos_getContent := fun _ _ => Failure notFound;
     repos_get := fun _ _ _ => Failure notFound;
     git_getTree := fun _ _ => Failure notFound;
     base64_decode := fun s => s |}.

(** A repository whose file exists on the default branch [main] only. *)
Definition onMainOnly : Octokit :=
  {| issues_listForRepo := fun _ _ => Data [];
     repos_getContent := fun _ p =>
       if bool_decide (gc_ref p = Some "main") then Data (FileData (Some "aGVsbG8="))
       else Failure notFound;
     repos_get := fun _ _ _ => Data "main";
     git_getTree := fun _ _ => Failure notFound;
     base64_decode := fun s => s |}.

Definition freshWorld : World :=
  mkWorld [] emptyDatabase [] []
    (mkIssuesSyncProgress "" "" 1 1 0 0 open st_starting None) 0.

End Integrations.

(** ** The issue sync orchestrator: [GitHubIssuesSyncService] *)

Module IssuesSync.
Import JS GithubDb Runtime Types Integrations.
Local Open Scope js_scope.

Record SyncOptions := mkSyncOptions {
  opt_syncOpen : option bool;
  opt_syncClosed : option bool;
  opt_maxIssues : option Q
}.

(** [a < b] on numbers. *)
Definition Qltb (a b : Q) : bool := negb (Qle_bool b a).

(** [Math.min]. *)
Definition mathMin (a b : Q) : Q := if Qle_bool a b then a else b.

Definition ofLength {A} (l : list A) : Q := inject_Z (Z.of_nat (length l)).

Definition stateFilter (s : IssueState) : StateFilter :=
  match s with open => only_open | closed => only_closed end.

Section Service.
Variable octokit : Octokit.

(** [this.progressCallback(progress)]: the observer is shown the
    [progress] object as it is at this moment. *)
Definition updateProgress : M World unit :=
  modify (fun w => withIssuesEvents w (issuesEvents w ++ [progress w])).

Definition setProgress (f : IssuesSyncProgress -> IssuesSyncProgress) : M World unit :=
  modify (fun w => withProgress w (f (progress w))).

Definition setPage (page : Z) (processed : nat) (p : IssuesSyncProgress)
    : IssuesSyncProgress :=
  mkIssuesSyncProgress (ip_repoId p) (ip_repoName p) page (ip_totalPages p)
    processed (ip_totalIssues p) (ip_currentState p) (ip_status p) (ip_error p).

Definition setState (st : IssueState) (status : ProgressStatus) (p : IssuesSyncProgress)
    : IssuesSyncProgress :=
  mkIssuesSyncProgress (ip_repoId p) (ip_repoName p) (ip_currentPage p) (ip_totalPages p)
    (ip_issuesProcessed p) (ip_totalIssues p) st status (ip_error p).

Definition setCompleted (n : nat) (p : IssuesSyncProgress) : IssuesSyncProgress :=
  mkIssuesSyncProgress (ip_repoId p) (ip_repoName p) (ip_currentPage p) (ip_totalPages p)
    n n (ip_currentState p) st_completed (ip_error p).

Definition setError (msg : string) (p : IssuesSyncProgress) : IssuesSyncProgress :=
  mkIssuesSyncProgress (ip_repoId p) (ip_repoName p) (ip_currentPage p) (ip_totalPages p)
    (ip_issuesProcessed p) (ip_totalIssues p) (ip_currentState p) st_error (Some msg).

(** The world after the progress update of an iteration. *)
Definition shown (page : Z) (processed : nat) (w : World) : World :=
  let w1 := withProgress w (setPage page processed (progress w)) in
  withIssuesEvents w1 (issuesEvents w1 ++ [progress w1]).

(** What one pass through the [try] block of the loop decides. *)
Inductive Step :=
| Break (issues : list GitHubIssue)
| Continue (issues : list GitHubIssue).

Definition iteration (owner repo : option string) (state : IssueState)
    (maxIssues perPage : Q) (issues : list GitHubIssue) (page : Z) : M World Step :=
  tryCatch
    (let* pageIssues := getIssues octokit owner repo (stateFilter state) in
     if Nat.eqb (length pageIssues) 0 then ret (Break issues)
     else
       let issues' :=
         issues ++ slice0 pageIssues (truncate (maxIssues - ofLength issues)) in
       let* _ := setProgress (setPage page (length issues')) in
       let* _ := updateProgress in
       if Qltb (ofLength pageIssues) perPage then ret (Break issues')
       else ret (Continue issues'))
    (fun _ => ret (Break issues)).

(** [while (issues.length < maxIssues) { ... }], run for at most [fuel]
    iterations. *)
Fixpoint paginate (fuel : nat) (owner repo : option string) (state : IssueState)
    (maxIssues perPage : Q) (issues : list GitHubIssue) (page : Z)
    : M World (list GitHubIssue) :=
  if Qltb (ofLength issues) maxIssues then
    match fuel with
    | O => diverge
    | S fuel' =>
        let* step := iteration owner repo state maxIssues perPage issues page in
        match step with
        | Break issues' => ret issues'
        | Continue issues' =>
            paginate fuel' owner repo state maxIssues perPage issues' (page + 1)
        end
    end
  else ret issues.

Definition fetchIssuesWithPagination (fuel : nat) (owner repo : option string)
    (state : IssueState) (maxIssues : Q) : M World (list GitHubIssue) :=
  paginate fuel owner repo state maxIssues (mathMin 100 maxIssues) [] 1.

Definition convertToDBIssue (now : Z) (issue : GitHubIssue) (repoId : string)
    : GitHubIssueDB :=
  {| issue_issueId := gi_id issue; issue_repoId := repoId;
     issue_number := gi_number issue; issue_title := gi_title issue;
     issue_body := gi_body issue; issue_state := gi_state issue;
     issue_htmlUrl := gi_html_url issue;
     issue_createdAt := gi_created_at issue; issue_updatedAt := gi_updated_at issue;
     issue_closedAt := None; issue_authorLogin := ""; issue_authorAvatarUrl := "";
     issue_assignees := [];
     issue_labels := map (fun l => mkLabel (il_name l) (il_color l) None) (gi_labels issue);
     issue_milestone := None; issue_comments := 0; issue_lastSynced := now |}.

Definition syncOne (fuel : nat) (owner repo : option string) (repoId : string)
    (state : IssueState) (budget : Q) : M World (list GitHubIssueDB) :=
  let* _ := setProgress (setState state st_syncing) in
  let* _ := updateProgress in
  let* fetched := fetchIssuesWithPagination fuel owner repo state budget in
  let* w := get in
  ret (map (fun issue => convertToDBIssue (now w) issue repoId) fetched).

Definition syncRepositoryIssues (fuel : nat) (repo : GitHubRepository)
    (options : SyncOptions) : M World unit :=
  let syncOpen := default true (opt_syncOpen options) in
  let syncClosed := default false (opt_syncClosed options) in
  let maxIssues := default (100 : Q) (opt_maxIssues options) in
  let repoId := toString (gr_id repo) in
  let* _ := setProgress (fun _ =>
    mkIssuesSyncProgress repoId (gr_name repo) 1 1 0 0 open st_starting None) in
  tryCatch
    (let* _ := updateProgress in
     let parts := splitSlash (gr_full_name repo) in
     let owner := parts !! 0%nat in
     let repoName := parts !! 1%nat in
     let* openIssues :=
       if syncOpen
       then syncOne fuel owner repoName repoId open
              (maxIssues / (if syncClosed then 2 else 1))
       else ret [] in
     let* closedIssues :=
       if syncClosed
       then syncOne fuel owner repoName repoId closed (maxIssues / 2)
       else ret [] in
     let allIssues := openIssues ++ closedIssues in
     let* _ := modify (fun w => withStore w (saveIssues (store w) repoId allIssues)) in
     let* _ := setProgress (setCompleted (length allIssues)) in
     updateProgress)
    (fun e =>
       let* _ := setProgress (setError (err_message e)) in
       let* _ := updateProgress in
       throw e).

(** [syncMultipleRepositories]: one repository after the other; a failure
    is logged and the loop goes on. Its [maxIssuesPerRepo] option is not a
    field that [syncRepositoryIssues] reads. *)
Definition syncMultipleRepositories (fuel : nat) (repositories : list GitHubRepository)
    (syncOpen syncClosed : option bool) (maxIssuesPerRepo : option Q) : M World unit :=
  forEach repositories
    (fun repo =>
       tryCatch
         (syncRepositoryIssues fuel repo (mkSyncOptions syncOpen syncClosed None))
         (fun _ => ret tt)).
End Service.

(** Example data: a repository, its remote issues, an empty world. *)
Definition sampleRepo : GitHubRepository :=
  mkGitHubRepository 1 "app" "acme/app" None "" "" "main".

Definition sampleIssue (s : IssueState) (n : nat) : RawIssue :=
  mkRawIssue (Z.of_nat n) (Z.of_nat n) "issue" None s "" "" "" [].

(** Six open issues and twenty closed ones. *)
Definition sixOpenTwentyClosed : list RawIssue :=
  map (sampleIssue open) (seq 1 6) ++ map (sampleIssue closed) (seq 7 20).

Definition idleProgress : IssuesSyncProgress :=
  mkIssuesSyncProgress "" "" 1 1 0 0 open st_starting None.

Definition emptyWorld : World :=
  mkWorld [] emptyDatabase [] [] idleProgress 0.

(** A store that already caches one open issue of [sampleRepo]. *)
Definition cachedOpenIssue : GitHubIssueDB :=
  convertToDBIssue 0 (toIssue (sampleIssue open 1)) "1".

Definition worldWithCache : World :=
  mkWorld [] (mkGitHubDatabase ∅ [] [cachedOpenIssue]) [] [] idleProgress 0.

End IssuesSync.

(** ** The file sync orchestrator: [GitHubSyncService] *)

Module FileSync.
Import JS GithubDb Runtime Types Integrations.
Local Open Scope js_scope.

Definition getFileName (path : string) : string :=
  List.last (splitSlash path) "".

Definition getParentPath (path : string) : string :=
  let parts := splitSlash path in
  if (length parts <=? 1)%nat then "" else joinSlash (removelast parts).

Definition toFile (now : Z) (repoId : string) (item : GitHubTreeItem) : GitHubFile :=
  {| file_repoId := repoId;
     file_path := ti_path item;
     file_name := getFileName (ti_path item);
     file_type := match ti_type item with ty_tree => dir | _ => file end;
     file_sha := ti_sha item;
     file_size := ti_size item;
     file_downloadUrl := match ti_type item with ty_blob => Some (ti_url item) | _ => None end;
     file_content := None;
     file_parentPath := getParentPath (ti_path item);
     file_lastSynced := now |}.

Section Service.
Variable octokit : Octokit.

(** [this.onProgress?.(p)]. *)
Definition onProgress (p : SyncProgress) : M World unit :=
  modify (fun w => withSyncEvents w (syncEvents w ++ [p])).

(** [for (const item of tree)]: the entry is built and pushed, the counter
    goes up, the observer is told. *)
Fixpoint processItems (repoId : string) (total : nat) (items : list GitHubTreeItem)
    (files : list GitHubFile) (completed : nat) : M World (list GitHubFile) :=
  match items with
  | [] => ret files
  | item :: rest =>
      let* w := get in
      let files' := files ++ [toFile (now w) repoId item] in
      let* _ := onProgress (mkSyncProgress total (S completed) (ti_path item) st_syncing None) in
      processItems repoId total rest files' (S completed)
  end.

Definition syncRepository (repo : GitHubRepository) : M World unit :=
  let repoId := toString (gr_id repo) in
  tryCatch
    (let* _ := modify (fun w => withStore w (saveRepo (store w)
         {| repo_id := repoId; repo_name := gr_name repo;
            repo_fullName := gr_full_name repo;
            repo_defaultBranch := gr_default_branch repo;
            repo_lastSynced := now w; repo_totalFiles := 0;
            repo_syncStatus := syncing |})) in
     let* tree := getRepositoryTree octokit (gr_full_name repo) (gr_default_branch repo) in
     (* [if (!tree) throw ...]: an array is never falsy *)
     let total := length tree in
     let* _ := onProgress (mkSyncProgress total 0 "Starting sync..." st_syncing None) in
     let* files := processItems repoId total tree [] 0 in
     let* _ := modify (fun w => withStore w (saveFiles (store w) repoId files)) in
     let* _ := modify (fun w => withStore w
         (updateRepoSyncStatus (store w) repoId completed
            (Some (Z.of_nat (length files))) (now w))) in
     onProgress (mkSyncProgress total total "Sync completed!" st_completed None))
    (fun e =>
       let* _ := modify (fun w => withStore w
           (updateRepoSyncStatus (store w) repoId error None (now w))) in
       let* _ := onProgress (mkSyncProgress 0 0 "" st_error (Some (err_message e))) in
       throw e).

Definition isRepositorySynced (db : GitHubDatabase) (repoId : string) : bool :=
  match getRepoSyncStatus db repoId with
  | Some r => bool_decide (repo_syncStatus r = completed)
  | None => false
  end.
End Service.

(** A remote whose tree endpoint is down. *)
Definition treeDown : Octokit :=
  {| issues_listForRepo := fun _ _ => Data [];
     repos_getContent := fun _ _ => Failure notFound;
     repos_get := fun _ _ _ => Data "main";
     git_getTree := fun _ _ => Failure (mkError "Server Error" (Some 500%Z));
     base64_decode := fun s => s |}.

Definition demoRepository : GitHubRepository :=
  mkGitHubRepository 7 "app" "acme/app" None "" "" "main".

End FileSync.

(** ** Numbers of the scoring code *)

Module Numbers.

(** The arithmetic that the scoring functions use. Scores are JavaScript
    numbers; the operations are kept abstract, so that what is proved of a
    score holds for every arithmetic that obeys [NumberLaws]. The laws are
    facts of sign and order only, none of them asks for exact results;
    the exact rationals obey them. *)
Class Number := {
  num : Type;
  lit : Q -> num;
  ofNat : nat -> num;
  add : num -> num -> num;
  mul : num -> num -> num;
  div : num -> num -> num;
  mathMin : num -> num -> num;
  compareN : num -> num -> comparison
}.

Definition leN `{Number} (a b : num) : Prop := compareN a b <> Gt.

(** [a > b]. *)
Definition gtb `{Number} (a b : num) : bool :=
  match compareN a b with Gt => true | _ => false end.

Class NumberLaws (N : Number) : Prop := {
  compareN_opp : forall a b, compareN b a = CompOpp (compareN a b);
  leN_trans : forall a b c, leN a b -> leN b c -> leN a c;
  lit_le : forall p q, (p <= q)%Q -> leN (lit p) (lit q);
  ofNat_nonneg : forall n, leN (lit 0) (ofNat n);
  ofNat_pos : forall n, (0 < n)%nat -> compareN (lit 0) (ofNat n) = Lt;
  add_nonneg : forall a b, leN (lit 0) a -> leN (lit 0) b -> leN (lit 0) (add a b);
  mul_nonneg : forall a b, leN (lit 0) a -> leN (lit 0) b -> leN (lit 0) (mul a b);
  div_nonneg : forall a b,
    leN (lit 0) a -> compareN (lit 0) b = Lt -> leN (lit 0) (div a b);
  mathMin_le_r : forall a b, leN (mathMin a b) b;
  mathMin_glb : forall a b c, leN c a -> leN c b -> leN c (mathMin a b)
}.

(** [x] lies in the interval from 0 to 1. *)
Definition inUnit `{Number} (x : num) : Prop := leN (lit 0) x /\ leN x (lit 1).

(** Exact rational arithmetic. *)
#[global] Instance rational : Number := {|
  num := Q;
  lit := fun q => q;
  ofNat := fun n => inject_Z (Z.of_nat n);
  add := Qplus;
  mul := Qmult;
  div := Qdiv;
  mathMin := fun a b => if Qle_bool a b then a else b;
  compareN := Qcompare
|}.

End Numbers.

(** ** The relevance search engine: [ServerCodeContextService] *)

Module CodeContext.
Import JS Numbers.

Record CodeFile := mkCodeFile {
  cf_fullPath : string;
  cf_relativePath : string;
  cf_name : string
}.

Inductive ContextType :=
| ct_function | ct_class | ct_interface | ct_component
| ct_config | ct_test | ct_documentation.

Definition technicalTerms : list string :=
  [ "function"; "class"; "interface"; "component"; "method"; "variable"; "constant";
    "async"; "await"; "promise"; "callback"; "event"; "handler"; "listener";
    "state"; "props"; "context"; "hook"; "effect"; "reducer"; "action";
    "error"; "bug"; "crash"; "fail"; "exception"; "timeout"; "memory"; "leak";
    "performance"; "slow"; "optimization"; "bottleneck"; "deadlock";
    "react"; "typescript"; "javascript"; "node"; "express"; "api"; "database";
    "sql"; "mongodb"; "redis"; "auth"; "authentication"; "authorization";
    "test"; "testing"; "jest"; "cypress"; "docker"; "kubernetes";
    "config"; "configuration"; "env"; "environment"; "package"; "dependency";
    "route"; "middleware"; "controller"; "service"; "util"; "helper" ].

(** [/^[A-Z][a-z]+[A-Z]/.test(word)]. *)
Fixpoint lowersThenUpper (seenLower : bool) (s : string) : bool :=
  match s with
  | EmptyString => false
  | String c r =>
      if isLower c then lowersThenUpper true r
      else seenLower && isUpper c
  end.

Definition camelCase (word : string) : bool :=
  match word with
  | EmptyString => false
  | String c r => isUpper c && lowersThenUpper false r
  end.

Definition extractSearchTerms (query : string) : list string :=
  let lower := toLowerCase query in
  let ws := List.filter (fun w => (2 <? String.length w)%nat)
              (words (blankPunctuation lower)) in
  let searchTerms :=
    List.filter (fun w => arrayIncludes technicalTerms w
                          || (4 <? String.length w)%nat || camelCase w) ws in
  let phrases := List.filter (fun term => includes lower term) technicalTerms in
  dedupe [] (searchTerms ++ phrases).

(** The last segment of [fileName.split('.')], in lower case. *)
Definition extension (fileName : string) : string :=
  toLowerCase (List.last (splitOn "."%char fileName) "").

Definition languageMap : list (string * string) :=
  [ ("ts", "typescript"); ("tsx", "typescript"); ("js", "javascript");
    ("jsx", "javascript"); ("py", "python"); ("java", "java"); ("cs", "csharp");
    ("go", "go"); ("rs", "rust"); ("php", "php"); ("rb", "ruby"); ("cpp", "cpp");
    ("c", "c"); ("h", "c"); ("css", "css"); ("scss", "scss"); ("html", "html");
    ("json", "json"); ("xml", "xml"); ("yaml", "yaml"); ("yml", "yaml");
    ("md", "markdown"); ("sql", "sql"); ("sh", "bash"); ("dockerfile", "dockerfile") ].

Definition detectLanguage (fileName : string) : string :=
  match List.find (fun kv => String.eqb (fst kv) (extension fileName)) languageMap with
  | Some kv => snd kv
  | None => "text"
  end.

Definition determineContextType (filePath content : string) : ContextType :=
  let fileName := toLowerCase filePath in
  let contentLower := toLowerCase content in
  if includes fileName "test" || includes fileName "spec" then ct_test
  else if includes fileName "config" || includes fileName ".env"
          || includes fileName "package.json" then ct_config
  else if includes fileName "readme" || includes fileName ".md" then ct_documentation
  else if includes contentLower "class " || includes contentLower "export class"
  then ct_class
  else if includes contentLower "interface " || includes contentLower "export interface"
  then ct_interface
  else if includes contentLower "function " || includes contentLower "const "
          || includes contentLower "export function" then ct_function
  else if includes fileName "component" || includes contentLower "react"
          || includes contentLower "jsx" then ct_component
  else ct_function.

(** The window of [extractRelevantSection]: the text and its 1-based line
    range, or nothing when no line mentions a term. *)
Definition lineScore (searchTerms : list string) (line : string) : nat :=
  length (List.filter (fun term => includes (toLowerCase line) term) searchTerms).

Definition byLineScore (a b : nat * nat) : comparison :=
  Nat.compare (snd b) (snd a).

Definition extractRelevantSection (content : string) (searchTerms : list string)
    : option (string * (nat * nat)) :=
  let lines := splitOn "010"%char content in
  let scored := imap (fun index line => (index, lineScore searchTerms line)) lines in
  let relevantLines := List.filter (fun p => (0 <? snd p)%nat) scored in
  match arraySort byLineScore relevantLines with
  | [] => None
  | bestLine :: _ =>
      let start := (fst bestLine - 15)%nat in
      let stop := Nat.min (length lines - 1) (fst bestLine + 15) in
      let sectionLines := take (S stop - start) (drop start lines) in
      Some (join (String "010"%char "") sectionLines, (S start, S stop))
  end.

Section Engine.
Context `{Number}.

Record CodeContext := mkCodeContext {
  cc_filePath : string;
  cc_fileName : string;
  cc_repository : string;
  cc_content : string;
  cc_relevanceScore : num;
  cc_lineNumbers : option (nat * nat);
  cc_language : string;
  cc_contextType : ContextType
}.

Record CodeSearchResult := mkCodeSearchResult {
  sr_contexts : list CodeContext;
  sr_totalMatches : nat;
  sr_searchTerms : list string;
  sr_confidence : num
}.

(** [searchTerms.forEach(term => { ... score += ... })]. *)
Definition nameAndPath (fileName filePath : string) (score : num) (term : string) : num :=
  let score1 := if includes fileName term then add score (lit (3 # 10)) else score in
  if includes filePath term then add score1 (lit (2 # 10)) else score1.

Definition contentMatches (contentLower : string) (score : num) (term : string) : num :=
  let matches := countWordMatches term None contentLower 0 in
  if (0 <? matches)%nat
  then add score (mathMin (mul (ofNat matches) (lit (5 # 100))) (lit (2 # 10)))
  else score.

Definition boost (condition : bool) (score : num) : num :=
  if condition then add score (lit (2 # 10)) else score.

Definition calculateFileRelevance (file : CodeFile) (content : string)
    (searchTerms : list string) (originalQuery : string) : num :=
  let contentLower := toLowerCase content in
  let fileName := toLowerCase (cf_name file) in
  let filePath := toLowerCase (cf_relativePath file) in
  let score0 := lit 0 in
  let score1 := fold_left (nameAndPath fileName filePath) searchTerms score0 in
  let score2 := fold_left (contentMatches contentLower) searchTerms score1 in
  let score3 :=
    boost (includes originalQuery "test"
           && (includes fileName "test" || includes fileName "spec")) score2 in
  let score4 :=
    boost (includes originalQuery "config"
           && (includes fileName "config" || includes fileName "env")) score3 in
  let score5 :=
    boost (includes originalQuery "component" && includes fileName "component") score4 in
  mathMin score5 (lit 1).

Definition calculateSearchConfidence (contexts : list CodeContext)
    (searchTerms : list string) : num :=
  if Nat.eqb (length contexts) 0 then lit 0
  else
    let confidence1 :=
      add (lit 0) (mathMin (mul (ofNat (length contexts)) (lit (1 # 10))) (lit (3 # 10))) in
    let avgRelevance :=
      div (fold_left (fun sum ctx => add sum (cc_relevanceScore ctx)) contexts (lit 0))
          (ofNat (length contexts)) in
    let confidence2 := add confidence1 (mul avgRelevance (lit (4 # 10))) in
    let termCoverage := if (0 <? length searchTerms)%nat then lit (3 # 10) else lit 0 in
    let confidence3 := add confidence2 termCoverage in
    mathMin confidence3 (lit 1).

(** The body of the loop over the files: the context of a file that
    could be read and scores above the threshold. *)
Definition contextOf (searchTerms : list string) (query : string)
    (entry : CodeFile * option string) : option CodeContext :=
  match entry with
  | (_, None) => None
  | (file, Some content) =>
      let relevanceScore := calculateFileRelevance file content searchTerms query in
      if gtb relevanceScore (lit (1 # 10)) then
        let section :=
          if (2000 <? String.length content)%nat
          then extractRelevantSection content searchTerms else None in
        Some {| cc_filePath := cf_relativePath file;
                cc_fileName := cf_name file;
                cc_repository := "current-project";
                cc_content := match section with Some s => fst s | None => content end;
                cc_relevanceScore := relevanceScore;
                cc_lineNumbers := match section with Some s => Some (snd s) | None => None end;
                cc_language := detectLanguage (cf_name file);
                cc_contextType := determineContextType (cf_relativePath file) content |}
      else None
  end.

(** [(a, b) => b.relevanceScore - a.relevanceScore], by its sign. *)
Definition byRelevance (a b : CodeContext) : comparison :=
  compareN (cc_relevanceScore b) (cc_relevanceScore a).

(** [corpus] is what [getAllCodeFiles] finds, each file with what
    [fs.readFile] gives for it ([None]: the read fails). *)
Definition searchCodeContext (corpus : list (CodeFile * option string))
    (query : string) (maxResults : Q) : CodeSearchResult :=
  let searchTerms := extractSearchTerms query in
  if Nat.eqb (length corpus) 0
  then mkCodeSearchResult [] 0 searchTerms (lit 0)
  else
    let contexts := omap (contextOf searchTerms query) corpus in
    let sorted := arraySort byRelevance contexts in
    let limitedContexts := slice0 sorted (truncate maxResults) in
    mkCodeSearchResult limitedContexts (length contexts) searchTerms
      (calculateSearchConfidence limitedContexts searchTerms).
End Engine.

(** Example corpus: three source files that mention authentication, and a
    file that cannot be read. *)
Definition authCorpus : list (CodeFile * option string) :=
  [ (mkCodeFile "/app/src/auth/login.ts" "src/auth/login.ts" "login.ts",
     Some "export function login(token) { return auth(token) }");
    (mkCodeFile "/app/src/auth.ts" "src/auth.ts" "auth.ts",
     Some "export const auth = (token) => check(token)");
    (mkCodeFile "/app/src/auth.test.ts" "src/auth.test.ts" "auth.test.ts",
     Some "test('auth', () => {})");
    (mkCodeFile "/app/locked.ts" "locked.ts" "locked.ts", None) ].

End CodeContext.

(** ** The analysis orchestrator: [IssueAnalysisService] *)

Module IssueAnalysis.
Import JS GithubDb Numbers CodeContext.

Inductive Priority := high | medium | low.
Inductive Category := bug_fix | performance | security | best_practice | feature.

Record CodeSuggestion := mkCodeSuggestion {
  cs_id : string;
  cs_title : string;
  cs_description : string;
  cs_code : string;
  cs_language : string;
  cs_filePath : option string;
  cs_repository : option string;
  cs_priority : Priority;
  cs_category : Category
}.

Section Service.
Context `{Number}.

Record IssueMatch := mkIssueMatch {
  im_id : string;
  im_title : string;
  im_body : string;
  im_labels : list string;
  im_state : IssueState;
  im_repository : string;
  im_url : string;
  im_relevanceScore : num;
  im_suggestedActions : list string
}.

Record AnalysisResult := mkAnalysisResult {
  ar_relevantIssues : list IssueMatch;
  ar_codeSuggestions : list CodeSuggestion;
  ar_codeContexts : list CodeContext;
  ar_summary : string;
  ar_confidence : num
}.

Definition calculateConfidence (issues : list IssueMatch)
    (suggestions : list CodeSuggestion) (keywords : list string)
    (codeContexts : option (list CodeContext)) : num :=
  let confidence1 :=
    add (lit 0) (mathMin (mul (ofNat (length keywords)) (lit (1 # 10))) (lit (3 # 10))) in
  let confidence2 :=
    add confidence1 (mathMin (mul (ofNat (length issues)) (lit (15 # 100))) (lit (4 # 10))) in
  let confidence3 :=
    add confidence2
      (mathMin (mul (ofNat (length suggestions)) (lit (1 # 10))) (lit (3 # 10))) in
  let highRelevanceIssues :=
    List.filter (fun issue => gtb (im_relevanceScore issue) (lit (8 # 10))) issues in
  let confidence4 :=
    add confidence3 (mul (ofNat (length highRelevanceIssues)) (lit (5 # 100))) in
  let confidence5 :=
    match codeContexts with
    | Some ctxs =>
        if (0 <? length ctxs)%nat then
          let withCount :=
            add confidence4
              (mathMin (mul (ofNat (length ctxs)) (lit (1 # 10))) (lit (2 # 10))) in
          let highRelevanceContexts :=
            List.filter (fun ctx => gtb (cc_relevanceScore ctx) (lit (5 # 10))) ctxs in
          add withCount (mul (ofNat (length highRelevanceContexts)) (lit (5 # 100)))
        else confidence4
    | None => confidence4
    end in
  mathMin confidence5 (lit 1).

(** The other steps of the analysis are look-ups over fixed vocabularies
    and sample data; the confidence sees them only through what they
    return. *)
Variable extractKeywords : string -> list string.
Variable determineContext : string -> list string.
Variable findRelevantIssues : list string -> list string -> list IssueMatch.
Variable generateCodeSuggestions :
  string -> list string -> list string -> list IssueMatch -> list CodeSuggestion.
Variable generateSummary :
  string -> list IssueMatch -> list CodeSuggestion -> list CodeContext -> string.

Definition analyzeUserStatement (corpus : list (CodeFile * option string))
    (statement : string) : AnalysisResult :=
  let keywords := extractKeywords statement in
  let context := determineContext statement in
  let relevantIssues := findRelevantIssues keywords context in
  let codeSearchResult := searchCodeContext corpus statement 5 in
  let codeContexts := sr_contexts codeSearchResult in
  let codeSuggestions :=
    generateCodeSuggestions statement keywords context relevantIssues in
  let confidence :=
    calculateConfidence relevantIssues codeSuggestions keywords (Some codeContexts) in
  let summary := generateSummary statement relevantIssues codeSuggestions codeContexts in
  mkAnalysisResult relevantIssues codeSuggestions codeContexts summary confidence.
End Service.

End IssueAnalysis.

(** ** More JavaScript built-ins *)

Module Text.
Import JS.

(** [s] contains the character [c]. *)
Fixpoint hasChar (c : ascii) (s : string) : bool :=
  match s with
  | EmptyString => false
  | String d r => Ascii.eqb d c || hasChar c r
  end.

(** Every character of [s] passes the test [p]. *)
Fixpoint everyChar (p : ascii -> bool) (s : string) : bool :=
  match s with
  | EmptyString => true
  | String c r => p c && everyChar p r
  end.

(** A lower-case letter, a digit or an underscore. *)
Definition plainChar (c : ascii) : bool :=
  isLower c || isDigit c || Ascii.eqb c "_"%char.

Definition plainWord (s : string) : bool := everyChar plainChar s.

(** [Array.prototype.slice(start)] for an integer [start]: a negative
    [start] counts from the end of the array. *)
Definition sliceFrom {A : Type} (l : list A) (start : Z) : list A :=
  if (start <? 0)%Z then drop (Z.to_nat (Z.of_nat (length l) + start)) l
  else drop (Z.to_nat start) l.

(** [s.split(/\s+/)]: the pieces between the maximal runs of white space;
    an empty piece at either end is kept. *)
Fixpoint splitSpacesAux (cur : string) (inRun : bool) (s : string) : list string :=
  match s with
  | EmptyString => [cur]
  | String c r =>
      if isSpace c then
        if inRun then splitSpacesAux "" true r
        else cur :: splitSpacesAux "" true r
      else splitSpacesAux (String.append cur (String c "")) false r
  end.

Definition splitSpaces (s : string) : list string := splitSpacesAux "" false s.

(** Truthiness of an optional number: [undefined] and [0] are falsy. *)
Definition nonZero (x : option Q) : option Q :=
  match x with
  | Some q => if Qeq_bool q 0 then None else Some q
  | None => None
  end.

(** Truthiness of an optional string, keeping the string. *)
Definition nonEmpty (x : option string) : option string :=
  match x with
  | Some s => if String.eqb s "" then None else Some s
  | None => None
  end.

End Text.

(** ** The cache store: file contents and issue queries *)

Module StoreQueries.
Import JS Text GithubDb.

(** The rows of [files.where('[repoId+path]').equals([repoId, filePath])],
    in the order of their keys. *)
Definition filesAt (db : GitHubDatabase) (repoId filePath : string) : list GitHubFile :=
  filter (fun f => file_repoId f = repoId /\ file_path f = filePath) (files db).

Definition getFile (db : GitHubDatabase) (repoId filePath : string) : option GitHubFile :=
  head (filesAt db repoId filePath).

(** [file?.content]. *)
Definition getFileContent (db : GitHubDatabase) (repoId filePath : string)
    : option string :=
  match getFile db repoId filePath with
  | Some f => file_content f
  | None => None
  end.

Definition withContent (f : GitHubFile) (content : string) : GitHubFile :=
  {| file_repoId := file_repoId f; file_path := file_path f; file_name := file_name f;
     file_type := file_type f; file_sha := file_sha f; file_size := file_size f;
     file_downloadUrl := file_downloadUrl f; file_content := Some content;
     file_parentPath := file_parentPath f; file_lastSynced := file_lastSynced f |}.

(** [g] shows the fields that [buildFileTree] reads of [f]. *)
Definition sameNode (f g : GitHubFile) : Prop :=
  file_name g = file_name f /\ file_path g = file_path f /\
  file_type g = file_type f /\ file_sha g = file_sha f /\
  file_size g = file_size f /\ file_downloadUrl g = file_downloadUrl f /\
  file_parentPath g = file_parentPath f.

(** [.modify({ content })] on every row of the key. *)
Definition saveFileContent (db : GitHubDatabase) (repoId filePath content : string)
    : GitHubDatabase :=
  mkGitHubDatabase (repos db)
    (map (fun f =>
            if decide (file_repoId f = repoId /\ file_path f = filePath)
            then withContent f content else f)
         (files db))
    (issues db).

Record IssueFilters := mkIssueFilters {
  flt_state : option IssueState;
  flt_assignee : option string;
  flt_label : option string;
  flt_limit : option Q;
  flt_offset : option Q
}.

Definition hasLabel (label : string) (issue : GitHubIssueDB) : bool :=
  existsb (fun l => String.eqb (label_name l) label) (issue_labels issue).

(** [issue.title.toLowerCase().includes(searchTerm) ||
     (issue.body && issue.body.toLowerCase().includes(searchTerm))]. *)
Definition mentions (searchTerm : string) (issue : GitHubIssueDB) : bool :=
  includes (toLowerCase (issue_title issue)) searchTerm ||
  match issue_body issue with
  | Some body => negb (String.eqb body "") && includes (toLowerCase body) searchTerm
  | None => false
  end.

Section Dates.
(** [getTime s] is [d.getTime()] for the [Date] that the store holds for the
    time stamp [s]; the dates of the store are valid ones. *)
Variable getTime : string -> Z.

(** [(a, b) => b.updatedAt.getTime() - a.updatedAt.getTime()], by its sign. *)
Definition byUpdatedAt (a b : GitHubIssueDB) : comparison :=
  (getTime (issue_updatedAt b) ?= getTime (issue_updatedAt a))%Z.

Definition getIssues (db : GitHubDatabase) (repoId : string)
    (filters : option IssueFilters) : list GitHubIssueDB :=
  let issues0 := issuesOf db repoId in
  let issues1 :=
    match filters ≫= flt_state with
    | Some s => filter (fun issue => issue_state issue = s) issues0
    | None => issues0
    end in
  let issues2 :=
    match nonEmpty (filters ≫= flt_assignee) with
    | Some a => filter (fun issue => arrayIncludes (issue_assignees issue) a = true) issues1
    | None => issues1
    end in
  let issues3 :=
    match nonEmpty (filters ≫= flt_label) with
    | Some l => filter (fun issue => hasLabel l issue = true) issues2
    | None => issues2
    end in
  let sorted := arraySort byUpdatedAt issues3 in
  let issues4 :=
    match nonZero (filters ≫= flt_offset) with
    | Some offset => sliceFrom sorted (truncate offset)
    | None => sorted
    end in
  match nonZero (filters ≫= flt_limit) with
  | Some limit => slice0 issues4 (truncate limit)
  | None => issues4
  end.

Definition searchIssues (db : GitHubDatabase) (repoId query : string)
    : list GitHubIssueDB :=
  let searchTerm := toLowerCase query in
  arraySort byUpdatedAt
    (filter (fun issue => mentions searchTerm issue = true) (issuesOf db repoId)).

(** [getSyncStats] of the issue sync service. *)
Record SyncStats := mkSyncStats {
  stats_totalIssues : nat;
  stats_openIssues : nat;
  stats_closedIssues : nat;
  stats_lastSynced : option Z
}.

Definition getSyncStats (db : GitHubDatabase) (repoId : string) : SyncStats :=
  let counts := getIssuesCount db repoId in
  let issues := getIssues db repoId (Some (mkIssueFilters None None None (Some 1%Q) None)) in
  {| stats_totalIssues := count_total counts;
     stats_openIssues := count_open counts;
     stats_closedIssues := count_closed counts;
     stats_lastSynced := issue_lastSynced <$> head issues |}.
End Dates.

End StoreQueries.

(** ** The file browser: [toggleFolder] *)

Module Browser.
Import JS Text GithubDb.

(** [toggleNode] of [toggleFolder]: the directory nodes of path [path] flip
    [isExpanded]; what lies below such a node is not visited. *)
Fixpoint toggle (path : string) (node : FileTreeNode) : FileTreeNode :=
  match node with
  | mkFileTreeNode name p type sha size downloadUrl children isExpanded =>
      if String.eqb p path && bool_decide (type = dir)
      then mkFileTreeNode name p type sha size downloadUrl children (negb isExpanded)
      else
        match children with
        | Some ns =>
            mkFileTreeNode name p type sha size downloadUrl
              (Some (map (toggle path) ns)) isExpanded
        | None => node
        end
  end.

Definition toggleNode (path : string) (nodes : list FileTreeNode) : list FileTreeNode :=
  map (toggle path) nodes.

(** The paths of the directory nodes that [toggleNode] can reach. *)
Fixpoint dirPaths (node : FileTreeNode) : list string :=
  match node with
  | mkFileTreeNode _ p type _ _ _ children _ =>
      (match type with dir => [p] | file => [] end) ++
      match children with
      | Some ns => concat (map dirPaths ns)
      | None => []
      end
  end.

End Browser.

(** ** Tree listings as the file sync receives them *)

Module Listings.
Import JS Text GithubDb Runtime Types Integrations FileSync.

(** A tree listing in which no path occurs twice and every item below the
    top level has its directory listed, as an item of type [tree]. *)
Definition closedListing (tree : list GitHubTreeItem) : Prop :=
  NoDup (map ti_path tree) /\
  forall item, item ∈ tree -> isRootParent (getParentPath (ti_path item)) = false ->
    exists d, d ∈ tree /\ ti_type d = ty_tree /\ ti_path d = getParentPath (ti_path item).

(** The collation puts the directory of every item of the listing before
    the item. *)
Definition directoriesFirst `{Collation} (tree : list GitHubTreeItem) : Prop :=
  forall item, item ∈ tree -> isRootParent (getParentPath (ti_path item)) = false ->
    localeCompare (getParentPath (ti_path item)) (ti_path item) = Lt.

(** Example: a remote whose tree endpoint lists a directory and two files. *)
Definition rawItem (path : string) (type : TreeItemType) : RawTreeItem :=
  mkRawTreeItem (Some path) (Some "100644") type (Some "sha") None (Some "url").

Definition smallListing : list RawTreeItem :=
  [ rawItem "README.md" ty_blob; rawItem "src" ty_tree; rawItem "src/a.ts" ty_blob ].

Definition serving (items : list RawTreeItem) : Octokit :=
  {| issues_listForRepo := fun _ _ => Data [];
     repos_getContent := fun _ _ => Failure notFound;
     repos_get := fun _ _ _ => Data "main";
     git_getTree := fun _ _ => Data items;
     base64_decode := fun s => s |}.

(** A remote that cannot be reached: every request fails. *)
Definition offline : Octokit :=
  {| issues_listForRepo := fun _ _ => Failure (mkError "Network Error" None);
     repos_getContent := fun _ _ => Failure (mkError "Network Error" None);
     repos_get := fun _ _ _ => Failure (mkError "Network Error" None);
     git_getTree := fun _ _ => Failure (mkError "Network Error" None);
     base64_decode := fun s => s |}.

(** A store that holds a file of another repository, with its content. *)
Definition otherFile : GitHubFile :=
  {| file_repoId := "8"; file_path := "notes.txt"; file_name := "notes.txt";
     file_type := file; file_sha := "s"; file_size := None;
     file_downloadUrl := None; file_content := Some "kept";
     file_parentPath := ""; file_lastSynced := 0 |}.

Definition staleFile : GitHubFile :=
  {| file_repoId := "7"; file_path := "old.txt"; file_name := "old.txt";
     file_type := file; file_sha := "s"; file_size := None;
     file_downloadUrl := None; file_content := Some "stale";
     file_parentPath := ""; file_lastSynced := 0 |}.

Definition usedWorld : World :=
  mkWorld [] (mkGitHubDatabase ∅ [otherFile; staleFile] []) [] []
    (mkIssuesSyncProgress "" "" 1 1 0 0 open st_starting None) 0.

End Listings.

(** ** The editor's file selection: [handleFileSelect] *)

Module Editor.
Import JS Text GithubDb Runtime Types Integrations StoreQueries.
Local Open Scope js_scope.

Record CurrentFile := mkCurrentFile {
  cur_path : string;
  cur_name : string;
  cur_content : string;
  cur_language : string;
  cur_repoId : string;
  cur_repoFullName : string
}.

(** The state of the component that the handler touches, next to the
    world: the file shown, the loading flag, the error toasts raised. *)
Record EditorState := mkEditorState {
  ed_world : World;
  ed_currentFile : option CurrentFile;
  ed_isLoading : bool;
  ed_toasts : list string
}.

Definition setIsLoading (b : bool) (ed : EditorState) : EditorState :=
  mkEditorState (ed_world ed) (ed_currentFile ed) b (ed_toasts ed).

Definition setCurrentFile (f : CurrentFile) (ed : EditorState) : EditorState :=
  mkEditorState (ed_world ed) (Some f) (ed_isLoading ed) (ed_toasts ed).

Definition toastError (msg : string) (ed : EditorState) : EditorState :=
  mkEditorState (ed_world ed) (ed_currentFile ed) (ed_isLoading ed) (ed_toasts ed ++ [msg]).

Definition setStore (db : GitHubDatabase) (ed : EditorState) : EditorState :=
  mkEditorState (withStore (ed_world ed) db) (ed_currentFile ed) (ed_isLoading ed)
    (ed_toasts ed).

(** A call of the provider client from the component. *)
Definition inWorld {A} (m : M World A) : M EditorState A :=
  fun ed =>
    match m (ed_world ed) with
    | (o, w) => (o, mkEditorState w (ed_currentFile ed) (ed_isLoading ed) (ed_toasts ed))
    end.

(** [try { m } finally { f }], for a [finally] block that cannot throw. *)
Definition finally {A} (m : M EditorState A) (f : EditorState -> EditorState)
    : M EditorState A :=
  fun ed => match m ed with (o, ed') => (o, f ed') end.

Section Component.
Variable octokit : Octokit.
(** [getFileLanguage] of [lib/utils]. *)
Variable getFileLanguage : string -> string.

(** [GitHubSyncService.getFileContent]: the call of the client, any
    exception thrown on. *)
Definition syncService_getFileContent (repoFullName filePath sha : string)
    : M World string :=
  tryCatch (Integrations.getFileContent octokit repoFullName filePath (Some sha) None)
    (fun e => throw e).

Definition handleFileSelect (selectedRepo : option string) (filePath : string)
    : M EditorState unit :=
  match nonEmpty selectedRepo with
  | None => ret tt
  | Some selectedRepo =>
      finally
        (tryCatch
           (let* _ := modify (setIsLoading true) in
            let fileName := List.last (splitSlash filePath) "" in
            let* ed := get in
            match repos (store (ed_world ed)) !! selectedRepo with
            | None => ret tt
            | Some repo =>
                let cached :=
                  nonEmpty (StoreQueries.getFileContent (store (ed_world ed))
                              selectedRepo filePath) in
                let* content :=
                  match cached with
                  | Some c => ret (Some c)
                  | None =>
                      match StoreQueries.getFile (store (ed_world ed)) selectedRepo filePath with
                      | Some row =>
                          if String.eqb (file_sha row) "" then ret None
                          else
                            let* c := inWorld (syncService_getFileContent
                                                 (repo_fullName repo) filePath
                                                 (file_sha row)) in
                            let* _ := modify (fun ed1 =>
                              setStore (saveFileContent (store (ed_world ed1))
                                          selectedRepo filePath c) ed1) in
                            ret (nonEmpty (Some c))
                      | None => ret None
                      end
                  end in
                match content with
                | Some c =>
                    modify (setCurrentFile
                              (mkCurrentFile filePath fileName c (getFileLanguage fileName)
                                 selectedRepo (repo_fullName repo)))
                | None => ret tt
                end
            end)
           (fun _ => modify (toastError "Failed to load file content")))
        (setIsLoading false)
  end.
End Component.

(** Example: a store with the record of a repository and a row of it that
    has no content yet. *)
Definition readme : GitHubFile :=
  {| file_repoId := "7"; file_path := "README.md"; file_name := "README.md";
     file_type := file; file_sha := "abc123"; file_size := None;
     file_downloadUrl := None; file_content := None;
     file_parentPath := ""; file_lastSynced := 0 |}.

Definition freshEditor : EditorState :=
  mkEditorState
    (mkWorld []
       (mkGitHubDatabase
          {[ "7" := mkGitHubRepo "7" "app" "acme/app" "main" 0 1 completed ]}
          [readme] [])
       [] [] (mkIssuesSyncProgress "" "" 1 1 0 0 open st_starting None) 0)
    None false [].

End Editor.

(** ** The steps of the analysis: [IssueAnalysisService] *)

Module AnalysisSteps.
Import JS Text GithubDb Numbers IssueAnalysis.

Definition keywordTerms : list string :=
  [ "javascript"; "typescript"; "react"; "node"; "python"; "java"; "c#"; "go"; "rust";
    "angular"; "vue"; "svelte"; "next.js"; "express"; "fastapi"; "spring"; "django";
    "bug"; "error"; "crash"; "fail"; "broken"; "issue"; "problem"; "exception";
    "memory leak"; "performance"; "slow"; "timeout"; "deadlock"; "race condition";
    "security"; "vulnerability"; "xss"; "sql injection"; "csrf"; "authentication";
    "authorization"; "oauth"; "jwt"; "encryption"; "ssl"; "tls";
    "docker"; "kubernetes"; "aws"; "azure"; "gcp"; "ci/cd"; "pipeline"; "deployment";
    "database"; "redis"; "mongodb"; "postgresql"; "mysql"; "elasticsearch";
    "test"; "testing"; "unit test"; "integration test"; "e2e"; "jest"; "cypress";
    "selenium"; "coverage"; "mock"; "stub" ].

Definition extractKeywords (statement : string) : list string :=
  let words := splitSpaces (toLowerCase statement) in
  let keywords :=
    List.filter
      (fun word => existsb (fun term => includes word term || includes term word)
                           keywordTerms)
      words in
  let phrases :=
    List.filter (fun term => includes (toLowerCase statement) term) keywordTerms in
  dedupe [] (keywords ++ phrases).

Definition contexts : list (string * list string) :=
  [ ("debugging", ["debug"; "error"; "bug"; "crash"; "fail"; "broken"; "exception";
                   "stack trace"]);
    ("performance", ["slow"; "performance"; "optimize"; "speed"; "memory"; "cpu";
                     "bottleneck"]);
    ("security", ["security"; "vulnerability"; "hack"; "breach"; "auth"; "permission";
                  "encrypt"]);
    ("testing", ["test"; "testing"; "coverage"; "mock"; "unit"; "integration"; "e2e"]);
    ("deployment", ["deploy"; "build"; "ci/cd"; "pipeline"; "docker"; "kubernetes";
                    "production"]);
    ("database", ["database"; "sql"; "query"; "migration"; "schema"; "index";
                  "transaction"]);
    ("api", ["api"; "endpoint"; "rest"; "graphql"; "webhook"; "integration"; "service"]);
    ("frontend", ["ui"; "ux"; "component"; "render"; "dom"; "css"; "responsive";
                  "browser"]);
    ("backend", ["server"; "backend"; "microservice"; "architecture"; "scalability";
                 "load"]) ].

Definition determineContext (statement : string) : list string :=
  let lowerStatement := toLowerCase statement in
  map fst
    (List.filter
       (fun entry => existsb (fun keyword => includes lowerStatement keyword) (snd entry))
       contexts).

Section Issues.
Context `{Number}.

Definition mockIssues : list IssueMatch :=
  [ {| im_id := "issue-1";
       im_title := "Authentication timeout in production";
       im_body := "Users experiencing timeout errors when logging in during peak hours. JWT tokens seem to expire unexpectedly.";
       im_labels := ["bug"; "authentication"; "production"];
       im_state := open;
       im_repository := "main-app";
       im_url := "https://github.com/company/main-app/issues/142";
       im_relevanceScore := lit (9 # 10);
       im_suggestedActions :=
         [ "Check JWT token expiration settings";
           "Review authentication middleware";
           "Add timeout handling in login flow" ] |};
    {| im_id := "issue-2";
       im_title := "React component re-rendering performance issue";
       im_body := "Dashboard components are re-rendering too frequently, causing UI lag. Need to optimize with React.memo and useMemo.";
       im_labels := ["performance"; "react"; "frontend"];
       im_state := open;
       im_repository := "frontend-app";
       im_url := "https://github.com/company/frontend-app/issues/89";
       im_relevanceScore := lit (8 # 10);
       im_suggestedActions :=
         [ "Implement React.memo for expensive components";
           "Use useMemo for heavy calculations";
           "Add React DevTools profiler analysis" ] |};
    {| im_id := "issue-3";
       im_title := "Database connection pool exhaustion";
       im_body := "API endpoints failing with connection pool errors during high traffic. Need to optimize database connections.";
       im_labels := ["database"; "performance"; "backend"];
       im_state := open;
       im_repository := "api-service";
       im_url := "https://github.com/company/api-service/issues/156";
       im_relevanceScore := lit (85 # 100);
       im_suggestedActions :=
         [ "Increase database connection pool size";
           "Implement connection pooling best practices";
           "Add database monitoring and alerts" ] |} ].

(** The text of an issue that the keywords are looked up in. *)
Definition issueText (issue : IssueMatch) : string :=
  toLowerCase
    (String.append (im_title issue)
       (String.append " "
          (String.append (im_body issue)
             (String.append " " (join " " (im_labels issue)))))).

Definition isRelevant (keywords context : list string) (issue : IssueMatch) : bool :=
  existsb (fun keyword => includes (issueText issue) keyword) keywords ||
  existsb (fun ctx => existsb (fun label => includes label ctx) (im_labels issue)) context.

(** [(a, b) => b.relevanceScore - a.relevanceScore], by its sign. *)
Definition byIssueRelevance (a b : IssueMatch) : comparison :=
  compareN (im_relevanceScore b) (im_relevanceScore a).

Definition findRelevantIssues (keywords context : list string) : list IssueMatch :=
  slice0 (arraySort byIssueRelevance (List.filter (isRelevant keywords context) mockIssues)) 5.
End Issues.

End AnalysisSteps.

(** * Properties *)

(** ** Sorting *)

Module JSFacts.
Import JS.

Section ArraySort.
Context {A : Type} (cmp : A -> A -> comparison).

Lemma insertSorted_perm x l : insertSorted cmp x l ≡ₚ x :: l.
Proof.
  induction l as [|y r IH]; simpl; [done|].
  destruct (cmp x y); try done.
  rewrite IH. apply Permutation_swap.
Qed.

Lemma arraySort_perm l : arraySort cmp l ≡ₚ l.
Proof.
  induction l as [|x l IH]; simpl; [done|].
  rewrite insertSorted_perm. by rewrite IH.
Qed.

Lemma arraySort_length l : length (arraySort cmp l) = length l.
Proof. by rewrite arraySort_perm. Qed.

Hypothesis cmp_total : forall a b, cmp a b = Gt -> ordered cmp b a.
Hypothesis cmp_trans : forall a b c, ordered cmp a b -> ordered cmp b c -> ordered cmp a c.

Lemma insertSorted_sorted x l :
  StronglySorted (ordered cmp) l -> StronglySorted (ordered cmp) (insertSorted cmp x l).
Proof.
  induction 1 as [|y r Hr IH Hy]; simpl.
  - repeat constructor.
  - destruct (cmp x y) eqn:E.
    + constructor; [by constructor|].
      constructor; [unfold ordered; congruence|].
      eapply Forall_impl; [exact Hy|]. intros z Hz.
      eapply cmp_trans; [|exact Hz]. unfold ordered; congruence.
    + constructor; [by constructor|].
      constructor; [unfold ordered; congruence|].
      eapply Forall_impl; [exact Hy|]. intros z Hz.
      eapply cmp_trans; [|exact Hz]. unfold ordered; congruence.
    + constructor; [done|].
      rewrite insertSorted_perm. constructor; [by apply cmp_total|done].
Qed.

Lemma arraySort_sorted l : StronglySorted (ordered cmp) (arraySort cmp l).
Proof.
  induction l as [|x l IH]; simpl; [constructor|].
  by apply insertSorted_sorted.
Qed.
End ArraySort.

Lemma slice0_nonneg {A} (l : list A) (e : Z) :
  (0 <= e)%Z -> slice0 l e = take (Z.to_nat e) l.
Proof. intros He. unfold slice0. by rewrite (proj2 (Z.ltb_ge e 0) He). Qed.

End JSFacts.

(** ** The tree reconstructor *)

Module GithubDbFacts.
Import JS GithubDb.

Lemma lastIdx_snoc s f p :
  lastIdx (s ++ [f]) p =
  if decide (file_path f = p) then Some (length s) else lastIdx s p.
Proof.
  induction s as [|g s IH]; simpl.
  - by destruct (decide (file_path f = p)).
  - rewrite IH. destruct (decide (file_path f = p)); [done|].
    by destruct (lastIdx s p).
Qed.

Lemma lastIdx_Some s p k :
  lastIdx s p = Some k -> exists d, s !! k = Some d /\ file_path d = p.
Proof.
  revert k. induction s as [|g s IH]; simpl; intros k; [done|].
  destruct (lastIdx s p) as [k'|] eqn:E.
  - intros [= <-]. simpl. by apply IH.
  - destruct (decide (file_path g = p)); [|done].
    intros [= <-]. by exists g.
Qed.

Lemma lastIdx_lt s p k : lastIdx s p = Some k -> k < length s.
Proof.
  intros H. destruct (lastIdx_Some _ _ _ H) as (d & Hd & _).
  by eapply lookup_lt_Some.
Qed.

Lemma lastIdx_None s p :
  lastIdx s p = None -> forall d, d ∈ s -> file_path d <> p.
Proof.
  induction s as [|g s IH]; simpl; intros H d Hd.
  - by apply elem_of_nil in Hd.
  - destruct (lastIdx s p) eqn:E; [done|].
    destruct (decide (file_path g = p)); [done|].
    apply elem_of_cons in Hd as [->|Hd]; [done|]. by apply IH.
Qed.

(** With unique paths the map holds the one entry of that path. *)
Lemma lastIdx_unique s p k d :
  NoDup (map file_path s) -> s !! k = Some d -> file_path d = p ->
  lastIdx s p = Some k.
Proof.
  revert k. induction s as [|g s IH]; intros k Hnd Hk Hp; [done|].
  apply NoDup_cons in Hnd as [Hg Hnd]. simpl.
  destruct k as [|k]; simpl in Hk.
  - injection Hk as ->.
    destruct (lastIdx s p) as [k'|] eqn:E.
    + exfalso. apply Hg. destruct (lastIdx_Some _ _ _ E) as (d' & Hd' & Hp').
      rewrite Hp, <- Hp'. apply list_elem_of_fmap. exists d'. split; [done|].
      by eapply list_elem_of_lookup_2.
    + by rewrite decide_True.
  - by rewrite (IH k Hnd Hk Hp).
Qed.

Lemma isDirAt_app s t k : k < length s -> isDirAt (s ++ t) k = isDirAt s k.
Proof. intros H. unfold isDirAt. by rewrite lookup_app_l. Qed.

Lemma parentAt_app s t j : j < length s -> parentAt (s ++ t) j = parentAt s j.
Proof.
  intros Hj. unfold parentAt. rewrite lookup_app_l by done.
  destruct (s !! j) as [e|]; [|done].
  destruct (isRootParent _); [done|].
  rewrite take_app_le by lia.
  destruct (lastIdx _ _) as [k|] eqn:E; [|done].
  rewrite isDirAt_app; [done|].
  apply lastIdx_lt in E. rewrite length_take in E. lia.
Qed.

Lemma parentAt_Some s j i :
  parentAt s j = Some i ->
  exists e d, s !! j = Some e /\ s !! i = Some d /\ i <= j /\
    isRootParent (file_parentPath e) = false /\
    file_type d = dir /\ file_path d = file_parentPath e /\
    lastIdx (take (S j) s) (file_parentPath e) = Some i.
Proof.
  unfold parentAt. destruct (s !! j) as [e|] eqn:Ej; [|done].
  destruct (isRootParent _) eqn:Er; [done|].
  destruct (lastIdx _ _) as [k|] eqn:E; [|done].
  unfold isDirAt. destruct (s !! k) as [d|] eqn:Ek; [|done].
  destruct (file_type d) eqn:Et; [done|]. intros [= <-].
  exists e, d. repeat split; try done.
  - apply lastIdx_lt in E. rewrite length_take in E. lia.
  - destruct (lastIdx_Some _ _ _ E) as (d' & Hd' & Hp).
    rewrite lookup_take_lt in Hd'.
    + congruence.
    + apply lastIdx_lt in E. rewrite length_take in E. lia.
Qed.

Lemma parentAt_lt s j i : parentAt s j = Some i -> i <= j /\ j < length s.
Proof.
  intros H. destruct (parentAt_Some _ _ _ H) as (e & d & He & _ & Hle & _).
  split; [done|]. by eapply lookup_lt_Some.
Qed.

Lemma filter_ext_elem {A} (P Q : A -> Prop)
    `{!forall x, Decision (P x)} `{!forall x, Decision (Q x)} (l : list A) :
  (forall x, x ∈ l -> P x <-> Q x) -> filter P l = filter Q l.
Proof.
  induction l as [|x l IH]; intros Hext; [done|].
  rewrite !filter_cons.
  assert (HPQ : P x <-> Q x) by (apply Hext; left).
  rewrite IH by (intros y Hy; apply Hext; by right).
  destruct (decide (P x)), (decide (Q x)); tauto.
Qed.

Lemma kidsAt_snoc s f i :
  kidsAt (s ++ [f]) i =
  kidsAt s i ++
    (if decide (parentAt (s ++ [f]) (length s) = Some i) then [length s] else []).
Proof.
  unfold kidsAt. rewrite length_app. simpl.
  replace (length s + 1) with (S (length s)) by lia.
  rewrite seq_S, filter_app. simpl. f_equal.
  apply filter_ext_elem. intros j Hj. apply elem_of_seq in Hj.
  rewrite parentAt_app by lia. done.
Qed.

Lemma elem_of_kidsAt s i j : j ∈ kidsAt s i <-> parentAt s j = Some i.
Proof.
  unfold kidsAt. rewrite list_elem_of_filter, elem_of_seq. split; [tauto|].
  intros H. split; [done|]. apply parentAt_lt in H. lia.
Qed.

Lemma kidsAt_ge s i : length s <= i -> kidsAt s i = [].
Proof.
  intros Hi. destruct (kidsAt s i) as [|j l] eqn:E; [done|].
  assert (Hj : j ∈ kidsAt s i) by (rewrite E; left).
  apply elem_of_kidsAt, parentAt_lt in Hj. lia.
Qed.

Lemma isRootAt_app s t j : j < length s -> isRootAt (s ++ t) j = isRootAt s j.
Proof. intros H. unfold isRootAt. by rewrite lookup_app_l. Qed.

Lemma rootsOf_snoc s f :
  rootsOf (s ++ [f]) =
  rootsOf s ++ (if isRootParent (file_parentPath f) then [length s] else []).
Proof.
  unfold rootsOf. rewrite length_app. simpl.
  replace (length s + 1) with (S (length s)) by lia.
  rewrite seq_S, filter_app. simpl. f_equal.
  - apply filter_ext_elem. intros j Hj. apply elem_of_seq in Hj.
    rewrite isRootAt_app by lia. done.
  - rewrite filter_cons, filter_nil. unfold isRootAt.
    rewrite lookup_app_r, Nat.sub_diag by lia. simpl.
    destruct (isRootParent (file_parentPath f)); by case_decide.
Qed.

Lemma elem_of_rootsOf s j : j ∈ rootsOf s <-> isRootAt s j = true.
Proof.
  unfold rootsOf. rewrite list_elem_of_filter, elem_of_seq. split; [tauto|].
  intros H. split; [done|]. unfold isRootAt in H.
  destruct (s !! j) eqn:E; [|done]. apply lookup_lt_Some in E. lia.
Qed.

Lemma parentAt_last s f :
  parentAt (s ++ [f]) (length s) =
  if isRootParent (file_parentPath f) then None
  else match lastIdx (s ++ [f]) (file_parentPath f) with
       | Some k => if isDirAt (s ++ [f]) k then Some k else None
       | None => None
       end.
Proof.
  unfold parentAt. rewrite lookup_app_r, Nat.sub_diag by lia. simpl.
  rewrite take_ge; [done|]. rewrite length_app. simpl. lia.
Qed.

Lemma objAt_children s i g :
  obj_children (objAt s i g) =
  match file_type g with dir => Some (kidsAt s i) | file => None end.
Proof. unfold objAt, newNode. by destruct (file_type g). Qed.

Lemma objAt_snoc s f i g :
  (s ++ [f]) !! i = Some g ->
  objAt (s ++ [f]) i g =
  if decide (parentAt (s ++ [f]) (length s) = Some i)
  then withChildren (objAt s i g) (kidsAt s i ++ [length s])
  else objAt s i g.
Proof.
  intros Hg. unfold objAt. rewrite kidsAt_snoc.
  destruct (decide (parentAt (s ++ [f]) (length s) = Some i)) as [Hp|Hp].
  - destruct (parentAt_Some _ _ _ Hp) as (e & d & _ & Hd & _ & _ & Hdir & _).
    assert (d = g) as -> by congruence. by rewrite Hdir.
  - by rewrite app_nil_r.
Qed.

Lemma visit_inv s st f : Inv s st -> Inv (s ++ [f]) (visit st f).
Proof.
  intros [HL HH HP HT].
  assert (Hpm : forall p,
    <[file_path f := length (heap st)]> (pathMap st) !! p = lastIdx (s ++ [f]) p).
  { intros p. rewrite lookup_insert, lastIdx_snoc, HL, HP.
    by destruct (decide (file_path f = p)). }
  assert (HB : forall i g, (s ++ [f]) !! i = Some g ->
    (heap st ++ [newNode f]) !! i = Some (objAt s i g)).
  { intros i g Hg. destruct (decide (i < length s)) as [Hi|Hi].
    - rewrite lookup_app_l in Hg by done. rewrite lookup_app_l by lia. by apply HH.
    - assert (i = length s) as ->.
      { apply lookup_lt_Some in Hg. rewrite length_app in Hg. simpl in Hg. lia. }
      rewrite lookup_app_r, Nat.sub_diag in Hg by lia. injection Hg as <-.
      rewrite lookup_app_r, HL, Nat.sub_diag by lia. simpl. f_equal.
      unfold objAt. rewrite kidsAt_ge by lia.
      unfold withChildren, newNode. simpl. by destruct (file_type f). }
  assert (Hlen : length (heap st ++ [newNode f]) = length (s ++ [f])).
  { rewrite !length_app, HL. done. }
  pose proof (parentAt_last s f) as Htgt.
  pose proof (rootsOf_snoc s f) as Hroots.
  unfold visit.
  destruct (isRootParent (file_parentPath f)) eqn:Er.
  { split; simpl; try done.
    - intros i g Hg. rewrite (HB i g Hg), (objAt_snoc _ _ _ _ Hg), Htgt.
      by rewrite decide_False.
    - by rewrite Hroots, HT, HL. }
  rewrite Hpm. rewrite app_nil_r in Hroots.
  destruct (lastIdx (s ++ [f]) (file_parentPath f)) as [p|] eqn:Elast.
  2:{ split; simpl; try done; [|by rewrite Hroots, HT].
      intros i g Hg. rewrite (HB i g Hg), (objAt_snoc _ _ _ _ Hg), Htgt.
      by rewrite decide_False. }
  assert (Hp : p < length (s ++ [f])) by (by eapply lastIdx_lt).
  destruct (lookup_lt_is_Some_2 (s ++ [f]) p Hp) as [d Hd].
  rewrite (HB p d Hd), objAt_children.
  unfold isDirAt in Htgt. rewrite Hd in Htgt.
  destruct (file_type d) eqn:Et.
  { split; simpl; try done; [|by rewrite Hroots, HT].
    intros i g Hg. rewrite (HB i g Hg), (objAt_snoc _ _ _ _ Hg), Htgt.
    by rewrite decide_False. }
  split; simpl.
  - by rewrite length_insert.
  - intros i g Hg. rewrite (objAt_snoc _ _ _ _ Hg), Htgt.
    destruct (decide (Some p = Some i)) as [[= <-]|Hne].
    + rewrite list_lookup_insert_eq by lia.
      assert (g = d) as -> by congruence. by rewrite HL.
    + rewrite list_lookup_insert_ne by congruence. by apply HB.
  - done.
  - by rewrite Hroots, HT.
Qed.

Lemma run_snoc s f : run (s ++ [f]) = visit (run s) f.
Proof. unfold run. by rewrite fold_left_app. Qed.

(** The loop reaches exactly the state described by [parentAt]. *)
Lemma run_inv s : Inv s (run s).
Proof.
  induction s as [|f s IH] using rev_ind.
  - by split.
  - rewrite run_snoc. by apply visit_inv.
Qed.

Lemma Forall2_elem_l {A B} (P : A -> B -> Prop) l k x :
  Forall2 P l k -> x ∈ l -> exists y, y ∈ k /\ P x y.
Proof.
  induction 1 as [|x' y' l k HP _ IH]; intros Hx.
  - by apply elem_of_nil in Hx.
  - apply elem_of_cons in Hx as [->|Hx].
    + exists y'. split; [left|done].
    + destruct (IH Hx) as (y & Hy & HPy). exists y. split; [by right|done].
Qed.

Lemma Forall2_elem_r {A B} (P : A -> B -> Prop) l k y :
  Forall2 P l k -> y ∈ k -> exists x, x ∈ l /\ P x y.
Proof.
  induction 1 as [|x' y' l k HP _ IH]; intros Hy.
  - by apply elem_of_nil in Hy.
  - apply elem_of_cons in Hy as [->|Hy].
    + exists x'. split; [left|done].
    + destruct (IH Hy) as (x & Hx & HPx). exists x. split; [by right|done].
Qed.

Lemma elem_of_concat_map {A B} (f : A -> list B) l x :
  x ∈ concat (map f l) <-> exists y, y ∈ l /\ x ∈ f y.
Proof.
  induction l as [|a l IH]; simpl.
  - split; [intros H; by apply elem_of_nil in H|].
    intros (y & Hy & _). by apply elem_of_nil in Hy.
  - rewrite elem_of_app, IH. split.
    + intros [H|(y & Hy & Hx)]; [exists a; split; [left|done]|].
      exists y. split; [by right|done].
    + intros (y & Hy & Hx). apply elem_of_cons in Hy as [->|Hy]; [by left|].
      right. by exists y.
Qed.

Section Unfold.
Variable s : list GitHubFile.

Lemma heap_lookup a o :
  heap (run s) !! a = Some o -> exists f, s !! a = Some f /\ o = objAt s a f.
Proof.
  intros H. destruct (run_inv s) as [HL HH _ _].
  assert (a < length s) by (rewrite <- HL; by eapply lookup_lt_Some).
  destruct (lookup_lt_is_Some_2 s a) as [f Hf]; [done|].
  exists f. split; [done|]. rewrite (HH _ _ Hf) in H. congruence.
Qed.

Lemma unfold_inv fuel a t :
  unfold fuel (heap (run s)) a = Some t ->
  exists f kids, s !! a = Some f /\ t = ONode a (objAt s a f) kids /\
    match file_type f with
    | dir => exists ts, kids = Some ts /\
        Forall2 (fun j tj => unfold (pred fuel) (heap (run s)) j = Some tj)
                (kidsAt s a) ts
    | file => kids = None
    end.
Proof.
  destruct fuel as [|fuel]; [done|]. simpl.
  destruct (heap (run s) !! a) as [o|] eqn:E; [|done].
  destruct (heap_lookup _ _ E) as (f & Hf & ->).
  rewrite objAt_children. destruct (file_type f) eqn:Et.
  - intros [= <-]. exists f, None. by rewrite Et.
  - destruct (mapM _ _) as [ts|] eqn:Em; [|done]. intros [= <-].
    exists f, (Some ts). rewrite Et. repeat split; try done.
    exists ts. split; [done|]. by apply mapM_Some_1.
Qed.

Lemma unfold_rootAddr fuel a t :
  unfold fuel (heap (run s)) a = Some t -> rootAddr t = a.
Proof. intros H. by destruct (unfold_inv _ _ _ H) as (f & kids & _ & -> & _). Qed.

(** Unfolding never runs out of fuel below a node that is not its own
    parent: references only point forward. *)
Lemma unfold_total fuel a :
  a < length s -> parentAt s a <> Some a -> length s - a < fuel ->
  is_Some (unfold fuel (heap (run s)) a).
Proof.
  revert a. induction fuel as [|fuel IH]; intros a Ha Hself Hfuel; [lia|].
  simpl. destruct (run_inv s) as [_ HH _ _].
  destruct (lookup_lt_is_Some_2 s a Ha) as [f Hf].
  rewrite (HH _ _ Hf), objAt_children.
  destruct (file_type f); [eauto|].
  assert (Hm : is_Some (mapM (unfold fuel (heap (run s))) (kidsAt s a))).
  { apply mapM_is_Some_2, Forall_forall. intros j Hj.
    apply elem_of_kidsAt in Hj. pose proof (parentAt_lt _ _ _ Hj) as [Hle Hlt].
    assert (j <> a) by congruence.
    apply IH; [done| |lia]. rewrite Hj. intros [=]. lia. }
  destruct Hm as [ts ->]. eauto.
Qed.

(** Whatever is reached below [a] is [a] or was pushed to another node. *)
Lemma unfold_addrs_parent fuel a t a' :
  unfold fuel (heap (run s)) a = Some t -> a' ∈ addrs t ->
  a' = a \/ exists i, i <> a' /\ parentAt s a' = Some i.
Proof.
  revert a t. induction fuel as [|fuel IH]; intros a t Ht Ha'; [done|].
  destruct (unfold_inv _ _ _ Ht) as (f & kids & Hf & -> & Hk).
  simpl in Ha'. apply elem_of_cons in Ha' as [->|Ha']; [by left|].
  destruct (decide (a' = a)) as [->|Hne]; [by left|]. right.
  destruct (file_type f).
  { subst kids. by apply elem_of_nil in Ha'. }
  destruct Hk as (ts & -> & HF). simpl in HF.
  apply elem_of_concat_map in Ha' as (tj & Htj & Ha').
  destruct (Forall2_elem_r _ _ _ _ HF Htj) as (j & Hj & Huj).
  destruct (IH _ _ Huj Ha') as [->|?]; [|done].
  exists a. split; [done|]. by apply elem_of_kidsAt.
Qed.

(** The reached nodes are closed under [parentAt]. *)
Lemma unfold_closed fuel a t i j :
  unfold fuel (heap (run s)) a = Some t -> i ∈ addrs t ->
  parentAt s j = Some i -> j ∈ addrs t.
Proof.
  revert a t. induction fuel as [|fuel IH]; intros a t Ht Hi Hp; [done|].
  destruct (unfold_inv _ _ _ Ht) as (f & kids & Hf & -> & Hk).
  simpl in *. apply elem_of_cons in Hi as [->|Hi].
  - destruct (parentAt_Some _ _ _ Hp) as (e & d & _ & Hd & _ & _ & Hdir & _).
    assert (d = f) as -> by congruence. rewrite Hdir in Hk.
    destruct Hk as (ts & -> & HF). right.
    apply elem_of_kidsAt in Hp.
    destruct (Forall2_elem_l _ _ _ _ HF Hp) as (tj & Htj & Huj).
    apply elem_of_concat_map. exists tj. split; [done|].
    apply unfold_rootAddr in Huj. destruct tj; simpl in *. subst. left.
  - right. destruct (file_type f).
    { subst kids. by apply elem_of_nil in Hi. }
    destruct Hk as (ts & -> & HF).
    apply elem_of_concat_map in Hi as (tj & Htj & Hi).
    destruct (Forall2_elem_r _ _ _ _ HF Htj) as (j' & Hj' & Huj).
    apply elem_of_concat_map. exists tj. split; [done|]. by eapply IH.
Qed.

Lemma unfold_addrs_lt fuel a t a' :
  unfold fuel (heap (run s)) a = Some t -> a' ∈ addrs t -> a' < length s.
Proof.
  intros Ht Ha'. destruct (unfold_addrs_parent _ _ _ _ Ht Ha') as [->|(i & _ & Hp)].
  - destruct (unfold_inv _ _ _ Ht) as (f & ? & Hf & _).
    apply (lookup_lt_Some _ _ _ Hf).
  - apply parentAt_lt in Hp. lia.
Qed.

Lemma obj_path_objAt a f : obj_path (objAt s a f) = file_path f.
Proof. unfold objAt. by destruct (file_type f). Qed.

Lemma unfold_flattenPaths fuel a t :
  unfold fuel (heap (run s)) a = Some t ->
  flattenPaths (erase t) = map (pathAt s) (addrs t).
Proof.
  revert a t. induction fuel as [|fuel IH]; intros a t Ht; [done|].
  destruct (unfold_inv _ _ _ Ht) as (f & kids & Hf & -> & Hk).
  simpl. rewrite obj_path_objAt. unfold pathAt at 1. rewrite Hf. f_equal.
  destruct (file_type f); [by subst kids|].
  destruct Hk as (ts & -> & HF). simpl in HF.
  clear Ht. induction HF as [|j tj l ts' Hj HF IHF]; [done|].
  simpl. rewrite map_app. f_equal; [by eapply IH|apply IHF].
Qed.

Lemma represents_erase fuel a t f :
  unfold fuel (heap (run s)) a = Some t -> s !! a = Some f ->
  represents (erase t) f.
Proof.
  intros Ht Hf. destruct (unfold_inv _ _ _ Ht) as (f' & kids & Hf' & -> & _).
  assert (f' = f) as -> by congruence.
  unfold represents, objAt. simpl.
  destruct (file_type f) eqn:Et; repeat split; simpl; congruence.
Qed.

(** Every returned node stands for an entry of the pass, and its
    [children] array lists the entries pushed to that node, in order. *)
Lemma unfold_subnodes fuel a t n :
  unfold fuel (heap (run s)) a = Some t -> n ∈ subnodes (erase t) ->
  exists i f, s !! i = Some f /\ represents n f /\
    match file_type f with
    | dir => exists ns, tn_children n = Some ns /\
        Forall2 (fun k j => exists fj, s !! j = Some fj /\ represents k fj)
                ns (kidsAt s i)
    | file => tn_children n = None
    end.
Proof.
  revert a t n. induction fuel as [|fuel IH]; intros a t n Ht Hn; [done|].
  pose proof (unfold_inv _ _ _ Ht) as (f & kids & Hf & -> & Hk).
  simpl in Hn. apply elem_of_cons in Hn as [->|Hn].
  - exists a, f. split; [done|].
    split; [exact (represents_erase _ _ _ _ Ht Hf)|].
    destruct (file_type f); [by subst kids|].
    destruct Hk as (ts & -> & HF). simpl in *.
    exists (map erase ts). split; [done|].
    apply Forall2_fmap_l, Forall2_flip.
    eapply Forall2_impl; [exact HF|]. intros j tj Hj. simpl.
    destruct (unfold_inv _ _ _ Hj) as (fj & ? & Hfj & _ & _).
    exists fj. split; [done|]. exact (represents_erase _ _ _ _ Hj Hfj).
  - destruct (file_type f).
    { subst kids. by apply elem_of_nil in Hn. }
    destruct Hk as (ts & -> & HF). simpl in *.
    rewrite map_map in Hn.
    apply elem_of_concat_map in Hn as (tj & Htj & Hn).
    destruct (Forall2_elem_r _ _ _ _ HF Htj) as (j' & Hj' & Huj).
    by eapply IH.
Qed.
End Unfold.

Lemma parentAt_root s j : isRootAt s j = true -> parentAt s j = None.
Proof.
  unfold isRootAt, parentAt. destruct (s !! j); [|done]. by intros ->.
Qed.

Section Forest.
Variable cmp : string -> string -> comparison.
Variable files : list GitHubFile.

Abbreviation sorted := (sortFiles cmp files).
Abbreviation st := (run (sortFiles cmp files)).

Lemma sorted_perm : sorted ≡ₚ files.
Proof. apply JSFacts.arraySort_perm. Qed.

(** The loop ends and the returned forest can be read off the heap. *)
Lemma forest_total : exists forest, buildFileTreeObjs cmp files = Some forest.
Proof.
  unfold buildFileTreeObjs; cbv zeta.
  apply (mapM_is_Some_2 (unfold (S (length (heap st))) (heap st))), Forall_forall.
  intros a Ha. destruct (run_inv sorted) as [HL _ _ HT].
  rewrite HT in Ha. apply elem_of_rootsOf in Ha.
  assert (a < length sorted).
  { unfold isRootAt in Ha. destruct (sorted !! a) eqn:E; [|done].
    by eapply lookup_lt_Some. }
  apply unfold_total; [done| |lia].
  by rewrite parentAt_root.
Qed.

Lemma forest_trees forest t :
  buildFileTreeObjs cmp files = Some forest -> t ∈ forest ->
  isRootAt sorted (rootAddr t) = true /\
  unfold (S (length (heap st))) (heap st) (rootAddr t) = Some t.
Proof.
  unfold buildFileTreeObjs; cbv zeta. intros Hm Ht.
  apply mapM_Some_1 in Hm.
  destruct (Forall2_elem_r _ _ _ _ Hm Ht) as (a & Ha & Hu).
  rewrite (unfold_rootAddr _ _ _ _ Hu).
  destruct (run_inv sorted) as [_ _ _ HT].
  rewrite HT in Ha. by apply elem_of_rootsOf in Ha.
Qed.

Lemma forest_roots forest a :
  buildFileTreeObjs cmp files = Some forest -> isRootAt sorted a = true ->
  exists t, t ∈ forest /\ unfold (S (length (heap st))) (heap st) a = Some t.
Proof.
  unfold buildFileTreeObjs; cbv zeta. intros Hm Ha.
  apply mapM_Some_1 in Hm.
  destruct (run_inv sorted) as [_ _ _ HT].
  apply elem_of_rootsOf in Ha. rewrite <- HT in Ha.
  by apply (Forall2_elem_l _ _ _ _ Hm Ha).
Qed.
End Forest.

Lemma StronglySorted_lookup {A} (R : A -> A -> Prop) l i j x y :
  StronglySorted R l -> i < j -> l !! i = Some x -> l !! j = Some y -> R x y.
Proof.
  intros Hs. revert i j. induction Hs as [|a l Hs IH Ha]; intros i j Hij Hi Hj.
  - by rewrite lookup_nil in Hi.
  - destruct j as [|j]; [lia|]. simpl in Hj. destruct i as [|i]; simpl in Hi.
    + injection Hi as ->. rewrite Forall_forall in Ha. apply Ha.
      by eapply list_elem_of_lookup_2.
    + apply (IH i j); [lia|done|done].
Qed.

Lemma Forall2_compose {A B C} (P : A -> B -> Prop) (Q : B -> C -> Prop) l k m :
  Forall2 P l k -> Forall2 Q k m -> Forall2 (fun a c => exists b, P a b /\ Q b c) l m.
Proof.
  intros HP. revert m. induction HP as [|a b l k Hab _ IH]; intros m HQ.
  - inversion HQ. constructor.
  - inversion HQ as [|b' c k' m' Hbc HQ']; subst. constructor; [by exists b|by apply IH].
Qed.

(** Filtering positions and filtering elements agree. *)
Lemma filter_seq_lookup {A} (Q : nat -> Prop) (P : A -> Prop)
    `{!forall j, Decision (Q j)} `{!forall x, Decision (P x)} (l : list A) :
  (forall j x, l !! j = Some x -> Q j <-> P x) ->
  Forall2 (fun j x => l !! j = Some x) (filter Q (seq 0 (length l))) (filter P l).
Proof.
  induction l as [|x l IH] using rev_ind; intros HQP; [constructor|].
  rewrite length_app. simpl. replace (length l + 1) with (S (length l)) by lia.
  rewrite seq_S, !filter_app. simpl. apply Forall2_app.
  - eapply Forall2_impl.
    + apply IH. intros j y Hy. apply HQP. by apply lookup_app_l_Some.
    + intros j y Hy. by apply lookup_app_l_Some.
  - assert (Hx : (l ++ [x]) !! length l = Some x).
    { by rewrite lookup_app_r, Nat.sub_diag by lia. }
    rewrite !filter_cons, !filter_nil. specialize (HQP _ _ Hx).
    destruct (decide (Q (length l))), (decide (P x)); try tauto; by repeat constructor.
Qed.

Section SortedForest.
Variable cmp : string -> string -> comparison.
Hypothesis cmp_opp : forall a b, cmp b a = CompOpp (cmp a b).
Hypothesis cmp_trans : forall a b c, cmp a b <> Gt -> cmp b c <> Gt -> cmp a c <> Gt.

Variable files : list GitHubFile.
Hypothesis Huniq : uniquePaths files.
Hypothesis Hfirst : parentsSortFirst cmp files.

Abbreviation sorted := (sortFiles cmp files).

Lemma sorted_strongly : StronglySorted (ordered (byPath cmp)) sorted.
Proof.
  apply JSFacts.arraySort_sorted.
  - intros a b H. unfold ordered, byPath in *. rewrite cmp_opp, H. done.
  - intros a b c. unfold ordered, byPath. apply cmp_trans.
Qed.

Lemma sorted_uniq : NoDup (map file_path sorted).
Proof. unfold uniquePaths in Huniq. by rewrite (sorted_perm cmp files). Qed.

Lemma sorted_index_path i j d e :
  sorted !! i = Some d -> sorted !! j = Some e -> file_path d = file_path e -> i = j.
Proof.
  intros Hd He Hp. apply (NoDup_lookup (map file_path sorted) i j (file_path d)).
  - apply sorted_uniq.
  - by rewrite list_lookup_fmap, Hd.
  - by rewrite list_lookup_fmap, He, Hp.
Qed.

(** In the sorted pass the parent directory stands before the child. *)
Lemma parent_before j e :
  sorted !! j = Some e -> isRootParent (file_parentPath e) = false ->
  exists i d, i < j /\ sorted !! i = Some d /\ file_type d = dir /\
    file_path d = file_parentPath e.
Proof.
  intros He Hr.
  assert (Hin : e ∈ files).
  { rewrite <- (sorted_perm cmp files). by eapply list_elem_of_lookup_2. }
  destruct (Hfirst e Hin Hr) as (d & Hd & Hdir & Hp & Hlt).
  rewrite <- (sorted_perm cmp files) in Hd.
  apply list_elem_of_lookup_1 in Hd as [i Hi].
  exists i, d. repeat split; try done.
  destruct (decide (i < j)) as [|Hge]; [done|]. exfalso.
  destruct (decide (i = j)) as [->|Hne].
  - assert (d = e) as -> by congruence.
    pose proof (cmp_opp (file_path e) (file_path e)) as Ho.
    rewrite Hlt in Ho. done.
  - assert (Hji : j < i) by lia.
    pose proof (StronglySorted_lookup _ _ _ _ _ _ sorted_strongly Hji He Hi) as Ho.
    unfold ordered, byPath in Ho. rewrite cmp_opp, Hlt in Ho. done.
Qed.

Lemma parentAt_iff i j d e :
  sorted !! i = Some d -> sorted !! j = Some e ->
  parentAt sorted j = Some i <->
  isRootParent (file_parentPath e) = false /\ file_parentPath e = file_path d.
Proof.
  intros Hd He. split.
  - intros Hp.
    destruct (parentAt_Some _ _ _ Hp) as (e' & d' & He' & Hd' & _ & Hr & _ & Hpath & _).
    split; congruence.
  - intros [Hr Hpath].
    destruct (parent_before _ _ He Hr) as (i' & d' & Hlt & Hd' & Hdir & Hp').
    assert (i' = i) as -> by (eapply sorted_index_path; [done|done|congruence]).
    assert (d' = d) as -> by congruence.
    unfold parentAt. rewrite He, Hr.
    rewrite (lastIdx_unique _ _ i d).
    + unfold isDirAt. by rewrite Hd, Hdir.
    + change (NoDup (file_path <$> take (S j) sorted)).
      rewrite fmap_take.
      apply (sublist_NoDup _ _ sorted_uniq), sublist_take.
    + rewrite lookup_take_lt by lia. done.
    + done.
Qed.

Lemma kids_entries i d :
  sorted !! i = Some d ->
  Forall2 (fun j e => sorted !! j = Some e)
          (kidsAt sorted i) (childEntries sorted (file_path d)).
Proof.
  intros Hd. unfold kidsAt, childEntries. apply filter_seq_lookup.
  intros j e He. rewrite (parentAt_iff _ _ _ _ Hd He). done.
Qed.

Variable forest : list ObjTree.
Hypothesis Hforest : buildFileTreeObjs cmp files = Some forest.

(** Every entry of the pass is reached from the returned roots. *)
Lemma all_reached j : j < length sorted -> j ∈ concat (map addrs forest).
Proof.
  induction j as [j IH] using lt_wf_ind. intros Hj.
  destruct (lookup_lt_is_Some_2 _ _ Hj) as [e He].
  destruct (isRootParent (file_parentPath e)) eqn:Hr.
  - assert (Ha : isRootAt sorted j = true) by (unfold isRootAt; by rewrite He).
    destruct (forest_roots _ _ _ _ Hforest Ha) as (t & Ht & Hu).
    apply elem_of_concat_map. exists t. split; [done|].
    apply unfold_rootAddr in Hu. destruct t; simpl in *. subst. left.
  - destruct (parent_before _ _ He Hr) as (i & d & Hlt & Hd & Hdir & Hp).
    assert (Hi : i ∈ concat (map addrs forest)) by (apply IH; lia).
    apply elem_of_concat_map in Hi as (t & Ht & Hi).
    apply elem_of_concat_map. exists t. split; [done|].
    destruct (forest_trees _ _ _ _ Hforest Ht) as [_ Hu].
    eapply unfold_closed; [exact Hu|exact Hi|].
    apply (parentAt_iff _ _ _ _ Hd He). split; [done|congruence].
Qed.

Lemma forest_samePathSet : samePathSet (map erase forest) files.
Proof.
  intros p. rewrite map_map, elem_of_concat_map. split.
  - intros (t & Ht & Hp).
    destruct (forest_trees _ _ _ _ Hforest Ht) as [_ Hu].
    rewrite (unfold_flattenPaths _ _ _ _ Hu) in Hp.
    apply list_elem_of_fmap in Hp as (a & -> & Ha).
    pose proof (unfold_addrs_lt _ _ _ _ _ Hu Ha) as Hlt.
    destruct (lookup_lt_is_Some_2 _ _ Hlt) as [f Hf].
    unfold pathAt. rewrite Hf. apply list_elem_of_fmap. exists f. split; [done|].
    rewrite <- (sorted_perm cmp files). by eapply list_elem_of_lookup_2.
  - intros Hp. apply list_elem_of_fmap in Hp as (f & -> & Hf).
    rewrite <- (sorted_perm cmp files) in Hf.
    apply list_elem_of_lookup_1 in Hf as [j Hj].
    pose proof (all_reached j (lookup_lt_Some _ _ _ Hj)) as Hin.
    apply elem_of_concat_map in Hin as (t & Ht & Hin).
    exists t. split; [done|].
    destruct (forest_trees _ _ _ _ Hforest Ht) as [_ Hu].
    rewrite (unfold_flattenPaths _ _ _ _ Hu).
    apply list_elem_of_fmap. exists j. split; [|done].
    unfold pathAt. by rewrite Hj.
Qed.

Lemma forest_childrenMatch : childrenMatch (map erase forest) sorted.
Proof.
  intros n Hn Hdir. rewrite map_map in Hn.
  apply elem_of_concat_map in Hn as (t & Ht & Hn).
  destruct (forest_trees _ _ _ _ Hforest Ht) as [_ Hu].
  destruct (unfold_subnodes _ _ _ _ _ Hu Hn) as (i & f & Hf & Hrep & Hk).
  assert (Hty : file_type f = dir).
  { destruct Hrep as (_ & _ & <- & _). done. }
  assert (Hpa : tn_path n = file_path f).
  { by destruct Hrep as (_ & -> & _). }
  rewrite Hty in Hk. destruct Hk as (ns & Hns & HF).
  exists ns. split; [done|]. rewrite Hpa.
  pose proof (Forall2_compose _ _ _ _ _ HF (kids_entries _ _ Hf)) as HC.
  eapply Forall2_impl; [exact HC|].
  intros k e (j & (fj & Hfj & Hr) & He). simpl in He.
  assert (fj = e) as -> by congruence. done.
Qed.
End SortedForest.


(** The example collation is a consistent comparison. *)
Lemma codeUnitOrder_laws : @CollationLaws codeUnitOrder.
Proof.
  split; unfold localeCompare, codeUnitOrder.
  - intros a b.
    destruct (String_as_OT.compare_spec a b) as [Hab|Hab|Hab],
             (String_as_OT.compare_spec b a) as [Hba|Hba|Hba]; simpl; try done.
    all: exfalso; unfold String_as_OT.eq in *; subst.
    all: destruct String_as_OT.lt_strorder as [Hirr Htr].
    all: eapply Hirr; (idtac + eapply Htr); eassumption.
  - intros a b c.
    destruct (String_as_OT.compare_spec a b) as [Hab|Hab|Hab],
             (String_as_OT.compare_spec b c) as [Hbc|Hbc|Hbc],
             (String_as_OT.compare_spec a c) as [Hac|Hac|Hac]; try done.
    all: intros _ _ _; unfold String_as_OT.eq in *; subst.
    all: destruct String_as_OT.lt_strorder as [Hirr Htr].
    all: eapply Hirr; (idtac + eapply Htr); (idtac + eapply Htr); eassumption.
Defined.

(** In the example collation a strict prefix sorts before every string it
    prefixes, and no two different strings tie. *)
Lemma prefix_codeUnitOrder a b :
  a <> b -> String.prefix a b = true -> @localeCompare codeUnitOrder a b = Lt.
Proof.
  unfold localeCompare, codeUnitOrder. revert b.
  induction a as [|c a IH]; intros [|c' b] Hne; simpl; try done.
  destruct (ascii_dec c c') as [<-|]; [|done]. intros Hp.
  destruct (Ascii_as_OT.compare_spec c c) as [_|Hlt|Hlt].
  - apply IH; [congruence|done].
  - exfalso. destruct Ascii_as_OT.lt_strorder as [Hirr _]. by eapply Hirr.
  - exfalso. destruct Ascii_as_OT.lt_strorder as [Hirr _]. by eapply Hirr.
Defined.

Lemma codeUnitOrder_eq a b : @localeCompare codeUnitOrder a b = Eq -> a = b.
Proof.
  unfold localeCompare, codeUnitOrder. by destruct (String_as_OT.compare_spec a b).
Defined.

(** Where the collation puts every strict prefix first, the parent-prefix
    invariant of the design makes the directories sort first. *)
Lemma parentPrefix_sortFirst `{Collation} files :
  (forall a b, a <> b -> String.prefix a b = true -> localeCompare a b = Lt) ->
  parentPrefix files -> parentsSortFirst localeCompare files.
Proof.
  intros Hpre H' e He Hr. destruct (H' e He Hr) as (Hne & Hp' & d & Hd & Hdir & Hp).
  exists d. repeat split; try done. rewrite Hp. by apply Hpre.
Defined.

(** C1, as amended. For a list with unique paths in which every entry that
    is not a root item names as parent a directory of the list whose path
    [localeCompare] orders strictly before its own path, the returned forest
    flattens to the path set of the input, and the [children] array of every
    directory node lists, in the order of the sort, the entries whose
    [parentPath] is the path of that node (entries whose [parentPath] is
    [""] or ["/"] are roots). The collation is any consistent comparison. *)
Theorem buildFileTree_reconstructs `{CollationLaws} files :
  uniquePaths files -> parentsSortFirst localeCompare files ->
  exists forest,
    buildFileTree files = Some forest /\
    samePathSet forest files /\
    childrenMatch forest (sortFiles localeCompare files).
Proof.
  intros Hu Hp.
  destruct (forest_total localeCompare files) as [forest Hf].
  exists (map erase forest). split.
  { unfold buildFileTree, buildFileTreeWith. by rewrite Hf. }
  split.
  - eapply forest_samePathSet; eauto using collation_opp, collation_trans.
  - eapply forest_childrenMatch; eauto using collation_opp, collation_trans.
Qed.

Lemma scenarioTree_uniquePaths : uniquePaths scenarioTree.
Proof. unfold uniquePaths. by apply (bool_decide_unpack _). Defined.

Lemma scenarioTree_parentPrefix : parentPrefix scenarioTree.
Proof.
  intros e He Hr. unfold scenarioTree in He.
  repeat (apply elem_of_cons in He as [->|He]);
    [..|by apply elem_of_nil in He]; try discriminate Hr.
  all: split; [discriminate|]; split; [reflexivity|].
  - exists (entry "src/utils" "utils" dir "src"). split; [|done].
    unfold scenarioTree. do 2 right. left.
  - exists (entry "src" "src" dir ""). split; [|done].
    unfold scenarioTree. do 3 right. left.
  - exists (entry "src" "src" dir ""). split; [|done].
    unfold scenarioTree. do 3 right. left.
Defined.

Lemma buildFileTree_reconstructs_witness :
  exists forest,
    @buildFileTree codeUnitOrder scenarioTree = Some forest /\
    samePathSet forest scenarioTree /\
    childrenMatch forest (sortFiles codeUnitOrder scenarioTree).
Proof.
  apply (@buildFileTree_reconstructs codeUnitOrder codeUnitOrder_laws scenarioTree).
  - exact scenarioTree_uniquePaths.
  - apply (@parentPrefix_sortFirst codeUnitOrder).
    + exact prefix_codeUnitOrder.
    + exact scenarioTree_parentPrefix.
Defined.

(** The scenario of the design, on the example host: [src] is the only
    root, with the two children [a.ts] and [utils], the latter holding
    [b.ts]. *)
Example buildFileTree_scenario :
  (fun forest => map (fun n => (tn_path n, (fun k => map tn_path k) <$> tn_children n))
                     (concat (map subnodes forest)))
    <$> @buildFileTree codeUnitOrder scenarioTree
  = Some [ ("src", Some ["src/a.ts"; "src/utils"]);
           ("src/a.ts", None);
           ("src/utils", Some ["src/utils/b.ts"]);
           ("src/utils/b.ts", None) ].
Proof. reflexivity. Qed.

(** C1 as stated fails: paths are unique and the only non-empty
    [parentPath] is the path of the one directory, but on every host whose
    collation puts ["b"] before ["z"] that directory sorts after its child,
    which is lost. The example host is one of them. *)
Lemma buildFileTree_late_parent_lost :
  uniquePaths lateParent /\ parentsPresent lateParent /\
  @localeCompare codeUnitOrder "b" "z" = Lt /\
  forall host : Collation, @localeCompare host "b" "z" = Lt ->
    exists forest, @buildFileTree host lateParent = Some forest /\
      concat (map flattenPaths forest) = ["z"] /\
      ~ samePathSet forest lateParent.
Proof.
  split; [by apply (bool_decide_unpack _)|]. split; [|split; [reflexivity|]].
  - intros e He Hne. unfold lateParent in He.
    repeat (apply elem_of_cons in He as [->|He]); [..|by apply elem_of_nil in He].
    + exists (entry "z" "z" dir ""). split; [|done]. unfold lateParent. right. left.
    + done.
  - intros host Hbz.
    assert (Hsort : sortFiles host lateParent = lateParent).
    { unfold sortFiles, arraySort, lateParent, byPath. simpl.
      change (host "b" "z") with (@localeCompare host "b" "z"). by rewrite Hbz. }
    assert (Hrun : @buildFileTree host lateParent = @buildFileTree codeUnitOrder lateParent).
    { unfold buildFileTree, buildFileTreeWith, buildFileTreeObjs, localeCompare.
      rewrite Hsort. reflexivity. }
    rewrite Hrun. eexists. split; [reflexivity|]. split; [reflexivity|]. intros Hs.
    assert (Hb : "b" ∈ map file_path lateParent) by (simpl; left).
    apply Hs in Hb. simpl in Hb.
    apply elem_of_cons in Hb as [Hb|Hb]; [discriminate|by apply elem_of_nil in Hb].
Qed.


End GithubDbFacts.

(** ** The issue sync orchestrator *)

Module IssuesSyncFacts.
Import JS JSFacts GithubDb Runtime Types Integrations IssuesSync.

Lemma Qltb_inject q r (a b : Z) :
  q == inject_Z a -> r == inject_Z b -> Qltb q r = (a <? b)%Z.
Proof.
  intros Hq Hr. unfold Qltb. rewrite Hq, Hr.
  destruct (Qle_bool (inject_Z b) (inject_Z a)) eqn:E.
  - apply Qle_bool_iff in E. rewrite <- Zle_Qle in E. simpl.
    symmetry. apply Z.ltb_ge. done.
  - simpl. symmetry. apply Z.ltb_lt.
    destruct (Z.lt_ge_cases a b) as [|Hge]; [done|].
    rewrite Zle_Qle in Hge. apply Qle_bool_iff in Hge. congruence.
Qed.

Lemma truncate_inject q (a : Z) : q == inject_Z a -> truncate q = a.
Proof.
  intros Hq. unfold truncate.
  destruct (Qle_bool 0 q).
  - rewrite Hq. apply Qfloor_Z.
  - rewrite Hq. apply Qceiling_Z.
Qed.

Lemma ofLength_inject {A} (l : list A) : ofLength l == inject_Z (Z.of_nat (length l)).
Proof. reflexivity. Qed.

Lemma mathMin_inject q (m : Z) :
  q == inject_Z m -> (m <= 100)%Z -> mathMin 100 q == inject_Z m.
Proof.
  intros Hq Hm. unfold mathMin. destruct (Qle_bool 100 q) eqn:E; [|done].
  apply Qle_bool_iff in E. rewrite Hq in E.
  change (100 : Q) with (inject_Z 100) in *. rewrite <- Zle_Qle in E.
  assert (m = 100%Z) as -> by lia. reflexivity.
Qed.

Section Loop.
Variable octokit : Octokit.
Variables owner repo : option string.
Variable state : IssueState.

Abbreviation request := (ListForRepo (listParams owner repo (stateFilter state))).
Abbreviation page_of w := (nextPage octokit owner repo (stateFilter state) w).

Lemma getIssues_run w :
  getIssues octokit owner repo (stateFilter state) w =
  match issues_listForRepo octokit (length (requests w))
          (listParams owner repo (stateFilter state)) with
  | Data d => (Returned (map toIssue d), requested request w)
  | Failure _ => (Thrown (mkError "Failed to fetch issues" None), requested request w)
  end.
Proof.
  unfold getIssues, tryCatch, bind, call, ret, throw.
  by destruct (issues_listForRepo _ _ _).
Qed.

(** One iteration, in closed form. *)
Lemma iteration_run maxIssues perPage issues page w :
  iteration octokit owner repo state maxIssues perPage issues page w =
  let pg := page_of w in
  let issues' := issues ++ slice0 pg (truncate (maxIssues - ofLength issues)) in
  if Nat.eqb (length pg) 0 then (Returned (Break issues), requested request w)
  else (Returned (if Qltb (ofLength pg) perPage then Break issues' else Continue issues'),
        shown page (length issues') (requested request w)).
Proof.
  unfold iteration, tryCatch at 1, bind at 1. rewrite getIssues_run. unfold nextPage.
  destruct (issues_listForRepo _ _ _) as [d|e]; [|done].
  cbv zeta. destruct (Nat.eqb (length (map toIssue d)) 0); [done|].
  unfold bind, setProgress, updateProgress, modify, ret.
  by destruct (Qltb _ perPage).
Qed.

Lemma paginate_unfold fuel maxIssues perPage issues page :
  paginate octokit fuel owner repo state maxIssues perPage issues page =
  if Qltb (ofLength issues) maxIssues then
    match fuel with
    | O => diverge
    | S fuel' =>
        bind (iteration octokit owner repo state maxIssues perPage issues page)
          (fun step =>
             match step with
             | Break issues' => ret issues'
             | Continue issues' =>
                 paginate octokit fuel' owner repo state maxIssues perPage issues' (page + 1)
             end)
    end
  else ret issues.
Proof. by destruct fuel. Qed.

(** With a whole budget of at most a hundred the loop makes one request
    and keeps the head of the answer. *)
Lemma fetch_one_page fuel q (m : Z) w :
  q == inject_Z m -> (1 <= m <= 100)%Z ->
  exists w',
    fetchIssuesWithPagination octokit (S fuel) owner repo state q w =
      (Returned (take (Z.to_nat m) (page_of w)), w') /\
    store w' = store w /\ now w' = now w /\ syncEvents w' = syncEvents w /\
    requests w' = requests w ++ [request].
Proof.
  intros Hq Hm. unfold fetchIssuesWithPagination.
  rewrite paginate_unfold.
  rewrite (Qltb_inject _ _ 0 m) by (done || reflexivity).
  rewrite (proj2 (Z.ltb_lt 0 m)) by lia.
  unfold bind. rewrite iteration_run. cbv zeta.
  assert (Hrem : q - ofLength (@nil GitHubIssue) == inject_Z m).
  { rewrite Hq. unfold ofLength. simpl. ring. }
  rewrite (truncate_inject _ _ Hrem), slice0_nonneg by lia. simpl app.
  destruct (Nat.eqb (length (page_of w)) 0) eqn:E0.
  { apply Nat.eqb_eq, nil_length_inv in E0. rewrite E0, take_nil.
    eexists. split; [reflexivity|]. done. }
  rewrite (Qltb_inject _ _ (Z.of_nat (length (page_of w))) m)
    by (reflexivity || by apply mathMin_inject; [|lia]).
  destruct (Z.of_nat (length (page_of w)) <? m)%Z eqn:Elt.
  { eexists. split; [reflexivity|]. done. }
  rewrite paginate_unfold.
  rewrite (Qltb_inject _ _ (Z.of_nat (length (take (Z.to_nat m) (page_of w)))) m)
    by (reflexivity || done).
  apply Z.ltb_ge in Elt.
  rewrite (proj2 (Z.ltb_ge _ m)) by (rewrite length_take; lia).
  eexists. split; [reflexivity|]. done.
Qed.
(** With a whole budget the loop ends: [fuel] iterations are enough as
    soon as [fuel] pages cover what is still missing, and it then makes
    at most [fuel] requests. *)
Lemma paginate_whole_budget fuel q perPage (m p : Z) issues page w :
  q == inject_Z m -> perPage == inject_Z p -> (1 <= p)%Z ->
  (m - Z.of_nat (length issues) <= Z.of_nat fuel * p)%Z ->
  exists result w',
    paginate octokit fuel owner repo state q perPage issues page w =
      (Returned result, w') /\
    length (requests w') <= length (requests w) + fuel.
Proof.
  intros Hq Hp Hp1. revert issues page w.
  induction fuel as [|fuel IH]; intros issues page w Hcover.
  - rewrite paginate_unfold.
    rewrite (Qltb_inject _ _ (Z.of_nat (length issues)) m) by (reflexivity || done).
    rewrite (proj2 (Z.ltb_ge _ _)) by lia.
    eexists _, _. split; [reflexivity|]. lia.
  - rewrite paginate_unfold.
    rewrite (Qltb_inject _ _ (Z.of_nat (length issues)) m) by (reflexivity || done).
    destruct (Z.of_nat (length issues) <? m)%Z eqn:Elt.
    2:{ eexists _, _. split; [reflexivity|]. lia. }
    apply Z.ltb_lt in Elt.
    unfold bind. rewrite iteration_run. cbv zeta.
    assert (Hreq : length (requests (requested request w)) = S (length (requests w))).
    { unfold requested. simpl. rewrite length_app. simpl. lia. }
    destruct (Nat.eqb (length (page_of w)) 0) eqn:E0.
    { eexists _, _. split; [reflexivity|]. lia. }
    apply Nat.eqb_neq in E0.
    assert (Hrem : q - ofLength issues == inject_Z (m - Z.of_nat (length issues))).
    { rewrite Hq. unfold ofLength, Z.sub, Qminus.
      by rewrite inject_Z_plus, inject_Z_opp. }
    rewrite (truncate_inject _ _ Hrem), slice0_nonneg by lia.
    rewrite (Qltb_inject _ _ (Z.of_nat (length (page_of w))) p) by (reflexivity || done).
    destruct (Z.of_nat (length (page_of w)) <? p)%Z eqn:Epage.
    { eexists _, _. split; [reflexivity|].
      unfold shown, requested. simpl. rewrite length_app. simpl. lia. }
    apply Z.ltb_ge in Epage.
    match goal with |- context [paginate _ _ _ _ _ _ _ ?acc ?pn ?w0] =>
      destruct (IH acc pn w0) as (result & w' & Hrun & Hlen)
    end.
    { rewrite length_app, length_take. lia. }
    exists result, w'. split; [exact Hrun|].
    unfold shown, requested in Hlen. simpl in Hlen.
    rewrite length_app in Hlen. simpl in Hlen. lia.
Qed.
End Loop.

Section Sync.
Variable octokit : Octokit.

Lemma syncOne_run fuel owner repo repoId state q (m : Z) w :
  q == inject_Z m -> (1 <= m <= 100)%Z ->
  exists w',
    syncOne octokit (S fuel) owner repo repoId state q w =
      (Returned (map (fun i => convertToDBIssue (now w) i repoId)
                     (take (Z.to_nat m) (nextPage octokit owner repo (stateFilter state) w))),
       w') /\
    store w' = store w /\ now w' = now w /\ syncEvents w' = syncEvents w /\
    requests w' =
      requests w ++ [ListForRepo (listParams owner repo (stateFilter state))].
Proof.
  intros Hq Hm. unfold syncOne, bind at 1 2, setProgress, updateProgress, modify.
  unfold bind at 1.
  match goal with |- context [fetchIssuesWithPagination _ _ _ _ _ _ ?w0] =>
    destruct (fetch_one_page octokit owner repo state fuel q m w0 Hq Hm)
      as (w' & Hrun & Hst & Hnow & Hev & Hreq)
  end.
  exists w'. unfold bind, get, ret. rewrite Hrun. unfold nextPage in *. simpl in *.
  rewrite Hnow. done.
Qed.

(** A sync of both states with a whole share of at most a hundred. *)
Lemma sync_both_run fuel repo syncOpen maxIssues (m : Z) w :
  default true syncOpen = true ->
  default (100 : Q) maxIssues / 2 == inject_Z m -> (1 <= m <= 100)%Z ->
  let repoId := toString (gr_id repo) in
  let owner := splitSlash (gr_full_name repo) !! 0%nat in
  let name := splitSlash (gr_full_name repo) !! 1%nat in
  let w1 := requested (ListForRepo (listParams owner name only_open)) w in
  exists w',
    syncRepositoryIssues octokit (S fuel) repo
      (mkSyncOptions syncOpen (Some true) maxIssues) w = (Returned tt, w') /\
    store w' = saveIssues (store w) repoId
      (map (fun i => convertToDBIssue (now w) i repoId)
           (take (Z.to_nat m) (nextPage octokit owner name only_open w)) ++
       map (fun i => convertToDBIssue (now w) i repoId)
           (take (Z.to_nat m) (nextPage octokit owner name only_closed w1))).
Proof.
  intros Hopen Hq Hm repoId owner name w1.
  unfold syncRepositoryIssues. simpl opt_syncOpen. simpl opt_syncClosed.
  simpl opt_maxIssues. rewrite Hopen. simpl default at 1.
  fold repoId owner name.
  unfold bind at 1, setProgress at 1, modify at 1, tryCatch.
  unfold bind at 1, updateProgress at 1, modify at 1.
  unfold bind at 1.
  match goal with |- context [syncOne _ _ _ _ _ open ?q ?w0] =>
    destruct (syncOne_run fuel owner name repoId open q m w0 Hq Hm)
      as (wa & Hrun & Hst & Hnow & Hev & Hreq)
  end.
  rewrite Hrun. unfold bind at 1.
  change (default false (Some true)) with true. cbv iota.
  destruct (syncOne_run fuel owner name repoId closed _ m wa Hq Hm)
    as (wb & Hrunb & Hstb & Hnowb & Hevb & Hreqb).
  rewrite Hrunb.
  unfold bind, modify, setProgress, updateProgress. simpl in *.
  eexists. split; [reflexivity|]. simpl.
  rewrite Hstb, Hst, Hnow. simpl.
  unfold nextPage. rewrite Hreq. simpl. unfold requested. simpl.
  done.
Qed.
End Sync.

Lemma filter_Forall_id {A} (P : A -> Prop) `{!forall x, Decision (P x)} (l : list A) :
  Forall P l -> filter P l = l.
Proof.
  induction 1 as [|x l Hx _ IH]; [done|].
  by rewrite filter_cons, decide_True, IH.
Qed.

Lemma filter_Forall_nil {A} (P : A -> Prop) `{!forall x, Decision (P x)} (l : list A) :
  Forall (fun x => ~ P x) l -> filter P l = [].
Proof.
  induction 1 as [|x l Hx _ IH]; [done|].
  by rewrite filter_cons, decide_False, IH.
Qed.

Lemma issuesOf_saveIssues db r new :
  Forall (fun i => issue_repoId i = r) new -> issuesOf (saveIssues db r new) r = new.
Proof.
  intros Hnew. unfold issuesOf, saveIssues. simpl. rewrite filter_app.
  rewrite (filter_Forall_nil (fun i => issue_repoId i = r)).
  - by rewrite filter_Forall_id.
  - apply Forall_forall. intros i Hi. by apply list_elem_of_filter in Hi as [? _].
Qed.

(** What the remote [hosting l] serves for one state: at most fifty
    issues, all in that state. *)
Lemma hosting_page l owner name st w :
  let pg := nextPage (hosting l) owner name (stateFilter st) w in
  Forall (fun i => gi_state i = st) pg /\
  length pg = Nat.min 50 (length (filter (fun i => raw_state i = st) l)).
Proof.
  unfold nextPage, hosting, listing. simpl.
  assert (Hf : filter (fun i => inState (stateFilter st) (raw_state i) = true) l =
               filter (fun i => raw_state i = st) l).
  { apply list_filter_iff. intros i. destruct st, (raw_state i); simpl; split; done. }
  rewrite Hf. split.
  - apply Forall_fmap, Forall_forall. intros i Hi. simpl.
    apply subseteq_take, subseteq_drop in Hi.
    by apply list_elem_of_filter in Hi as [? _].
  - rewrite length_map, length_take. done.
Qed.

Lemma converted_state now r st (l : list GitHubIssue) :
  Forall (fun i => gi_state i = st) l ->
  Forall (fun i => issue_state i = st)
         (map (fun i => convertToDBIssue now i r) l).
Proof. intros H. apply Forall_fmap. by eapply Forall_impl; [exact H|]. Qed.

Lemma converted_repoId now r (l : list GitHubIssue) :
  Forall (fun i => issue_repoId i = r) (map (fun i => convertToDBIssue now i r) l).
Proof. apply Forall_fmap, Forall_forall. done. Qed.

(** The issues saved by a sync of both states, counted by state. *)
Lemma count_both now r (opens closeds : list GitHubIssue) db :
  Forall (fun i => gi_state i = open) opens ->
  Forall (fun i => gi_state i = closed) closeds ->
  getIssuesCount
    (saveIssues db r (map (fun i => convertToDBIssue now i r) opens ++
                      map (fun i => convertToDBIssue now i r) closeds)) r =
  mkIssuesCount (length opens) (length closeds) (length opens + length closeds).
Proof.
  intros Ho Hc. unfold getIssuesCount.
  rewrite issuesOf_saveIssues
    by (apply Forall_app; split; apply converted_repoId).
  cbv zeta. rewrite !filter_app.
  rewrite (filter_Forall_id (fun i => issue_state i = open))
    by (by apply converted_state).
  rewrite (filter_Forall_nil (fun i => issue_state i = open)).
  2:{ eapply Forall_impl; [apply (converted_state _ _ closed), Hc|].
      simpl. intros i ->. done. }
  rewrite (filter_Forall_nil (fun i => issue_state i = closed)).
  2:{ eapply Forall_impl; [apply (converted_state _ _ open), Ho|].
      simpl. intros i ->. done. }
  rewrite (filter_Forall_id (fun i => issue_state i = closed))
    by (by apply converted_state).
  rewrite app_nil_r, !length_app, !length_map. simpl. done.
Qed.

(** C2, as amended. With [syncOpen], [syncClosed] and [maxIssues = 10],
    against a remote that has 6 open and 20 closed issues, the sync
    returns and the store then holds exactly 5 open and 5 closed issues of
    the repository: each state is cut at [maxIssues / 2]. *)
Theorem syncRepositoryIssues_even_split l repo fuel w :
  length (filter (fun i => raw_state i = open) l) = 6 ->
  length (filter (fun i => raw_state i = closed) l) = 20 ->
  exists w',
    syncRepositoryIssues (hosting l) (S fuel) repo
      (mkSyncOptions (Some true) (Some true) (Some 10%Q)) w = (Returned tt, w') /\
    getIssuesCount (store w') (toString (gr_id repo)) = mkIssuesCount 5 5 10.
Proof.
  intros Hopen Hclosed.
  destruct (sync_both_run (hosting l) fuel repo (Some true) (Some 10%Q) 5 w)
    as (w' & Hrun & Hst); [done|reflexivity|lia|].
  exists w'. split; [exact Hrun|]. rewrite Hst.
  match goal with |- context [nextPage _ ?o ?n only_open ?w0] =>
    destruct (hosting_page l o n open w0) as [Ho Hlo] end.
  match goal with |- context [nextPage _ ?o ?n only_closed ?w0] =>
    destruct (hosting_page l o n closed w0) as [Hc Hlc] end.
  simpl stateFilter in *.
  rewrite count_both.
  - rewrite !length_take, Hlo, Hlc, Hopen, Hclosed. reflexivity.
  - eapply Forall_forall. intros i Hi. apply subseteq_take in Hi.
    by apply (proj1 (Forall_forall _ _) Ho).
  - eapply Forall_forall. intros i Hi. apply subseteq_take in Hi.
    by apply (proj1 (Forall_forall _ _) Hc).
Qed.

Lemma syncRepositoryIssues_even_split_witness :
  exists w',
    syncRepositoryIssues (hosting sixOpenTwentyClosed) 1 sampleRepo
      (mkSyncOptions (Some true) (Some true) (Some 10%Q)) emptyWorld = (Returned tt, w') /\
    getIssuesCount (store w') (toString (gr_id sampleRepo)) = mkIssuesCount 5 5 10.
Proof.
  apply (syncRepositoryIssues_even_split sixOpenTwentyClosed sampleRepo 0 emptyWorld).
  - reflexivity.
  - reflexivity.
Defined.

(** C2 as stated fails: against 6 open and 20 closed issues the store
    ends up with 5 open issues, not 6. *)
Lemma syncRepositoryIssues_six_open_not_kept :
  count_open
    (getIssuesCount
       (store (snd (syncRepositoryIssues (hosting sixOpenTwentyClosed) 1 sampleRepo
                      (mkSyncOptions (Some true) (Some true) (Some 10%Q)) emptyWorld)))
       (toString (gr_id sampleRepo))) <> 6.
Proof. vm_compute. discriminate. Qed.

Lemma sync_closed_run octokit fuel repo maxIssues (m : Z) w :
  default (100 : Q) maxIssues / 2 == inject_Z m -> (1 <= m <= 100)%Z ->
  let repoId := toString (gr_id repo) in
  let owner := splitSlash (gr_full_name repo) !! 0%nat in
  let name := splitSlash (gr_full_name repo) !! 1%nat in
  exists w',
    syncRepositoryIssues octokit (S fuel) repo
      (mkSyncOptions (Some false) (Some true) maxIssues) w = (Returned tt, w') /\
    store w' = saveIssues (store w) repoId
      (map (fun i => convertToDBIssue (now w) i repoId)
           (take (Z.to_nat m) (nextPage octokit owner name only_closed w))).
Proof.
  intros Hq Hm repoId owner name.
  unfold syncRepositoryIssues. simpl opt_syncOpen. simpl opt_syncClosed.
  simpl opt_maxIssues.
  change (default true (Some false)) with false.
  change (default false (Some true)) with true. cbv iota.
  fold repoId owner name.
  unfold bind at 1, setProgress at 1, modify at 1, tryCatch.
  unfold bind at 1, updateProgress at 1, modify at 1.
  unfold bind at 1, ret at 1. unfold bind at 1.
  match goal with |- context [syncOne _ _ _ _ _ closed ?q ?w0] =>
    destruct (syncOne_run octokit fuel owner name repoId closed q m w0 Hq Hm)
      as (wa & Hrun & Hst & Hnow & Hev & Hreq)
  end.
  rewrite Hrun.
  unfold bind, modify, setProgress, updateProgress. simpl in *.
  eexists. split; [reflexivity|]. simpl.
  rewrite Hst. done.
Qed.

(** C3, as amended. A sync with [syncClosed] and without [syncOpen]
    replaces the whole cached issue set of the repository by the closed
    issues fetched in this run: what was cached for the repository
    before, open issues included, is gone; the issues cached for other
    repositories stay. *)
Theorem syncRepositoryIssues_closed_only_replaces octokit repo fuel maxIssues (m : Z) w :
  default (100 : Q) maxIssues / 2 == inject_Z m -> (1 <= m <= 100)%Z ->
  let repoId := toString (gr_id repo) in
  let owner := splitSlash (gr_full_name repo) !! 0%nat in
  let name := splitSlash (gr_full_name repo) !! 1%nat in
  exists w',
    syncRepositoryIssues octokit (S fuel) repo
      (mkSyncOptions (Some false) (Some true) maxIssues) w = (Returned tt, w') /\
    issuesOf (store w') repoId =
      map (fun i => convertToDBIssue (now w) i repoId)
          (take (Z.to_nat m) (nextPage octokit owner name only_closed w)) /\
    forall other, other <> repoId ->
      issuesOf (store w') other = issuesOf (store w) other.
Proof.
  intros Hq Hm repoId owner name.
  destruct (sync_closed_run octokit fuel repo maxIssues m w Hq Hm) as (w' & Hrun & Hst).
  exists w'. split; [exact Hrun|]. rewrite Hst. split.
  - apply issuesOf_saveIssues, converted_repoId.
  - intros other Hne. unfold issuesOf, saveIssues. simpl. rewrite filter_app.
    rewrite (filter_Forall_nil (fun i => issue_repoId i = other)
               (map _ _)).
    + rewrite app_nil_r, list_filter_filter. apply list_filter_iff. intros i. split; [tauto|].
      intros ->. done.
    + eapply Forall_impl; [apply converted_repoId|]. simpl. intros i ->. done.
Qed.

Lemma syncRepositoryIssues_closed_only_replaces_witness :
  exists w',
    syncRepositoryIssues (hosting sixOpenTwentyClosed) 1 sampleRepo
      (mkSyncOptions (Some false) (Some true) None) worldWithCache = (Returned tt, w') /\
    length (issuesOf (store w') "1") = 20.
Proof.
  destruct (syncRepositoryIssues_closed_only_replaces (hosting sixOpenTwentyClosed)
              sampleRepo 0 None 50 worldWithCache) as (w' & Hrun & Hst & _).
  - reflexivity.
  - lia.
  - exists w'. split; [exact Hrun|].
    change (toString (gr_id sampleRepo)) with "1" in Hst. rewrite Hst. reflexivity.
Defined.

(** C3 as stated fails: the store caches an open issue of the repository;
    after a closed-only sync no open issue of the repository is left. *)
Lemma syncRepositoryIssues_closed_only_drops_open :
  count_open (getIssuesCount (store worldWithCache) "1") = 1 /\
  count_open
    (getIssuesCount
       (store (snd (syncRepositoryIssues (hosting sixOpenTwentyClosed) 1 sampleRepo
                      (mkSyncOptions (Some false) (Some true) None) worldWithCache)))
       "1") = 0.
Proof. split; vm_compute; reflexivity. Qed.

(** *** A half budget: the loop that never ends *)

Section HalfBudget.
Variable l : list RawIssue.
Variables owner name : option string.
Variable st : IssueState.
Hypothesis Hmany : 3 <= length (filter (fun i => raw_state i = st) l).

Abbreviation half := (5 / 2)%Q.
Abbreviation listRequest := (ListForRepo (listParams owner name (stateFilter st))).

Lemma page_at_least_three w :
  3 <= length (nextPage (hosting l) owner name (stateFilter st) w).
Proof. destruct (hosting_page l owner name st w) as [_ ->]. lia. Qed.

Lemma half_exceeded (n : nat) : 3 <= n -> Qltb (inject_Z (Z.of_nat n)) half = false.
Proof.
  intros Hn. unfold Qltb.
  assert (H : Qle_bool half (inject_Z (Z.of_nat n)) = true).
  { apply Qle_bool_iff. unfold Qle. simpl. lia. }
  by rewrite H.
Qed.

(** Once two issues are held, an iteration adds nothing and goes on. *)
Lemma paginate_stuck fuel issues page w :
  length issues = 2 ->
  exists w',
    paginate (hosting l) fuel owner name st half half issues page w = (Diverged, w') /\
    requests w' = requests w ++ replicate fuel listRequest.
Proof.
  intros Hlen. revert page w. induction fuel as [|fuel IH]; intros page w.
  - rewrite paginate_unfold. unfold ofLength. rewrite Hlen.
    change (Qltb (inject_Z (Z.of_nat 2)) half) with true. cbv iota.
    eexists. split; [reflexivity|]. simpl. by rewrite app_nil_r.
  - rewrite paginate_unfold. unfold ofLength at 1. rewrite Hlen.
    change (Qltb (inject_Z (Z.of_nat 2)) half) with true. cbv iota.
    unfold bind. rewrite iteration_run. cbv zeta.
    pose proof (page_at_least_three w) as Hpg.
    destruct (Nat.eqb (length (nextPage (hosting l) owner name (stateFilter st) w)) 0)
      eqn:E0; [apply Nat.eqb_eq in E0; lia|].
    unfold ofLength. rewrite half_exceeded by done. rewrite Hlen.
    change (truncate (half - inject_Z (Z.of_nat 2))) with 0%Z.
    rewrite slice0_nonneg by lia. simpl take. rewrite app_nil_r, Hlen.
    destruct (IH (page + 1)%Z (shown page 2 (requested listRequest w)))
      as (w' & Hrun & Hreq).
    exists w'. split; [exact Hrun|]. rewrite Hreq. simpl.
    by rewrite <- app_assoc.
Qed.

(** With the budget 5/2 and three or more issues on the remote side,
    the loop is still running after any number of iterations, and has
    sent the same request every time. *)
Lemma fetch_half_budget fuel w :
  exists w',
    fetchIssuesWithPagination (hosting l) fuel owner name st half w = (Diverged, w') /\
    requests w' = requests w ++ replicate fuel listRequest.
Proof.
  unfold fetchIssuesWithPagination.
  change (mathMin 100 half) with half.
  destruct fuel as [|fuel].
  - simpl. eexists. split; [reflexivity|]. simpl. by rewrite app_nil_r.
  - rewrite paginate_unfold.
    change (Qltb (ofLength []) half) with true. cbv iota.
    unfold bind. rewrite iteration_run. cbv zeta.
    pose proof (page_at_least_three w) as Hpg.
    destruct (Nat.eqb (length (nextPage (hosting l) owner name (stateFilter st) w)) 0)
      eqn:E0; [apply Nat.eqb_eq in E0; lia|].
    unfold ofLength at 1. rewrite half_exceeded by done.
    change (truncate (half - ofLength [])) with 2%Z.
    rewrite slice0_nonneg by lia. simpl app.
    match goal with |- context [paginate _ _ _ _ _ _ _ ?acc ?pn ?w0] =>
      destruct (paginate_stuck fuel acc pn w0) as (w' & Hrun & Hreq)
    end.
    { rewrite length_take. change (Z.to_nat 2) with 2. lia. }
    exists w'. split; [exact Hrun|]. rewrite Hreq. simpl.
    by rewrite <- app_assoc.
Qed.
End HalfBudget.

Lemma sixOpenTwentyClosed_open :
  3 <= length (filter (fun i => raw_state i = open) sixOpenTwentyClosed).
Proof. vm_compute. lia. Qed.

(** The same at the level of the sync: [maxIssues = 5] with both states
    hands the loop the budget 5/2. *)
Lemma sync_half_budget l repo fuel w :
  3 <= length (filter (fun i => raw_state i = open) l) ->
  fst (syncRepositoryIssues (hosting l) fuel repo
         (mkSyncOptions (Some true) (Some true) (Some 5%Q)) w) = Diverged.
Proof.
  intros Hmany. unfold syncRepositoryIssues.
  simpl opt_syncOpen. simpl opt_syncClosed. simpl opt_maxIssues.
  change (default true (Some true)) with true.
  change (default false (Some true)) with true.
  change (default (100 : Q) (Some 5%Q)) with 5%Q. cbv iota.
  unfold bind at 1, setProgress at 1, modify at 1, tryCatch.
  unfold bind at 1, updateProgress at 1, modify at 1.
  unfold bind at 1. unfold syncOne at 1.
  unfold bind at 1, setProgress at 1, modify at 1.
  unfold bind at 1, updateProgress at 1, modify at 1.
  unfold bind at 1.
  match goal with |- context [fetchIssuesWithPagination _ _ ?o ?n open _ ?w0] =>
    destruct (fetch_half_budget l o n open Hmany fuel w0) as (w' & Hrun & _)
  end.
  rewrite Hrun. reflexivity.
Qed.

(** C4, at the failing input. With the budget 5/2, which
    [syncRepositoryIssues] passes for [maxIssues = 5] and both states,
    and a remote with six open issues, the loop has not ended after
    [fuel] iterations, whatever [fuel] is: it has made [fuel] requests and
    is still running; and the sync that started it does not end either. *)
Theorem fetchIssuesWithPagination_half_budget_never_ends fuel :
  exists w',
    fetchIssuesWithPagination (hosting sixOpenTwentyClosed) fuel
      (Some "acme") (Some "app") open (5 / 2) emptyWorld = (Diverged, w') /\
    length (requests w') = fuel /\
    fst (syncRepositoryIssues (hosting sixOpenTwentyClosed) fuel sampleRepo
           (mkSyncOptions (Some true) (Some true) (Some 5%Q)) emptyWorld) = Diverged.
Proof.
  destruct (fetch_half_budget sixOpenTwentyClosed (Some "acme") (Some "app") open
              sixOpenTwentyClosed_open fuel emptyWorld) as (w' & Hrun & Hreq).
  exists w'. split; [exact Hrun|]. split.
  - rewrite Hreq. simpl. by rewrite length_replicate.
  - apply sync_half_budget, sixOpenTwentyClosed_open.
Qed.

(** C5, at the failing input. Every iteration of the loop sends the same
    request, and that request carries no page index: after [fuel]
    iterations the requests made are [fuel] copies of one listing request
    whose [page] is absent. *)
Theorem fetchIssuesWithPagination_same_page fuel :
  let p := listParams (Some "acme") (Some "app") only_open in
  requests (snd (fetchIssuesWithPagination (hosting sixOpenTwentyClosed) fuel
                   (Some "acme") (Some "app") open (5 / 2) emptyWorld))
    = replicate fuel (ListForRepo p) /\
  lp_page p = None.
Proof.
  destruct (fetch_half_budget sixOpenTwentyClosed (Some "acme") (Some "app") open
              sixOpenTwentyClosed_open fuel emptyWorld) as (w' & Hrun & Hreq).
  simpl. rewrite Hrun. simpl. split; [exact Hreq|reflexivity].
Qed.

End IssuesSyncFacts.

(** ** The provider client *)

Module IntegrationsFacts.
Import JS GithubDb Runtime Types Integrations.

Section Fallback.
Variable octokit : Octokit.
Variables fullName path ref : string.
Hypothesis Href : ref <> "".

Abbreviation owner := (splitSlash fullName !! 0%nat).
Abbreviation repo := (splitSlash fullName !! 1%nat).
Abbreviation atRef r := (mkGetContentParams owner repo path (Some r)).

Lemma truthy_Some r : r <> "" -> truthy (Some r) = true.
Proof.
  intros Hr. simpl. destruct (String.eqb r "") eqn:E; [|done].
  by apply String.eqb_eq in E.
Qed.

(** One attempt at a non-empty ref, in closed form. *)
Lemma fetchContent_run r w :
  r <> "" ->
  fetchContent octokit owner repo path (Some r) w =
  (match repos_getContent octokit (length (requests w)) (atRef r) with
   | Data (FileData (Some c)) =>
       if String.eqb c "" then Thrown (mkError "File content not found" None)
       else Returned (Some (base64_decode octokit c))
   | Data _ => Thrown (mkError "File content not found" None)
   | Failure e =>
       if bool_decide (err_status e = Some 404%Z) then Returned None else Thrown e
   end, requested (GetContent (atRef r)) w).
Proof.
  intros Hr. unfold fetchContent, tryCatch, bind, call, throw, ret.
  rewrite (truthy_Some r Hr).
  destruct (repos_getContent _ _ _) as [[[c|]|]|e]; simpl; try done.
  - by destruct (String.eqb c "").
  - by destruct (bool_decide _).
Qed.
End Fallback.

(** After a 404 at the ref and a look-up that names a default branch, the
    file is fetched once more, at that branch. *)
Lemma second_attempt octokit fullName path ref w e branch :
  let owner := splitSlash fullName !! 0%nat in
  let repo := splitSlash fullName !! 1%nat in
  let n := length (requests w) in
  let first := mkGetContentParams owner repo path (Some ref) in
  let second := mkGetContentParams owner repo path (Some branch) in
  ref <> "" ->
  repos_getContent octokit n first = Failure e -> err_status e = Some 404%Z ->
  repos_get octokit (S n) owner repo = Data branch -> branch <> "" ->
  exists outcome w',
    getFileContent octokit fullName path (Some ref) None w = (outcome, w') /\
    requests w' = requests w ++ [GetContent first; ReposGet owner repo; GetContent second] /\
    outcome =
      match repos_getContent octokit (S (S n)) second with
      | Data (FileData (Some c)) =>
          if String.eqb c ""
          then Thrown (mkError "Failed to fetch file content: File content not found" None)
          else Returned (base64_decode octokit c)
      | Data _ =>
          Thrown (mkError "Failed to fetch file content: File content not found" None)
      | Failure e2 =>
          if bool_decide (err_status e2 = Some 404%Z)
          then Thrown (mkError
                 "Failed to fetch file content: File not found in the repository" None)
          else Thrown (mkError (failedToFetch e2) None)
      end.
Proof.
  intros owner repo n first second Href Hfirst H404 Hrepo Hbranch.
  subst first second n. unfold getFileContent. cbv zeta.
  rewrite (truthy_Some ref Href).
  unfold tryCatch at 1, bind at 1.
  rewrite (fetchContent_run octokit fullName path ref w Href).
  fold owner repo. rewrite Hfirst, H404.
  change (bool_decide (Some 404%Z = Some 404%Z)) with true. cbv iota.
  unfold bind at 1, call at 1.
  set (first := mkGetContentParams owner repo path (Some ref)).
  set (second := mkGetContentParams owner repo path (Some branch)).
  set (n := length (requests w)) in *.
  assert (Hlen : length (requests (requested (GetContent first) w)) = S n).
  { unfold requested. simpl. rewrite length_app. simpl. lia. }
  rewrite Hlen, Hrepo. unfold bind at 1.
  rewrite (fetchContent_run octokit fullName path branch _ Hbranch).
  fold owner repo second.
  assert (Hlen2 : length (requests (requested (ReposGet owner repo)
                                      (requested (GetContent first) w))) = S (S n)).
  { unfold requested. simpl. rewrite !length_app. simpl. lia. }
  rewrite Hlen2.
  assert (Hreq : requests (requested (GetContent second)
                    (requested (ReposGet owner repo) (requested (GetContent first) w)))
                 = requests w ++ [GetContent first; ReposGet owner repo; GetContent second]).
  { unfold requested. simpl. by rewrite <- !app_assoc. }
  destruct (repos_getContent octokit (S (S n)) second) as [[[c|]|]|e2].
  - destruct (String.eqb c "") eqn:Ec.
    + eexists _, _. split; [reflexivity|]. split; [exact Hreq|]. reflexivity.
    + eexists _, _. split; [reflexivity|]. split; [exact Hreq|]. reflexivity.
  - eexists _, _. split; [reflexivity|]. split; [exact Hreq|]. reflexivity.
  - eexists _, _. split; [reflexivity|]. split; [exact Hreq|]. reflexivity.
  - destruct (bool_decide (err_status e2 = Some 404%Z)) eqn:E2.
    + eexists _, _. split; [reflexivity|]. split; [exact Hreq|]. reflexivity.
    + eexists _, _. split; [simpl; rewrite E2; reflexivity|].
      split; [exact Hreq|]. reflexivity.
Qed.

(** After a 404 at the ref and a look-up of the repository that fails, the
    call fails, and the file is not fetched again. *)
Lemma lookup_fails octokit fullName path ref w e e1 :
  let owner := splitSlash fullName !! 0%nat in
  let repo := splitSlash fullName !! 1%nat in
  let n := length (requests w) in
  let first := mkGetContentParams owner repo path (Some ref) in
  ref <> "" ->
  repos_getContent octokit n first = Failure e -> err_status e = Some 404%Z ->
  repos_get octokit (S n) owner repo = Failure e1 ->
  exists w',
    getFileContent octokit fullName path (Some ref) None w =
      (Thrown (mkError (if bool_decide (err_status e1 = Some 404%Z)
                        then notFoundAtPath path (Some ref)
                        else failedToFetch e1) None), w') /\
    requests w' = requests w ++ [GetContent first; ReposGet owner repo].
Proof.
  intros owner repo n first Href Hfirst H404 Hrepo.
  subst first n. unfold getFileContent. cbv zeta.
  rewrite (truthy_Some ref Href).
  unfold tryCatch at 1, bind at 1.
  rewrite (fetchContent_run octokit fullName path ref w Href).
  fold owner repo. rewrite Hfirst, H404.
  change (bool_decide (Some 404%Z = Some 404%Z)) with true. cbv iota.
  unfold bind at 1, call at 1.
  set (first := mkGetContentParams owner repo path (Some ref)).
  set (n := length (requests w)) in *.
  assert (Hlen : length (requests (requested (GetContent first) w)) = S n).
  { unfold requested. simpl. rewrite length_app. simpl. lia. }
  rewrite Hlen, Hrepo.
  assert (Hreq : requests (requested (ReposGet owner repo) (requested (GetContent first) w))
                 = requests w ++ [GetContent first; ReposGet owner repo]).
  { unfold requested. simpl. by rewrite <- !app_assoc. }
  eexists. split; [|exact Hreq].
  unfold throw. destruct (bool_decide (err_status e1 = Some 404%Z)); reflexivity.
Qed.

(** C9, as amended. A call with a specific ref whose fetch answers 404
    looks the repository up. When the look-up names a default branch, the
    file is fetched exactly once more, at the default branch: its content
    is returned when that fetch delivers it; when that fetch answers 404
    as well the call fails with the not-found error; any other failure of
    it is reported as a failed fetch. When the look-up fails, the call
    fails after these two requests: the file is not fetched at the default
    branch. *)
Theorem getFileContent_fallback octokit fullName path ref w e :
  let owner := splitSlash fullName !! 0%nat in
  let repo := splitSlash fullName !! 1%nat in
  let n := length (requests w) in
  let first := mkGetContentParams owner repo path (Some ref) in
  ref <> "" ->
  repos_getContent octokit n first = Failure e -> err_status e = Some 404%Z ->
  exists outcome w',
    getFileContent octokit fullName path (Some ref) None w = (outcome, w') /\
    match repos_get octokit (S n) owner repo with
    | Data branch =>
        let second := mkGetContentParams owner repo path (Some branch) in
        branch <> "" ->
        requests w' =
          requests w ++ [GetContent first; ReposGet owner repo; GetContent second] /\
        outcome =
          match repos_getContent octokit (S (S n)) second with
          | Data (FileData (Some c)) =>
              if String.eqb c ""
              then Thrown (mkError
                     "Failed to fetch file content: File content not found" None)
              else Returned (base64_decode octokit c)
          | Data _ =>
              Thrown (mkError "Failed to fetch file content: File content not found" None)
          | Failure e2 =>
              if bool_decide (err_status e2 = Some 404%Z)
              then Thrown (mkError
                     "Failed to fetch file content: File not found in the repository" None)
              else Thrown (mkError (failedToFetch e2) None)
          end
    | Failure e1 =>
        requests w' = requests w ++ [GetContent first; ReposGet owner repo] /\
        outcome =
          Thrown (mkError (if bool_decide (err_status e1 = Some 404%Z)
                           then notFoundAtPath path (Some ref)
                           else failedToFetch e1) None)
    end.
Proof.
  intros owner repo n first Href Hfirst H404.
  destruct (getFileContent octokit fullName path (Some ref) None w) as [outcome w'] eqn:Erun.
  exists outcome, w'. split; [done|].
  destruct (repos_get octokit (S n) owner repo) as [branch|e1] eqn:Erepo.
  - intros second Hbranch.
    destruct (second_attempt octokit fullName path ref w e branch Href Hfirst H404
                Erepo Hbranch) as (o & w2 & Hrun & Hreq & Hout).
    rewrite Erun in Hrun. injection Hrun as <- <-. by split.
  - destruct (lookup_fails octokit fullName path ref w e e1 Href Hfirst H404 Erepo)
      as (w2 & Hrun & Hreq).
    rewrite Erun in Hrun. injection Hrun as <- <-. by split.
Qed.

Lemma getFileContent_fallback_witness :
  exists w',
    getFileContent onMainOnly "acme/app" "README.md" (Some "abc123") None freshWorld
      = (Returned "aGVsbG8=", w') /\
    length (requests w') = 3.
Proof.
  destruct (getFileContent_fallback onMainOnly "acme/app" "README.md" "abc123"
              freshWorld notFound) as (outcome & w' & Hrun & Hcase).
  - discriminate.
  - reflexivity.
  - reflexivity.
  - destruct Hcase as [Hreq Hout]; [discriminate|].
    exists w'. rewrite Hrun, Hreq, Hout. split; reflexivity.
Defined.

(** C9 as stated fails: the fetch at the ref answers 404 and so does the
    look-up of the repository; the call fails with a not-found error, and
    the file was never fetched at the default branch. *)
Lemma getFileContent_no_retry_without_repository :
  exists w',
    getFileContent (hosting []) "acme/app" "README.md" (Some "abc123") None freshWorld
      = (Thrown (mkError "File not found at path: README.md (ref: abc123)" None), w') /\
    requests w' =
      [ GetContent (mkGetContentParams (Some "acme") (Some "app") "README.md" (Some "abc123"));
        ReposGet (Some "acme") (Some "app") ].
Proof. eexists. split; reflexivity. Qed.

End IntegrationsFacts.

(** ** The file sync orchestrator *)

Module FileSyncFacts.
Import JS GithubDb Runtime Types Integrations FileSync.

(** C8. When the fetch of the repository tree fails, [syncRepository]
    stops there: the record of the repository is marked [error], the
    observer receives one last event, of status [error], and the exception
    of the provider client is thrown on to the caller. *)
Theorem syncRepository_fetch_failure octokit repo w e :
  let parts := splitSlash (gr_full_name repo) in
  let repoId := toString (gr_id repo) in
  git_getTree octokit (length (requests w))
    (mkGetTreeParams (parts !! 0%nat) (parts !! 1%nat) (gr_default_branch repo) "true")
    = Failure e ->
  exists w',
    syncRepository octokit repo w =
      (Thrown (mkError "Failed to fetch repository tree" None), w') /\
    repo_syncStatus <$> getRepoSyncStatus (store w') repoId = Some error /\
    syncEvents w' =
      syncEvents w ++
      [mkSyncProgress 0 0 "" st_error (Some "Failed to fetch repository tree")] /\
    files (store w') = files (store w).
Proof.
  intros parts repoId Hfail.
  unfold syncRepository, tryCatch at 1, bind at 1, modify at 1.
  unfold bind at 1, getRepositoryTree, tryCatch at 1, bind at 1, call at 1.
  simpl requests. fold parts. rewrite Hfail.
  unfold throw at 1, bind, modify, onProgress, throw. simpl.
  eexists. split; [reflexivity|]. simpl. split; [|done].
  unfold getRepoSyncStatus, updateRepoSyncStatus, saveRepo. simpl.
  fold repoId. rewrite lookup_alter, decide_True by done.
  by rewrite lookup_insert_eq.
Qed.

Lemma syncRepository_fetch_failure_witness :
  exists w',
    syncRepository treeDown demoRepository freshWorld =
      (Thrown (mkError "Failed to fetch repository tree" None), w') /\
    repo_syncStatus <$> getRepoSyncStatus (store w') "7" = Some error.
Proof.
  destruct (syncRepository_fetch_failure treeDown demoRepository freshWorld
              (mkError "Server Error" (Some 500%Z)) eq_refl)
    as (w' & Hrun & Hstatus & _).
  exists w'. split; [exact Hrun|exact Hstatus].
Defined.

End FileSyncFacts.

(** ** The relevance search engine and the analysis orchestrator *)

Module SearchFacts.
Import JS Numbers CodeContext IssueAnalysis.

Lemma rational_laws : NumberLaws rational.
Proof.
  split; unfold leN; simpl.
  - intros a b. symmetry. apply Qcompare_antisym.
  - intros a b c Hab Hbc. apply Qle_alt in Hab, Hbc. apply Qle_alt.
    by eapply Qle_trans.
  - intros p q Hpq. by apply Qle_alt.
  - intros n. apply (proj1 (Qle_alt _ _)). unfold Qle, inject_Z. cbn [Qnum Qden]. lia.
  - intros n Hn. apply (proj1 (Qlt_alt _ _)). unfold Qlt, inject_Z. cbn [Qnum Qden]. lia.
  - intros a b Ha Hb. apply Qle_alt in Ha, Hb. apply Qle_alt.
    replace 0%Q with (0 + 0)%Q by reflexivity. by apply Qplus_le_compat.
  - intros a b Ha Hb. apply Qle_alt in Ha, Hb. apply Qle_alt.
    by apply Qmult_le_0_compat.
  - intros a b Ha Hb. apply Qle_alt in Ha. apply Qlt_alt in Hb. apply Qle_alt.
    unfold Qdiv. apply Qmult_le_0_compat; [done|].
    apply Qinv_le_0_compat. by apply Qlt_le_weak.
  - intros a b. apply Qle_alt. destruct (Qle_bool a b) eqn:E.
    + by apply Qle_bool_iff.
    + apply Qle_refl.
  - intros a b c Ha Hb. by destruct (Qle_bool a b).
Qed.

Section Scores.
Context `{NumberLaws}.

Abbreviation nonneg x := (leN (lit 0) x).

Lemma leN_refl a : leN a a.
Proof.
  unfold leN. pose proof (compareN_opp a a) as Ho.
  destruct (compareN a a); simpl in Ho; congruence.
Qed.

Lemma lit_nonneg q : (0 <= q)%Q -> nonneg (lit q).
Proof. apply lit_le. Qed.

Lemma clamp_inUnit x : nonneg x -> inUnit (mathMin x (lit 1)).
Proof.
  intros Hx. split; [|apply mathMin_le_r].
  apply mathMin_glb; [done|]. by apply lit_nonneg.
Qed.

(** A capped, counted contribution: [Math.min(n * w, cap)]. *)
Lemma capped_nonneg n w cap :
  (0 <= w)%Q -> (0 <= cap)%Q ->
  nonneg (mathMin (mul (ofNat n) (lit w)) (lit cap)).
Proof.
  intros Hw Hcap. apply mathMin_glb; [|by apply lit_nonneg].
  apply mul_nonneg; [apply ofNat_nonneg|by apply lit_nonneg].
Qed.

Lemma fold_nonneg {A} (f : num -> A -> num) (l : list A) (x : num) :
  (forall y a, nonneg y -> nonneg (f y a)) -> nonneg x -> nonneg (fold_left f l x).
Proof.
  intros Hf. revert x. induction l as [|a l IH]; intros x Hx; simpl; [done|].
  apply IH. by apply Hf.
Qed.

Lemma nameAndPath_nonneg fileName filePath score term :
  nonneg score -> nonneg (nameAndPath fileName filePath score term).
Proof.
  intros Hs. unfold nameAndPath.
  assert (H1 : nonneg (if includes fileName term
                       then add score (lit (3 # 10)) else score)).
  { destruct (includes fileName term); [|done].
    apply add_nonneg; [done|]. by apply lit_nonneg. }
  destruct (includes filePath term); [|done].
  apply add_nonneg; [done|]. by apply lit_nonneg.
Qed.

Lemma contentMatches_nonneg contentLower score term :
  nonneg score -> nonneg (contentMatches contentLower score term).
Proof.
  intros Hs. unfold contentMatches. destruct (0 <? _)%nat; [|done].
  apply add_nonneg; [done|]. by apply capped_nonneg.
Qed.

Lemma boost_nonneg condition score : nonneg score -> nonneg (boost condition score).
Proof.
  intros Hs. unfold boost. destruct condition; [|done].
  apply add_nonneg; [done|]. by apply lit_nonneg.
Qed.

Lemma calculateFileRelevance_inUnit file content searchTerms query :
  inUnit (calculateFileRelevance file content searchTerms query).
Proof.
  unfold calculateFileRelevance. apply clamp_inUnit.
  do 3 apply boost_nonneg.
  apply fold_nonneg; [intros; by apply contentMatches_nonneg|].
  apply fold_nonneg; [intros; by apply nameAndPath_nonneg|].
  by apply lit_nonneg.
Qed.

Lemma contextOf_score searchTerms query entry ctx :
  contextOf searchTerms query entry = Some ctx -> inUnit (cc_relevanceScore ctx).
Proof.
  unfold contextOf. destruct entry as [file [content|]]; [|done].
  destruct (gtb _ _); [|done]. intros [= <-]. simpl.
  apply calculateFileRelevance_inUnit.
Qed.

Lemma calculateSearchConfidence_inUnit contexts searchTerms :
  Forall (fun ctx => nonneg (cc_relevanceScore ctx)) contexts ->
  inUnit (calculateSearchConfidence contexts searchTerms).
Proof.
  intros Hscores. unfold calculateSearchConfidence.
  destruct (Nat.eqb (length contexts) 0) eqn:E.
  { split; [apply leN_refl|by apply lit_le]. }
  apply Nat.eqb_neq in E. apply clamp_inUnit.
  apply add_nonneg; [|destruct (0 <? _)%nat; by apply lit_nonneg].
  apply add_nonneg.
  - apply add_nonneg; [by apply lit_nonneg|by apply capped_nonneg].
  - apply mul_nonneg; [|by apply lit_nonneg].
    apply div_nonneg; [|apply ofNat_pos; lia].
    assert (Hsum : forall x, nonneg x ->
      nonneg (fold_left (fun sum ctx => add sum (cc_relevanceScore ctx)) contexts x)).
    { clear E. induction Hscores as [|c l Hc _ IH]; intros x Hx; simpl; [done|].
      apply IH. by apply add_nonneg. }
    apply Hsum. by apply lit_nonneg.
Qed.

(** What a search returns was built by [contextOf] from the corpus. *)
Lemma searchCodeContext_contexts corpus query maxResults ctx :
  ctx ∈ sr_contexts (searchCodeContext corpus query maxResults) ->
  exists entry, entry ∈ corpus /\
    contextOf (extractSearchTerms query) query entry = Some ctx.
Proof.
  unfold searchCodeContext. destruct (Nat.eqb (length corpus) 0); simpl.
  { intros Hin. by apply elem_of_nil in Hin. }
  intros Hin. unfold slice0 in Hin.
  assert (Hsorted : ctx ∈ arraySort byRelevance
            (omap (contextOf (extractSearchTerms query) query) corpus)).
  { destruct (truncate maxResults <? 0)%Z; by apply subseteq_take in Hin. }
  rewrite JSFacts.arraySort_perm in Hsorted.
  apply list_elem_of_omap in Hsorted as (entry & He & Hc). by exists entry.
Qed.

Lemma searchCodeContext_scores corpus query maxResults :
  Forall (fun ctx => inUnit (cc_relevanceScore ctx))
         (sr_contexts (searchCodeContext corpus query maxResults)).
Proof.
  apply Forall_forall. intros ctx Hin.
  destruct (searchCodeContext_contexts _ _ _ _ Hin) as (entry & _ & Hc).
  by eapply contextOf_score.
Qed.

Lemma searchCodeContext_confidence corpus query maxResults :
  inUnit (sr_confidence (searchCodeContext corpus query maxResults)).
Proof.
  pose proof (searchCodeContext_scores corpus query maxResults) as Hs.
  unfold searchCodeContext in *. destruct (Nat.eqb (length corpus) 0); simpl in *.
  { split; [apply leN_refl|by apply lit_le]. }
  apply calculateSearchConfidence_inUnit.
  eapply Forall_impl; [exact Hs|]. by intros ctx [? _].
Qed.

Lemma calculateConfidence_inUnit issues suggestions keywords codeContexts :
  inUnit (calculateConfidence issues suggestions keywords codeContexts).
Proof.
  unfold calculateConfidence. apply clamp_inUnit.
  assert (H4 : forall n, nonneg (mul (ofNat n) (lit (5 # 100)))).
  { intros n. apply mul_nonneg; [apply ofNat_nonneg|by apply lit_nonneg]. }
  assert (Hbase : nonneg
    (add (add (add (add (lit 0)
       (mathMin (mul (ofNat (length keywords)) (lit (1 # 10))) (lit (3 # 10))))
       (mathMin (mul (ofNat (length issues)) (lit (15 # 100))) (lit (4 # 10))))
       (mathMin (mul (ofNat (length suggestions)) (lit (1 # 10))) (lit (3 # 10))))
       (mul (ofNat (length (List.filter
          (fun issue => gtb (im_relevanceScore issue) (lit (8 # 10))) issues)))
          (lit (5 # 100))))).
  { repeat apply add_nonneg; try (by apply capped_nonneg); try apply H4.
    by apply lit_nonneg. }
  destruct codeContexts as [ctxs|]; [|done].
  destruct (0 <? length ctxs)%nat; [|done].
  apply add_nonneg; [|apply H4].
  apply add_nonneg; [done|by apply capped_nonneg].
Qed.
End Scores.

(** C6. In every arithmetic that obeys [NumberLaws]: the relevance score
    of a file lies between 0 and 1, for every file, content, list of terms
    and query, and so does the score of every context a search returns;
    the confidence of a search lies between 0 and 1; and the confidence of
    an analysis lies between 0 and 1. *)
Theorem scores_in_unit_interval `{NumberLaws} :
  (forall file content searchTerms query,
     inUnit (calculateFileRelevance file content searchTerms query)) /\
  (forall corpus query maxResults,
     Forall (fun ctx => inUnit (cc_relevanceScore ctx))
            (sr_contexts (searchCodeContext corpus query maxResults)) /\
     inUnit (sr_confidence (searchCodeContext corpus query maxResults))) /\
  (forall extractKeywords determineContext findRelevantIssues generateCodeSuggestions
          generateSummary corpus statement,
     inUnit (ar_confidence
               (analyzeUserStatement extractKeywords determineContext findRelevantIssues
                  generateCodeSuggestions generateSummary corpus statement))).
Proof.
  split; [|split].
  - apply calculateFileRelevance_inUnit.
  - intros corpus query maxResults. split.
    + apply searchCodeContext_scores.
    + apply searchCodeContext_confidence.
  - intros. unfold analyzeUserStatement. simpl. apply calculateConfidence_inUnit.
Qed.

Lemma scores_in_unit_interval_witness :
  inUnit (calculateFileRelevance
            (mkCodeFile "/app/src/auth.ts" "src/auth.ts" "auth.ts")
            "export const auth = (token) => check(token)" ["auth"; "token"] "auth token") /\
  inUnit (sr_confidence (searchCodeContext authCorpus "auth token" 10)).
Proof.
  destruct (scores_in_unit_interval (H := rational_laws)) as (Hfile & Hsearch & _).
  split.
  - apply Hfile.
  - apply Hsearch.
Defined.

(** The ranking of a search, and its cut. *)
Lemma take_StronglySorted {A} (R : A -> A -> Prop) (l : list A) n :
  StronglySorted R l -> StronglySorted R (take n l).
Proof.
  intros Hs. revert n. induction Hs as [|x l Hs IH Hx]; intros [|n]; simpl.
  - constructor.
  - constructor.
  - constructor.
  - constructor; [apply IH|].
    apply Forall_forall. intros y Hy. apply subseteq_take in Hy.
    by apply (proj1 (Forall_forall _ _) Hx).
Qed.

(** The ranking holds whatever number is given as [maxResults]; the cut
    holds from 0 on. *)
Lemma searchCodeContext_sorted_cut `{NumberLaws} corpus query (maxResults : Q) :
  let result := sr_contexts (searchCodeContext corpus query maxResults) in
  StronglySorted (fun a b => leN (cc_relevanceScore b) (cc_relevanceScore a)) result /\
  ((0 <= maxResults)%Q ->
   (inject_Z (Z.of_nat (length result)) <= maxResults)%Q).
Proof.
  unfold searchCodeContext. destruct (Nat.eqb (length corpus) 0); simpl.
  { split; [constructor|]. done. }
  split.
  - unfold slice0. destruct (truncate maxResults <? 0)%Z; apply take_StronglySorted.
    all: apply (JSFacts.arraySort_sorted byRelevance).
    all: unfold ordered, byRelevance.
    all: try (intros a b Hgt; rewrite compareN_opp, Hgt; done).
    all: intros a b c Hab Hbc; by eapply leN_trans.
  - intros Hpos.
    assert (Hfloor : (0 <= Qfloor maxResults)%Z).
    { rewrite <- (Qfloor_Z 0). by apply Qfloor_resp_le. }
    unfold truncate. rewrite (proj2 (Qle_bool_iff 0 maxResults) Hpos).
    rewrite JSFacts.slice0_nonneg by done.
    eapply Qle_trans; [|apply Qfloor_le].
    rewrite <- Zle_Qle, length_take. lia.
Qed.

(** C7. For every query and every number of results asked for, the
    contexts of a search are sorted by relevance score in non-increasing
    order, and there are no more of them than were asked for. *)
Theorem searchCodeContext_ranked `{NumberLaws} corpus query (maxResults : nat) :
  let result :=
    sr_contexts (searchCodeContext corpus query (inject_Z (Z.of_nat maxResults))) in
  StronglySorted (fun a b => leN (cc_relevanceScore b) (cc_relevanceScore a)) result /\
  length result <= maxResults.
Proof.
  intros result.
  destruct (searchCodeContext_sorted_cut corpus query (inject_Z (Z.of_nat maxResults)))
    as [Hsorted Hcut].
  split; [exact Hsorted|].
  assert (Hpos : (0 <= inject_Z (Z.of_nat maxResults))%Q).
  { change 0%Q with (inject_Z 0). rewrite <- Zle_Qle. lia. }
  apply Hcut in Hpos. rewrite <- Zle_Qle in Hpos. subst result. lia.
Qed.

Lemma searchCodeContext_ranked_witness :
  length (sr_contexts (searchCodeContext authCorpus "auth" (inject_Z (Z.of_nat 2)))) <= 2.
Proof.
  destruct (searchCodeContext_ranked (H := rational_laws) authCorpus "auth" 2) as [_ Hlen].
  exact Hlen.
Defined.

(** A [maxResults] below zero is no count: [slice(0, -1)] drops the last
    of the three matching files. *)
Remark searchCodeContext_negative_maxResults :
  length (sr_contexts (searchCodeContext (H := rational) authCorpus "auth" (-1))) = 2.
Proof. vm_compute; reflexivity. Qed.

End SearchFacts.

(** ** The cache store: file contents and issue queries *)

Module StoreFacts.
Import JS JSFacts Text GithubDb GithubDbFacts StoreQueries.

Lemma filter_map_comm {A} (P : A -> Prop) `{!forall x, Decision (P x)} (g : A -> A) l :
  (forall x, P (g x) <-> P x) -> filter P (map g l) = map g (filter P l).
Proof.
  intros Hg. induction l as [|x l IH]; [done|]. simpl.
  rewrite !filter_cons. destruct (decide (P x)) as [Hx|Hx].
  - rewrite decide_True by by apply Hg. simpl. by rewrite IH.
  - rewrite decide_False by (by rewrite Hg). done.
Qed.

Lemma filter_none {A} (P : A -> Prop) `{!forall x, Decision (P x)} (l : list A) :
  (forall x, ~ P x) -> filter P l = [].
Proof.
  intros HP. induction l as [|x l IH]; [done|].
  by rewrite filter_cons, decide_False, IH.
Qed.

Lemma filter_nothing {A} (P : A -> Prop) `{!forall x, Decision (P x)} (l : list A) :
  Forall (fun x => ~ P x) l -> filter P l = [].
Proof.
  induction 1 as [|x l Hx _ IH]; [done|].
  by rewrite filter_cons, decide_False, IH.
Qed.

Lemma filter_all {A} (P : A -> Prop) `{!forall x, Decision (P x)} (l : list A) :
  Forall P l -> filter P l = l.
Proof.
  induction 1 as [|x l Hx _ IH]; [done|].
  by rewrite filter_cons, decide_True, IH.
Qed.

Section SameNode.
Variable g : GitHubFile -> GitHubFile.
Hypothesis Hg : forall f, sameNode f (g f).

Lemma visit_sameNode st f : visit st (g f) = visit st f.
Proof.
  destruct (Hg f) as (Hn & Hp & Ht & Hs & Hz & Hd & Hpp).
  unfold visit, newNode. by rewrite Hn, Hp, Ht, Hs, Hz, Hd, Hpp.
Qed.

Lemma run_sameNode l : run (map g l) = run l.
Proof.
  unfold run. generalize initState.
  induction l as [|f l IH]; intros st; [done|].
  simpl. by rewrite visit_sameNode, IH.
Qed.

Lemma insertSorted_sameNode cmp f l :
  insertSorted (byPath cmp) (g f) (map g l) = map g (insertSorted (byPath cmp) f l).
Proof.
  induction l as [|y l IH]; [done|]. simpl.
  assert (byPath cmp (g f) (g y) = byPath cmp f y) as ->.
  { unfold byPath. destruct (Hg f) as (_ & -> & _), (Hg y) as (_ & -> & _). done. }
  destruct (byPath cmp f y); simpl; by rewrite ?IH.
Qed.

Lemma sortFiles_sameNode cmp l : sortFiles cmp (map g l) = map g (sortFiles cmp l).
Proof.
  unfold sortFiles, arraySort. induction l as [|f l IH]; [done|].
  simpl. by rewrite IH, insertSorted_sameNode.
Qed.

Lemma buildFileTree_sameNode `{Collation} l : buildFileTree (map g l) = buildFileTree l.
Proof.
  unfold buildFileTree, buildFileTreeWith, buildFileTreeObjs.
  by rewrite sortFiles_sameNode, run_sameNode.
Qed.
End SameNode.

Lemma filesAt_saveFileContent db repoId filePath content r p :
  filesAt (saveFileContent db repoId filePath content) r p =
  map (fun f => if decide (file_repoId f = repoId /\ file_path f = filePath)
                then withContent f content else f)
      (filesAt db r p).
Proof.
  unfold filesAt, saveFileContent. simpl.
  apply filter_map_comm. intros f. by destruct (decide _).
Qed.

Lemma saved_content db repoId filePath content r p :
  getFileContent (saveFileContent db repoId filePath content) r p =
  if decide (r = repoId /\ p = filePath)
  then match getFile db repoId filePath with
       | Some _ => Some content
       | None => None
       end
  else getFileContent db r p.
Proof.
  unfold getFileContent, getFile. rewrite filesAt_saveFileContent.
  destruct (decide (r = repoId /\ p = filePath)) as [[-> ->]|Hne].
  - destruct (filesAt db repoId filePath) as [|f l] eqn:E; [done|]. simpl.
    assert (Hf : f ∈ filesAt db repoId filePath) by (rewrite E; left).
    apply list_elem_of_filter in Hf as [Hf _]. by rewrite decide_True.
  - destruct (filesAt db r p) as [|f l] eqn:E; [done|]. simpl.
    assert (Hf : f ∈ filesAt db r p) by (rewrite E; left).
    apply list_elem_of_filter in Hf as [[Hr Hp] _].
    rewrite decide_False; [done|]. intros [? ?]. apply Hne. split; congruence.
Qed.

(** X1. Caching a content and reading it back: the content is found again at
    the key it was saved under, provided the store has a row for that key;
    without such a row nothing is found; every other key reads as before. *)
Theorem getFileContent_saveFileContent db repoId filePath content r p :
  getFileContent (saveFileContent db repoId filePath content) r p =
  if decide (r = repoId /\ p = filePath)
  then match getFile db repoId filePath with
       | Some _ => Some content
       | None => None
       end
  else getFileContent db r p.
Proof. apply saved_content. Qed.

(** X2. Caching the content of a file changes the file tree of no
    repository. *)
Theorem getFileTree_saveFileContent `{Collation} db repoId filePath content r :
  getFileTree (saveFileContent db repoId filePath content) r = getFileTree db r.
Proof.
  unfold getFileTree, saveFileContent. simpl.
  rewrite filter_map_comm by (intros f; by destruct (decide _)).
  apply buildFileTree_sameNode. intros f. unfold sameNode.
  by destruct (decide _).
Qed.

(** The counts of [getIssuesCount] add up: every issue of the repository
    is counted as open or as closed, never as both. *)
Lemma counts_add_up db repoId :
  count_total (getIssuesCount db repoId) =
  count_open (getIssuesCount db repoId) + count_closed (getIssuesCount db repoId).
Proof.
  unfold getIssuesCount. simpl.
  induction (issuesOf db repoId) as [|i l IH]; [done|].
  rewrite !filter_cons. destruct (issue_state i) eqn:E.
  - rewrite decide_True, decide_False by done. simpl. lia.
  - rewrite decide_False, decide_True by done. simpl. lia.
Qed.

(** X3. Clearing a repository forgets it altogether, and touches nothing of
    any other repository: its record, its files with their cached contents
    and its issues are gone, those of [other] are as before. *)
Theorem clearRepo_scope `{Collation} db repoId other :
  other <> repoId ->
  let db' := clearRepo db repoId in
  (getRepoSyncStatus db' repoId = None /\
   getFileTree db' repoId = Some [] /\
   (forall p, getFile db' repoId p = None) /\
   issuesOf db' repoId = []) /\
  (getRepoSyncStatus db' other = getRepoSyncStatus db other /\
   getFileTree db' other = getFileTree db other /\
   (forall p, getFile db' other p = getFile db other p) /\
   issuesOf db' other = issuesOf db other).
Proof.
  intros Hne db'. subst db'. unfold clearRepo.
  assert (Hgone : forall (l : list GitHubFile),
            filter (fun f => file_repoId f = repoId)
                   (filter (fun f => file_repoId f <> repoId) l) = []).
  { intros l. rewrite list_filter_filter. apply filter_none. by intros f [? ?]. }
  split; [split; [|split; [|split]]|split; [|split; [|split]]].
  - unfold getRepoSyncStatus. simpl. apply lookup_delete_eq.
  - unfold getFileTree. simpl. by rewrite Hgone.
  - intros p. unfold getFile, filesAt. simpl.
    rewrite list_filter_filter.
    rewrite filter_none; [done|]. by intros f [[? _] ?].
  - unfold issuesOf. simpl. rewrite list_filter_filter.
    apply filter_none. by intros f [? ?].
  - unfold getRepoSyncStatus. simpl. by apply lookup_delete_ne.
  - unfold getFileTree. simpl. f_equal. rewrite list_filter_filter.
    apply list_filter_iff. intros f. split; [by intros [? _]|]. intros <-. done.
  - intros p. unfold getFile, filesAt. simpl. f_equal. rewrite list_filter_filter.
    apply list_filter_iff. intros f. split; [by intros [? _]|].
    intros [<- ?]. done.
  - unfold issuesOf. simpl. rewrite list_filter_filter.
    apply list_filter_iff. intros f. split; [by intros [? _]|]. intros <-. done.
Qed.

Lemma clearRepo_scope_witness :
  let db := Types.store Listings.usedWorld in
  getFile db "7" "old.txt" = Some Listings.staleFile /\
  getFile (clearRepo db "7") "7" "old.txt" = None /\
  getFile (clearRepo db "7") "8" "notes.txt" = Some Listings.otherFile.
Proof.
  intros db.
  destruct (@clearRepo_scope codeUnitOrder db "7" "8") as [(_ & _ & Hgone & _) (_ & _ & Hkept & _)].
  - discriminate.
  - split; [reflexivity|]. split; [apply Hgone|]. rewrite Hkept. reflexivity.
Defined.

(** X4. Updating the sync status of a repository that has no record does
    nothing: no record is created for it. *)
Theorem updateRepoSyncStatus_missing db repoId status totalFiles now :
  getRepoSyncStatus db repoId = None ->
  updateRepoSyncStatus db repoId status totalFiles now = db.
Proof.
  unfold getRepoSyncStatus, updateRepoSyncStatus. intros Hnone.
  destruct db as [rs fs iss]. simpl in *. f_equal.
  apply map_eq. intros k. destruct (decide (k = repoId)) as [->|Hk].
  - by rewrite lookup_alter_eq, Hnone.
  - by rewrite lookup_alter_ne.
Qed.

Lemma updateRepoSyncStatus_missing_witness :
  updateRepoSyncStatus emptyDatabase "7" error None 0 = emptyDatabase.
Proof.
  apply (updateRepoSyncStatus_missing emptyDatabase "7" error None 0). reflexivity.
Defined.

Lemma StronglySorted_sublist {A} (R : A -> A -> Prop) (k l : list A) :
  sublist k l -> StronglySorted R l -> StronglySorted R k.
Proof.
  induction 1 as [|x k l Hs IH|x k l Hs IH]; intros Hl.
  - constructor.
  - apply StronglySorted_inv in Hl as [Hl Hx]. constructor; [by apply IH|].
    apply Forall_forall. intros y Hy. rewrite Forall_forall in Hx. apply Hx.
    by eapply elem_of_sublist.
  - apply StronglySorted_inv in Hl as [Hl _]. by apply IH.
Qed.

Lemma StronglySorted_weaken {A} (R S : A -> A -> Prop) (l : list A) :
  (forall a b, R a b -> S a b) -> StronglySorted R l -> StronglySorted S l.
Proof.
  intros HRS. induction 1 as [|x l Hl IH Hx]; constructor; [done|].
  eapply Forall_impl; [exact Hx|]. intros y. apply HRS.
Qed.

Lemma slice0_sublist {A} (l : list A) e : sublist (slice0 l e) l.
Proof. unfold slice0. destruct (e <? 0)%Z; apply sublist_take. Qed.

Lemma sliceFrom_sublist {A} (l : list A) e : sublist (sliceFrom l e) l.
Proof. unfold sliceFrom. destruct (e <? 0)%Z; apply sublist_drop. Qed.

Lemma includes_empty s : includes s "" = true.
Proof. by destruct s. Qed.

Section Queries.
Variable getTime : string -> Z.

Abbreviation newestFirst :=
  (fun a b : GitHubIssueDB => (getTime (issue_updatedAt b) <= getTime (issue_updatedAt a))%Z).

Lemma byUpdatedAt_sorted l : StronglySorted newestFirst (arraySort (byUpdatedAt getTime) l).
Proof.
  apply (arraySort_sorted (byUpdatedAt getTime)).
  - intros a b. unfold ordered, byUpdatedAt. rewrite Z.compare_gt_iff.
    intros Hgt Hc. apply Z.compare_gt_iff in Hc. lia.
  - intros a b c. unfold ordered, byUpdatedAt. intros Hab Hbc.
    change (getTime (issue_updatedAt c) <= getTime (issue_updatedAt a))%Z.
    change (getTime (issue_updatedAt b) <= getTime (issue_updatedAt a))%Z in Hab.
    change (getTime (issue_updatedAt c) <= getTime (issue_updatedAt b))%Z in Hbc.
    lia.
Qed.

(** X5. What [getIssues] returns is ordered by the time of the last update,
    newest first, and every issue returned is an issue of the repository
    that meets each of the filters given: the state asked for, the assignee
    asked for, the label asked for. *)
Theorem getIssues_sound db repoId filters :
  let result := getIssues getTime db repoId filters in
  StronglySorted newestFirst result /\
  Forall (fun issue =>
            issue ∈ issues db /\ issue_repoId issue = repoId /\
            (forall s, filters ≫= flt_state = Some s -> issue_state issue = s) /\
            (forall a, filters ≫= flt_assignee = Some a -> a <> "" ->
               a ∈ issue_assignees issue) /\
            (forall l, filters ≫= flt_label = Some l -> l <> "" ->
               exists lb, lb ∈ issue_labels issue /\ label_name lb = l))
         result.
Proof.
  intros result. subst result. unfold getIssues.
  set (issues1 := match filters ≫= flt_state with
                  | Some s => filter (fun issue => issue_state issue = s) (issuesOf db repoId)
                  | None => issuesOf db repoId end).
  set (issues2 := match nonEmpty (filters ≫= flt_assignee) with
                  | Some a => filter (fun issue => arrayIncludes (issue_assignees issue) a = true) issues1
                  | None => issues1 end).
  set (issues3 := match nonEmpty (filters ≫= flt_label) with
                  | Some l => filter (fun issue => hasLabel l issue = true) issues2
                  | None => issues2 end).
  cbv zeta.
  set (sorted := arraySort (byUpdatedAt getTime) issues3).
  set (issues4 := match nonZero (filters ≫= flt_offset) with
                  | Some offset => sliceFrom sorted (truncate offset)
                  | None => sorted end).
  set (result := match nonZero (filters ≫= flt_limit) with
                 | Some limit => slice0 issues4 (truncate limit)
                 | None => issues4 end).
  assert (H4 : sublist issues4 sorted).
  { subst issues4. destruct (nonZero (filters ≫= flt_offset)); [apply sliceFrom_sublist|done]. }
  assert (Hr : sublist result sorted).
  { subst result. destruct (nonZero (filters ≫= flt_limit)); [|done].
    etrans; [apply slice0_sublist|done]. }
  split.
  { eapply StronglySorted_sublist; [exact Hr|apply byUpdatedAt_sorted]. }
  apply Forall_forall. intros issue Hin.
  apply (elem_of_sublist _ _ _ Hin) in Hr. clear Hin.
  subst sorted. rewrite (arraySort_perm (byUpdatedAt getTime) issues3) in Hr.
  assert (H3 : issue ∈ issues2 /\
               forall l, filters ≫= flt_label = Some l -> l <> "" ->
                 exists lb, lb ∈ issue_labels issue /\ label_name lb = l).
  { subst issues3. destruct (filters ≫= flt_label) as [l|] eqn:El; simpl in Hr.
    - destruct (String.eqb l "") eqn:E0.
      + apply String.eqb_eq in E0. split; [done|]. intros l' [= <-]. done.
      + apply list_elem_of_filter in Hr as [Hl Hr]. split; [done|].
        intros l' [= <-] _. unfold hasLabel in Hl.
        apply existsb_exists in Hl as (lb & Hlb & Heq).
        exists lb. split; [by apply list_elem_of_In|by apply String.eqb_eq].
    - split; [done|]. intros ? [=]. }
  destruct H3 as [H2 Hlabel].
  assert (H1 : issue ∈ issues1 /\
               forall a, filters ≫= flt_assignee = Some a -> a <> "" ->
                 a ∈ issue_assignees issue).
  { subst issues2. destruct (filters ≫= flt_assignee) as [a|] eqn:Ea; simpl in H2.
    - destruct (String.eqb a "") eqn:E0.
      + apply String.eqb_eq in E0. split; [done|]. intros a' [= <-]. done.
      + apply list_elem_of_filter in H2 as [Ha H2]. split; [done|].
        intros a' [= <-] _. unfold arrayIncludes in Ha.
        apply existsb_exists in Ha as (x & Hx & Heq).
        apply String.eqb_eq in Heq. subst x. by apply list_elem_of_In.
    - split; [done|]. intros ? [=]. }
  destruct H1 as [H1 Hassignee].
  assert (H0 : issue ∈ issuesOf db repoId /\
               forall s, filters ≫= flt_state = Some s -> issue_state issue = s).
  { subst issues1. destruct (filters ≫= flt_state) as [s|] eqn:Es.
    - apply list_elem_of_filter in H1 as [Hs H1]. split; [done|]. by intros s' [= <-].
    - split; [done|]. intros ? [=]. }
  destruct H0 as [H0 Hstate].
  apply list_elem_of_filter in H0 as [Hrepo Hdb]. done.
Qed.

(** X6. [searchIssues] returns, newest first, exactly the issues of the
    repository whose title or body mentions the query, whatever the case of
    the letters of the query; the empty query returns every issue of the
    repository. *)
Theorem searchIssues_matches db repoId query :
  StronglySorted newestFirst (searchIssues getTime db repoId query) /\
  searchIssues getTime db repoId query ≡ₚ
    filter (fun issue => mentions (toLowerCase query) issue = true) (issuesOf db repoId) /\
  searchIssues getTime db repoId "" ≡ₚ issuesOf db repoId.
Proof.
  unfold searchIssues. split; [apply byUpdatedAt_sorted|]. split.
  - apply arraySort_perm.
  - rewrite arraySort_perm. simpl. rewrite filter_all; [done|].
    apply Forall_forall. intros issue _. unfold mentions.
    by rewrite includes_empty.
Qed.

(** X7. The statistics of [getSyncStats] agree with each other: the total
    is the sum of the open and the closed issues; a time of last sync is
    reported exactly when the repository has issues, and it is then that of
    an issue of the repository that no other issue is younger than. *)
Theorem getSyncStats_consistent db repoId :
  let stats := getSyncStats getTime db repoId in
  stats_totalIssues stats = stats_openIssues stats + stats_closedIssues stats /\
  (stats_lastSynced stats = None <-> stats_totalIssues stats = 0) /\
  (forall t, stats_lastSynced stats = Some t ->
     exists issue, issue ∈ issuesOf db repoId /\ issue_lastSynced issue = t /\
       Forall (fun other => newestFirst issue other) (issuesOf db repoId)).
Proof.
  intros stats. subst stats. unfold getSyncStats. simpl.
  split; [apply counts_add_up|].
  unfold getIssues. simpl.
  change (truncate 1) with 1%Z. rewrite slice0_nonneg by lia.
  change (Z.to_nat 1) with 1.
  pose proof (byUpdatedAt_sorted (issuesOf db repoId)) as Hs.
  pose proof (arraySort_perm (byUpdatedAt getTime) (issuesOf db repoId)) as Hp.
  destruct (arraySort (byUpdatedAt getTime) (issuesOf db repoId)) as [|x l] eqn:E.
  - apply Permutation_nil_l in Hp. rewrite <- Hp. simpl. split; [done|]. by intros t.
  - simpl. split.
    + split; [done|]. intros H0. apply Permutation_length in Hp. simpl in Hp. lia.
    + intros t [= <-]. exists x. split; [rewrite <- Hp; left|]. split; [done|].
      apply StronglySorted_inv in Hs as [_ Hx].
      rewrite <- Hp. constructor; [lia|done].
Qed.
End Queries.

End StoreFacts.
(** ** Strings and paths *)

Module TextFacts.
Import JS Text.

Lemma append_cons c s t : String.append (String c s) t = String c (String.append s t).
Proof. reflexivity. Qed.

Lemma append_nil_l s : String.append "" s = s.
Proof. reflexivity. Qed.

Lemma append_nil_r s : String.append s "" = s.
Proof. induction s as [|c s IH]; [done|by rewrite append_cons, IH]. Qed.

Lemma append_assoc s t u :
  String.append (String.append s t) u = String.append s (String.append t u).
Proof. induction s as [|c s IH]; [done|by rewrite !append_cons, IH]. Qed.

Lemma length_append s t :
  String.length (String.append s t) = String.length s + String.length t.
Proof. induction s as [|c s IH]; [done|rewrite append_cons; simpl; by rewrite IH]. Qed.

Lemma prefix_append s t : String.prefix s (String.append s t) = true.
Proof.
  induction s as [|c s IH]; [by destruct t|]. rewrite append_cons. simpl.
  by destruct (ascii_dec c c).
Qed.

Lemma hasChar_append c s t : hasChar c (String.append s t) = hasChar c s || hasChar c t.
Proof.
  induction s as [|d s IH]; [done|]. rewrite append_cons. simpl.
  rewrite IH. by destruct (Ascii.eqb d c).
Qed.

Section Split.
Variable sep : ascii.

Lemma splitAux_nonempty cur s : splitAux sep cur s <> [].
Proof.
  revert cur. induction s as [|c s IH]; intros cur; simpl; [done|].
  destruct (Ascii.eqb c sep); [done|apply IH].
Qed.

Lemma join_cons x l :
  l <> [] -> join (String sep "") (x :: l) =
             String.append x (String.append (String sep "") (join (String sep "") l)).
Proof. by destruct l. Qed.

(** Joining the pieces of a split gives the string back. *)
Lemma join_splitAux cur s :
  join (String sep "") (splitAux sep cur s) = String.append cur s.
Proof.
  revert cur. induction s as [|c s IH]; intros cur; simpl.
  - by rewrite append_nil_r.
  - destruct (Ascii.eqb c sep) eqn:E.
    + apply Ascii.eqb_eq in E. subst c.
      rewrite join_cons by apply splitAux_nonempty. by rewrite IH.
    + rewrite IH, append_assoc. done.
Qed.

Lemma join_snoc l x :
  l <> [] -> join (String sep "") (l ++ [x]) =
             String.append (join (String sep "") l) (String.append (String sep "") x).
Proof.
  induction l as [|y l IH]; [done|]. intros _. destruct l as [|z l].
  - done.
  - change ((y :: z :: l) ++ [x]) with (y :: ((z :: l) ++ [x])).
    rewrite join_cons by done. rewrite IH by done.
    rewrite (join_cons y (z :: l)) by done. by rewrite !append_assoc.
Qed.

Lemma splitAux_plain cur s :
  hasChar sep s = false -> splitAux sep cur s = [String.append cur s].
Proof.
  revert cur. induction s as [|c s IH]; intros cur; simpl.
  - by rewrite append_nil_r.
  - destruct (Ascii.eqb c sep); [done|]. simpl. intros Hs.
    by rewrite IH, append_assoc.
Qed.

Lemma splitAux_several cur s :
  hasChar sep s = true -> 2 <= length (splitAux sep cur s).
Proof.
  revert cur. induction s as [|c s IH]; intros cur; simpl; [done|].
  destruct (Ascii.eqb c sep); simpl.
  - intros _. pose proof (splitAux_nonempty "" s) as Hne.
    destruct (splitAux sep "" s); [done|simpl; lia].
  - apply IH.
Qed.

Lemma splitAux_pieces cur s :
  hasChar sep cur = false -> Forall (fun p => hasChar sep p = false) (splitAux sep cur s).
Proof.
  revert cur. induction s as [|c s IH]; intros cur Hcur; simpl.
  - by constructor.
  - destruct (Ascii.eqb c sep) eqn:E.
    + constructor; [done|]. by apply IH.
    + apply IH. rewrite hasChar_append, Hcur. simpl. by rewrite E.
Qed.

Lemma splitAux_append cur s t :
  hasChar sep s = false ->
  splitAux sep cur (String.append s (String sep t)) =
  String.append cur s :: splitAux sep "" t.
Proof.
  revert cur. induction s as [|c s IH]; intros cur.
  - intros _. simpl. by rewrite Ascii.eqb_refl, append_nil_r.
  - rewrite append_cons. simpl. destruct (Ascii.eqb c sep); [done|]. simpl.
    intros Hs. by rewrite IH, append_assoc.
Qed.

End Split.

End TextFacts.
(** ** The file sync orchestrator, end to end *)

Module FileSyncMore.
Import JS Text TextFacts GithubDb GithubDbFacts Runtime Types Integrations FileSync.
Import Listings StoreQueries StoreFacts.

Lemma joinSlash_splitSlash path : joinSlash (splitSlash path) = path.
Proof. apply (join_splitAux "/"%char "" path). Qed.

Lemma path_parts path :
  hasChar "/" (getFileName path) = false /\
  path = (if hasChar "/" path
          then String.append (getParentPath path)
                 (String.append "/" (getFileName path))
          else getFileName path) /\
  (hasChar "/" path = false -> getParentPath path = "").
Proof.
  unfold getFileName, getParentPath. cbv zeta.
  pose proof (joinSlash_splitSlash path) as Hjoin.
  pose proof (splitAux_nonempty "/"%char "" path) as Hne.
  pose proof (splitAux_pieces "/"%char "" path eq_refl) as Hpieces.
  destruct (hasChar "/" path) eqn:Hs.
  - pose proof (splitAux_several "/"%char "" path Hs) as Hlen.
    fold (splitOn "/"%char path) in *. fold (splitSlash path) in *.
    set (parts := splitSlash path) in *.
    pose proof (app_removelast_last "" Hne) as Hparts.
    split; [|split; [|done]].
    + rewrite Forall_forall in Hpieces. apply Hpieces.
      rewrite Hparts at 2. apply elem_of_app. right. left.
    + rewrite <- Hjoin at 1. rewrite Hparts at 1.
      assert (Hinit : removelast parts <> []).
      { intros E. rewrite E in Hparts. rewrite Hparts in Hlen. simpl in Hlen. lia. }
      unfold joinSlash. rewrite (join_snoc "/"%char) by done.
      destruct (Nat.leb (List.length parts) 1) eqn:E; [apply Nat.leb_le in E; lia|done].
  - unfold splitSlash, splitOn in *. rewrite (splitAux_plain "/"%char "" path Hs) in *.
    simpl. rewrite append_nil_l. by rewrite Hs.
Qed.

(** X8. A path is put together again from what [getParentPath] and
    [getFileName] make of it: with a slash in it, it is the parent path, a
    slash and the name; without, it is the name and the parent path is
    empty. The name never contains a slash. *)
Theorem path_recomposed path :
  hasChar "/" (getFileName path) = false /\
  path = (if hasChar "/" path
          then String.append (getParentPath path)
                 (String.append "/" (getFileName path))
          else getFileName path) /\
  (hasChar "/" path = false -> getParentPath path = "").
Proof. apply path_parts. Qed.

(** The parent path of an entry that is not a root item is a strict prefix
    of its path. *)
Lemma getParentPath_prefix path :
  isRootParent (getParentPath path) = false ->
  getParentPath path <> path /\ String.prefix (getParentPath path) path = true.
Proof.
  intros Hroot. destruct (path_parts path) as (_ & Hpath & Hplain).
  destruct (hasChar "/" path) eqn:Hs.
  - split.
    + intros E. rewrite E in Hpath. apply (f_equal String.length) in Hpath.
      rewrite !length_append in Hpath. simpl in Hpath. lia.
    + rewrite Hpath at 2. apply prefix_append.
  - rewrite Hplain in Hroot by done. done.
Qed.

Lemma toFile_repoId now repoId l :
  Forall (fun f => file_repoId f = repoId) (map (toFile now repoId) l).
Proof. apply Forall_forall. intros f Hf. by apply list_elem_of_fmap in Hf as (i & -> & _). Qed.

Lemma toFile_paths now repoId l : map file_path (map (toFile now repoId) l) = map ti_path l.
Proof. rewrite map_map. done. Qed.

(** The entries made of a closed listing keep the parent-prefix invariant. *)
Lemma closedListing_parentPrefix now repoId l :
  closedListing l ->
  uniquePaths (map (toFile now repoId) l) /\ parentPrefix (map (toFile now repoId) l).
Proof.
  intros [Hnodup Hdirs]. split.
  { unfold uniquePaths. by rewrite toFile_paths. }
  intros e He Hroot. apply list_elem_of_fmap in He as (item & -> & Hitem).
  simpl in *. destruct (getParentPath_prefix _ Hroot) as [Hne Hpre].
  split; [done|]. split; [done|].
  destruct (Hdirs item Hitem Hroot) as (d & Hd & Hty & Hp).
  exists (toFile now repoId d). split; [by apply list_elem_of_fmap_2|].
  simpl. by rewrite Hty.
Qed.

Section Run.
Variable octokit : Octokit.
Variable repo : GitHubRepository.

Abbreviation repoId := (toString (gr_id repo)).
Abbreviation treeRequest :=
  (mkGetTreeParams (splitSlash (gr_full_name repo) !! 0%nat)
     (splitSlash (gr_full_name repo) !! 1%nat) (gr_default_branch repo) "true").
Abbreviation itemEvents total completed items :=
  (imap (fun i item =>
           mkSyncProgress total (S (completed + i)) (ti_path item) st_syncing None)
        items).

(** The loop over the items, in closed form. *)
Lemma processItems_run id total items files completed w :
  processItems id total items files completed w =
  (Returned (files ++ map (toFile (now w) id) items),
   withSyncEvents w (syncEvents w ++ itemEvents total completed items)).
Proof.
  revert files completed w.
  induction items as [|item items IH]; intros files completed w.
  - simpl. unfold ret. rewrite !app_nil_r. by destruct w.
  - simpl. unfold bind at 1, get. unfold bind at 1, onProgress, modify.
    rewrite IH. simpl. rewrite <- !app_assoc. simpl.
    do 3 f_equal. rewrite Nat.add_0_r. f_equal.
    apply imap_ext. intros i x _. simpl. do 2 f_equal. lia.
Qed.

(** A sync whose tree request is answered, in closed form. *)
Lemma syncRepository_run w items :
  git_getTree octokit (length (requests w)) treeRequest = Data items ->
  let tree := map toTreeItem items in
  let saved :=
    {| repo_id := repoId; repo_name := gr_name repo;
       repo_fullName := gr_full_name repo;
       repo_defaultBranch := gr_default_branch repo;
       repo_lastSynced := now w; repo_totalFiles := 0;
       repo_syncStatus := syncing |} in
  exists w',
    syncRepository octokit repo w = (Returned tt, w') /\
    store w' =
      updateRepoSyncStatus
        (saveFiles (saveRepo (store w) saved) repoId (map (toFile (now w) repoId) tree))
        repoId completed (Some (Z.of_nat (length tree))) (now w) /\
    syncEvents w' =
      syncEvents w ++
      mkSyncProgress (length tree) 0 "Starting sync..." st_syncing None ::
      itemEvents (length tree) 0 tree ++
      [mkSyncProgress (length tree) (length tree) "Sync completed!" st_completed None] /\
    requests w' = requests w ++ [GetTree treeRequest].
Proof.
  intros Htree tree saved.
  unfold syncRepository, tryCatch at 1, bind at 1, modify at 1.
  unfold bind at 1, getRepositoryTree, tryCatch at 1, bind at 1, call at 1.
  simpl requests. rewrite Htree. unfold ret at 1.
  unfold bind at 1, onProgress at 1, modify at 1.
  unfold bind at 1. rewrite processItems_run.
  unfold bind, modify, onProgress. simpl.
  eexists. split; [reflexivity|]. simpl. fold tree.
  rewrite length_map. split; [done|]. split; [|done].
  by rewrite <- !app_assoc.
Qed.
End Run.

Lemma synced_files (db : GitHubDatabase) saved id fs status total now :
  Forall (fun f => file_repoId f = id) fs ->
  filter (fun f => file_repoId f = id)
    (files (updateRepoSyncStatus (saveFiles (saveRepo db saved) id fs) id status total now))
  = fs.
Proof.
  intros Hfs. simpl. rewrite filter_app, list_filter_filter.
  rewrite filter_none by (by intros f [? ?]). by rewrite filter_all.
Qed.

Lemma other_files (db : GitHubDatabase) saved id fs status total now other :
  other <> id -> Forall (fun f => file_repoId f = id) fs ->
  filter (fun f => file_repoId f = other)
    (files (updateRepoSyncStatus (saveFiles (saveRepo db saved) id fs) id status total now))
  = filter (fun f => file_repoId f = other) (files db).
Proof.
  intros Hne Hfs. simpl. rewrite filter_app, list_filter_filter.
  rewrite (filter_nothing _ fs).
  - rewrite app_nil_r. apply list_filter_iff. intros f. split; [by intros [? _]|].
    intros <-. done.
  - eapply Forall_impl; [exact Hfs|]. intros f Hf. simpl. congruence.
Qed.

(** X9. A sync whose tree request is answered returns normally. The record
    of the repository is then marked [completed] and counts the items of
    the listing, [isRepositorySynced] holds, the rows of the repository are
    the entries made of the listing, in its order, and the observer has
    seen one event at the start, one for every item and one at the end. *)
Theorem syncRepository_success octokit repo w items :
  let parts := splitSlash (gr_full_name repo) in
  let repoId := toString (gr_id repo) in
  let n := length items in
  git_getTree octokit (length (requests w))
    (mkGetTreeParams (parts !! 0%nat) (parts !! 1%nat) (gr_default_branch repo) "true")
    = Data items ->
  exists w',
    syncRepository octokit repo w = (Returned tt, w') /\
    getRepoSyncStatus (store w') repoId =
      Some {| repo_id := repoId; repo_name := gr_name repo;
              repo_fullName := gr_full_name repo;
              repo_defaultBranch := gr_default_branch repo;
              repo_lastSynced := now w; repo_totalFiles := Z.of_nat n;
              repo_syncStatus := completed |} /\
    isRepositorySynced (store w') repoId = true /\
    filter (fun f => file_repoId f = repoId) (files (store w')) =
      map (toFile (now w) repoId) (map toTreeItem items) /\
    length (syncEvents w') = length (syncEvents w) + n + 2 /\
    List.last (syncEvents w') (mkSyncProgress 0 0 "" st_error None) =
      mkSyncProgress n n "Sync completed!" st_completed None.
Proof.
  intros parts repoId n Htree.
  destruct (syncRepository_run octokit repo w items Htree) as (w' & Hrun & Hstore & Hev & _).
  exists w'. split; [done|].
  assert (Hrec : getRepoSyncStatus (store w') repoId =
      Some {| repo_id := repoId; repo_name := gr_name repo;
              repo_fullName := gr_full_name repo;
              repo_defaultBranch := gr_default_branch repo;
              repo_lastSynced := now w; repo_totalFiles := Z.of_nat n;
              repo_syncStatus := completed |}).
  { rewrite Hstore. unfold getRepoSyncStatus, updateRepoSyncStatus, saveFiles, saveRepo.
    simpl. rewrite lookup_alter_eq, lookup_insert_eq. simpl.
    by rewrite length_map. }
  split; [done|]. split.
  { unfold isRepositorySynced. by rewrite Hrec. }
  split.
  { rewrite Hstore. apply synced_files, toFile_repoId. }
  rewrite Hev. split.
  - rewrite length_app. simpl. rewrite length_app, length_imap, length_map. simpl.
    subst n. lia.
  - rewrite app_comm_cons, app_assoc, last_last. by rewrite length_map.
Qed.

Lemma filesAt_repo db r p :
  filesAt db r p =
  filter (fun f => file_path f = p) (filter (fun f => file_repoId f = r) (files db)).
Proof.
  unfold filesAt. rewrite list_filter_filter. apply list_filter_iff.
  intros f. tauto.
Qed.

(** X10. Sync, then read the tree. When the listing is closed and the
    collation of the host puts every directory before the items in it, the
    tree that [getFileTree] builds from the store after the sync shows every
    path of the listing and no other, and the [children] of every directory
    node are the entries of that directory, in the order of the sort. *)
Theorem syncRepository_then_getFileTree `{CollationLaws} octokit repo w items :
  let parts := splitSlash (gr_full_name repo) in
  let repoId := toString (gr_id repo) in
  git_getTree octokit (length (requests w))
    (mkGetTreeParams (parts !! 0%nat) (parts !! 1%nat) (gr_default_branch repo) "true")
    = Data items ->
  closedListing (map toTreeItem items) ->
  directoriesFirst (map toTreeItem items) ->
  exists w' forest,
    syncRepository octokit repo w = (Returned tt, w') /\
    getFileTree (store w') repoId = Some forest /\
    (forall p, p ∈ concat (map flattenPaths forest) <->
               p ∈ map ti_path (map toTreeItem items)) /\
    childrenMatch forest
      (sortFiles localeCompare (map (toFile (now w) repoId) (map toTreeItem items))).
Proof.
  intros parts repoId Htree Hclosed Hdirs.
  destruct (syncRepository_run octokit repo w items Htree) as (w' & Hrun & Hstore & _).
  set (fs := map (toFile (now w) repoId) (map toTreeItem items)).
  destruct (closedListing_parentPrefix (now w) repoId _ Hclosed) as [Huniq Hprefix].
  fold fs in Huniq, Hprefix.
  assert (Hfirst : parentsSortFirst localeCompare fs).
  { intros e He Hr. destruct (Hprefix e He Hr) as (_ & _ & d & Hd & Hdir & Hp).
    exists d. repeat split; try done. rewrite Hp.
    apply list_elem_of_fmap in He as (item & -> & Hitem). simpl in *.
    by apply Hdirs. }
  destruct (forest_total localeCompare fs) as [forest Hforest].
  exists w', (map erase forest). split; [done|]. split.
  { unfold getFileTree. rewrite Hstore, synced_files by apply toFile_repoId.
    unfold buildFileTree, buildFileTreeWith. subst fs repoId. by rewrite Hforest. }
  split.
  - intros p. rewrite <- (toFile_paths (now w) repoId). fold fs.
    apply (forest_samePathSet localeCompare collation_opp collation_trans
             fs Huniq Hfirst forest Hforest).
  - apply (forest_childrenMatch localeCompare collation_opp collation_trans
             fs Huniq Hfirst forest Hforest).
Qed.

(** X11. A sync replaces the rows of the repository: afterwards the store
    has a row at a path exactly when the listing has that path, and no row
    of the repository holds a cached content any more. *)
Theorem syncRepository_drops_contents octokit repo w items p :
  let parts := splitSlash (gr_full_name repo) in
  let repoId := toString (gr_id repo) in
  git_getTree octokit (length (requests w))
    (mkGetTreeParams (parts !! 0%nat) (parts !! 1%nat) (gr_default_branch repo) "true")
    = Data items ->
  exists w',
    syncRepository octokit repo w = (Returned tt, w') /\
    getFileContent (store w') repoId p = None /\
    (getFile (store w') repoId p = None <-> p ∉ map ti_path (map toTreeItem items)).
Proof.
  intros parts repoId Htree.
  destruct (syncRepository_run octokit repo w items Htree) as (w' & Hrun & Hstore & _).
  exists w'. split; [done|].
  unfold getFileContent, getFile. rewrite filesAt_repo, Hstore.
  rewrite synced_files by apply toFile_repoId.
  subst repoId.
  set (fs := map (toFile (now w) (toString (gr_id repo))) (map toTreeItem items)).
  destruct (filter (fun f => file_path f = p) fs) as [|f l] eqn:E; simpl.
  - split; [done|]. split; [|done]. intros _ Hin.
    rewrite <- (toFile_paths (now w) (toString (gr_id repo))) in Hin. fold fs in Hin.
    apply list_elem_of_fmap in Hin as (f & -> & Hf).
    assert (Hx : f ∈ filter (fun g => file_path g = file_path f) fs)
      by by apply list_elem_of_filter.
    rewrite E in Hx. by apply elem_of_nil in Hx.
  - assert (Hf : f ∈ filter (fun g => file_path g = p) fs) by (rewrite E; left).
    apply list_elem_of_filter in Hf as [Hp Hf].
    split.
    + subst fs. by apply list_elem_of_fmap in Hf as (item & -> & _).
    + split; [done|]. intros Hnot. exfalso. apply Hnot.
      rewrite <- (toFile_paths (now w) (toString (gr_id repo))). fold fs.
      apply list_elem_of_fmap. by exists f.
Qed.

(** X12. A sync of one repository leaves every other repository alone: its
    record, its tree, its rows with their cached contents; and no issue
    is touched. *)
Theorem syncRepository_frame `{Collation} octokit repo w items other :
  let parts := splitSlash (gr_full_name repo) in
  let repoId := toString (gr_id repo) in
  git_getTree octokit (length (requests w))
    (mkGetTreeParams (parts !! 0%nat) (parts !! 1%nat) (gr_default_branch repo) "true")
    = Data items ->
  other <> repoId ->
  exists w',
    syncRepository octokit repo w = (Returned tt, w') /\
    getRepoSyncStatus (store w') other = getRepoSyncStatus (store w) other /\
    getFileTree (store w') other = getFileTree (store w) other /\
    (forall p, getFile (store w') other p = getFile (store w) other p) /\
    issues (store w') = issues (store w).
Proof.
  intros parts repoId Htree Hne.
  destruct (syncRepository_run octokit repo w items Htree) as (w' & Hrun & Hstore & _).
  exists w'. split; [done|]. split; [|split; [|split]].
  - rewrite Hstore. unfold getRepoSyncStatus, updateRepoSyncStatus, saveFiles, saveRepo.
    simpl. rewrite lookup_alter_ne by done. by rewrite lookup_insert_ne.
  - unfold getFileTree. rewrite Hstore.
    by rewrite other_files by (done || apply toFile_repoId).
  - intros p. unfold getFile. rewrite !filesAt_repo, Hstore.
    by rewrite other_files by (done || apply toFile_repoId).
  - by rewrite Hstore.
Qed.

Lemma smallListing_closed : closedListing (map toTreeItem smallListing).
Proof.
  split; [by apply (bool_decide_unpack _)|].
  intros item Hitem Hroot. simpl in Hitem.
  repeat (apply elem_of_cons in Hitem as [->|Hitem]);
    [..|by apply elem_of_nil in Hitem]; try discriminate Hroot.
  exists (toTreeItem (rawItem "src" ty_tree)). split; [|done].
  simpl. right. left.
Defined.

Lemma smallListing_directoriesFirst :
  @directoriesFirst codeUnitOrder (map toTreeItem smallListing).
Proof.
  intros item Hitem Hroot. simpl in Hitem.
  repeat (apply elem_of_cons in Hitem as [->|Hitem]);
    [..|by apply elem_of_nil in Hitem]; try discriminate Hroot.
  reflexivity.
Defined.

Lemma syncRepository_success_witness :
  exists w',
    syncRepository (serving smallListing) demoRepository usedWorld = (Returned tt, w') /\
    isRepositorySynced (store w') "7" = true /\
    length (syncEvents w') = 5.
Proof.
  destruct (syncRepository_success (serving smallListing) demoRepository usedWorld
              smallListing eq_refl) as (w' & Hrun & _ & Hsynced & _ & Hlen & _).
  exists w'. split; [exact Hrun|]. split; [exact Hsynced|exact Hlen].
Defined.

Lemma syncRepository_then_getFileTree_witness :
  exists w' forest,
    syncRepository (serving smallListing) demoRepository usedWorld = (Returned tt, w') /\
    @getFileTree codeUnitOrder (store w') "7" = Some forest /\
    (forall p, p ∈ concat (map flattenPaths forest) <->
               p ∈ ["README.md"; "src"; "src/a.ts"]).
Proof.
  destruct (@syncRepository_then_getFileTree codeUnitOrder codeUnitOrder_laws
              (serving smallListing) demoRepository
              usedWorld smallListing eq_refl smallListing_closed
              smallListing_directoriesFirst)
    as (w' & forest & Hrun & Htree & Hpaths & _).
  exists w', forest. split; [exact Hrun|]. split; [exact Htree|exact Hpaths].
Defined.

Lemma syncRepository_drops_contents_witness :
  exists w',
    syncRepository (serving smallListing) demoRepository usedWorld = (Returned tt, w') /\
    getFileContent (store usedWorld) "7" "old.txt" = Some "stale" /\
    getFileContent (store w') "7" "old.txt" = None.
Proof.
  destruct (syncRepository_drops_contents (serving smallListing) demoRepository
              usedWorld smallListing "old.txt" eq_refl) as (w' & Hrun & Hnone & _).
  exists w'. split; [exact Hrun|]. split; [reflexivity|exact Hnone].
Defined.

Lemma syncRepository_frame_witness :
  exists w',
    syncRepository (serving smallListing) demoRepository usedWorld = (Returned tt, w') /\
    getFile (store w') "8" "notes.txt" = Some otherFile.
Proof.
  destruct (@syncRepository_frame codeUnitOrder (serving smallListing) demoRepository usedWorld
              smallListing "8" eq_refl) as (w' & Hrun & _ & _ & Hfile & _).
  - discriminate.
  - exists w'. split; [exact Hrun|]. rewrite Hfile. reflexivity.
Defined.

End FileSyncMore.
(** ** The issue sync orchestrator: more of its runs *)

Module IssuesSyncMore.
Import JS JSFacts Text GithubDb Runtime Types Integrations IssuesSync IssuesSyncFacts.
Import StoreQueries StoreFacts.

Section Runs.
Variable octokit : Octokit.
Variable repo : GitHubRepository.

Abbreviation repoId := (toString (gr_id repo)).
Abbreviation owner := (splitSlash (gr_full_name repo) !! 0%nat).
Abbreviation name := (splitSlash (gr_full_name repo) !! 1%nat).
Abbreviation started w :=
  (let p := mkIssuesSyncProgress repoId (gr_name repo) 1 1 0 0 open st_starting None in
   withIssuesEvents (withProgress w p) (issuesEvents w ++ [p])).
Abbreviation finished all w :=
  (let w1 := withStore w (saveIssues (store w) repoId all) in
   let w2 := withProgress w1 (setCompleted (length all) (progress w1)) in
   withIssuesEvents w2 (issuesEvents w2 ++ [progress w2])).
Abbreviation failed A e w :=
  (let w1 := withProgress w (setError (err_message e) (progress w)) in
   (@Thrown A e, withIssuesEvents w1 (issuesEvents w1 ++ [progress w1]))).

(** A sync, as the two fetches it is made of. *)
Lemma syncRepositoryIssues_unfold fuel options w :
  let syncOpen := default true (opt_syncOpen options) in
  let syncClosed := default false (opt_syncClosed options) in
  let maxIssues := default (100 : Q) (opt_maxIssues options) in
  syncRepositoryIssues octokit fuel repo options w =
  match (if syncOpen
         then syncOne octokit fuel owner name repoId open
                (maxIssues / (if syncClosed then 2 else 1)) (started w)
         else (Returned [], started w)) with
  | (Returned openIssues, w1) =>
      match (if syncClosed
             then syncOne octokit fuel owner name repoId closed (maxIssues / 2) w1
             else (Returned [], w1)) with
      | (Returned closedIssues, w2) => (Returned tt, finished (openIssues ++ closedIssues) w2)
      | (Thrown e, w2) => failed unit e w2
      | (Diverged, w2) => (Diverged, w2)
      end
  | (Thrown e, w1) => failed unit e w1
  | (Diverged, w1) => (Diverged, w1)
  end.
Proof.
  intros syncOpen syncClosed maxIssues.
  unfold syncRepositoryIssues. fold syncOpen syncClosed maxIssues.
  unfold bind at 1, setProgress at 1, modify at 1, tryCatch.
  unfold bind at 1, updateProgress at 1, modify at 1.
  unfold bind at 1.
  destruct syncOpen.
  - destruct (syncOne octokit fuel owner name repoId open _ _) as [[openIssues|e|] w1];
      [|done|done].
    unfold bind at 1. destruct syncClosed.
    + destruct (syncOne octokit fuel owner name repoId closed _ _) as [[closedIssues|e|] w2];
        done.
    + done.
  - unfold ret at 1. unfold bind at 1. destruct syncClosed.
    + destruct (syncOne octokit fuel owner name repoId closed _ _) as [[closedIssues|e|] w2];
        done.
    + done.
Qed.
End Runs.

Section Fetches.
Variable octokit : Octokit.

(** The pagination loop touches neither the store nor the clock, and
    puts no error message into the progress, however it ends. *)
Lemma paginate_store fuel owner name state q perPage issues page w :
  let w' := snd (paginate octokit fuel owner name state q perPage issues page w) in
  store w' = store w /\ now w' = now w /\
  ip_error (progress w') = ip_error (progress w).
Proof.
  revert issues page w. induction fuel as [|fuel IH]; intros issues page w.
  - rewrite paginate_unfold. by destruct (Qltb _ _).
  - rewrite paginate_unfold. destruct (Qltb _ _); [|done].
    unfold bind. rewrite iteration_run. cbv zeta.
    destruct (Nat.eqb _ 0); [done|].
    destruct (Qltb _ perPage); [done|].
    match goal with |- context [paginate _ _ _ _ _ _ _ ?acc ?pn ?w0] =>
      destruct (IH acc pn w0) as (Hs & Hn & He) end.
    by rewrite Hs, Hn, He.
Qed.

Lemma syncOne_store fuel owner name id state q w :
  let r := syncOne octokit fuel owner name id state q w in
  store (snd r) = store w /\ now (snd r) = now w /\
  ip_error (progress (snd r)) = ip_error (progress w) /\
  forall l, fst r = Returned l -> Forall (fun i => issue_repoId i = id) l.
Proof.
  unfold syncOne, bind, setProgress, updateProgress, modify, get, ret.
  unfold fetchIssuesWithPagination.
  match goal with |- context [paginate _ _ _ _ _ _ _ ?acc ?pn ?w0] =>
    destruct (paginate_store fuel owner name state q (mathMin 100 q) acc pn w0)
      as (Hs & Hn & He);
    destruct (paginate octokit fuel owner name state q (mathMin 100 q) acc pn w0)
      as [[fetched|e|] w1]
  end; simpl in *; (split; [done|]); (split; [done|]); (split; [done|]);
    intros l [= <-].
  apply converted_repoId.
Qed.

(** When the listing endpoint fails, a fetch ends with nothing. *)
Lemma syncOne_down fuel owner name id state q w :
  (forall n p, exists e, issues_listForRepo octokit n p = Failure e) ->
  fst (syncOne octokit (S fuel) owner name id state q w) = Returned [].
Proof.
  intros Hdown.
  unfold syncOne, bind at 1 2, setProgress, updateProgress, modify.
  unfold bind at 1, fetchIssuesWithPagination.
  rewrite paginate_unfold. destruct (Qltb _ q); [|done].
  unfold bind at 1. rewrite iteration_run. cbv zeta.
  unfold nextPage at 1.
  match goal with |- context [issues_listForRepo octokit ?n ?p] =>
    destruct (Hdown n p) as [e ->] end.
  done.
Qed.
End Fetches.

(** X13. An issue sync changes nothing but the issues of its repository:
    however the call ends, and whatever the options, the files, the
    records and the issues of every other repository are as before. *)
Theorem syncRepositoryIssues_frame octokit fuel repo options w other :
  other <> toString (gr_id repo) ->
  let w' := snd (syncRepositoryIssues octokit fuel repo options w) in
  files (store w') = files (store w) /\
  repos (store w') = repos (store w) /\
  issuesOf (store w') other = issuesOf (store w) other.
Proof.
  intros Hne w'. subst w'. rewrite syncRepositoryIssues_unfold. cbv zeta.
  match goal with |- context [if default true _ then ?run else (?r, ?w0)] =>
    assert (Hopen : store (snd (if default true (opt_syncOpen options)
                                then run else (r, w0))) = store w /\
                    forall l, fst (if default true (opt_syncOpen options)
                                   then run else (r, w0)) = Returned l ->
                      Forall (fun i => issue_repoId i = toString (gr_id repo)) l);
    [destruct (default true _); [|split; [done|by intros l [= <-]]];
     match goal with |- context [syncOne _ _ ?o ?n ?i ?s ?q w0] =>
       by destruct (syncOne_store octokit fuel o n i s q w0) as (-> & _ & _ & ?) end|];
    destruct (if default true (opt_syncOpen options) then run else (r, w0))
      as [[openIssues|e|] w1]
  end; destruct Hopen as [Hopen Ho]; simpl in Hopen; [|simpl; by rewrite Hopen..].
  specialize (Ho _ eq_refl).
  match goal with |- context [if ?c then ?run else (?r, w1)] =>
    assert (Hclosed : store (snd (if c then run else (r, w1))) = store w /\
                      forall l, fst (if c then run else (r, w1)) = Returned l ->
                        Forall (fun i => issue_repoId i = toString (gr_id repo)) l);
    [destruct c; [|split; [done|by intros l [= <-]]];
     match goal with |- context [syncOne _ _ ?o ?n ?i ?s ?q w1] =>
       destruct (syncOne_store octokit fuel o n i s q w1) as (-> & _ & _ & ?); by split end|];
    destruct (if c then run else (r, w1)) as [[closedIssues|e|] w2]
  end; destruct Hclosed as [Hclosed Hc]; simpl in Hclosed; [|simpl; by rewrite Hclosed..].
  specialize (Hc _ eq_refl).
  simpl. rewrite Hclosed. split; [done|]. split; [done|].
  unfold issuesOf, saveIssues. cbn [issues]. rewrite filter_app, list_filter_filter.
  rewrite (filter_nothing _ (openIssues ++ closedIssues)).
  - rewrite app_nil_r. apply list_filter_iff. intros i. split; [by intros [? _]|].
    intros <-. done.
  - apply Forall_app. split; (eapply Forall_impl; [eassumption|]); simpl; congruence.
Qed.

Lemma issuesOf_replaced db id (new : list GitHubIssueDB) :
  Forall (fun i => issue_repoId i = id) new -> issuesOf (saveIssues db id new) id = new.
Proof.
  intros Hnew. unfold issuesOf, saveIssues. cbn [issues].
  rewrite filter_app, list_filter_filter.
  rewrite filter_none by (by intros i [? ?]). by rewrite filter_all.
Qed.

(** X14. When the listing endpoint fails, an issue sync does not fail: it
    returns normally, reports [completed] without an error message, and
    leaves the repository with no cached issue at all. *)
Theorem syncRepositoryIssues_listing_down octokit fuel repo options w :
  (forall n p, exists e, issues_listForRepo octokit n p = Failure e) ->
  exists w',
    syncRepositoryIssues octokit (S fuel) repo options w = (Returned tt, w') /\
    issuesOf (store w') (toString (gr_id repo)) = [] /\
    ip_status (progress w') = st_completed /\
    ip_error (progress w') = None.
Proof.
  intros Hdown. rewrite syncRepositoryIssues_unfold. cbv zeta.
  match goal with |- context [if default true _ then ?run else (?r, ?w0)] =>
    assert (Hopen : fst (if default true (opt_syncOpen options)
                         then run else (r, w0)) = Returned [] /\
                    ip_error (progress (snd (if default true (opt_syncOpen options)
                                             then run else (r, w0)))) = None);
    [destruct (default true _); [|done]; split; [by apply syncOne_down|];
     match goal with |- context [syncOne _ _ ?o ?n ?i ?s ?q w0] =>
       by destruct (syncOne_store octokit (S fuel) o n i s q w0) as (_ & _ & -> & _) end|];
    destruct (if default true (opt_syncOpen options) then run else (r, w0))
      as [o1 w1]
  end.
  destruct Hopen as [Hopen He1]. simpl in Hopen, He1. subst o1.
  match goal with |- context [if ?c then ?run else (?r, w1)] =>
    assert (Hclosed : fst (if c then run else (r, w1)) = Returned [] /\
                      ip_error (progress (snd (if c then run else (r, w1)))) = None);
    [destruct c; [|done]; split; [by apply syncOne_down|];
     match goal with |- context [syncOne _ _ ?o ?n ?i ?s ?q w1] =>
       by destruct (syncOne_store octokit (S fuel) o n i s q w1) as (_ & _ & -> & _) end|];
    destruct (if c then run else (r, w1)) as [o2 w2]
  end.
  destruct Hclosed as [Hclosed He2]. simpl in Hclosed, He2. subst o2.
  eexists. split; [reflexivity|]. split.
  - simpl. by apply issuesOf_replaced.
  - simpl. done.
Qed.

(** X15. A sync with the default options makes one listing request and keeps
    what that request delivers. The request asks for fifty issues a page:
    when the answer holds no more than that, the repository ends up with
    the issues of this one answer, so with fifty at most, although the
    default budget is a hundred. *)
Theorem syncRepositoryIssues_default_one_page octokit fuel repo w :
  let repoId := toString (gr_id repo) in
  let owner := splitSlash (gr_full_name repo) !! 0%nat in
  let name := splitSlash (gr_full_name repo) !! 1%nat in
  let page := nextPage octokit owner name only_open w in
  length page <= 50 ->
  exists w',
    syncRepositoryIssues octokit (S fuel) repo (mkSyncOptions None None None) w
      = (Returned tt, w') /\
    issuesOf (store w') repoId = map (fun i => convertToDBIssue (now w) i repoId) page /\
    requests w' = requests w ++ [ListForRepo (listParams owner name only_open)].
Proof.
  intros repoId owner name page Hpage. subst repoId owner name page.
  rewrite syncRepositoryIssues_unfold. cbv zeta. simpl default. cbv iota.
  match goal with |- context [syncOne _ _ ?o ?n ?i open ?q ?w0] =>
    destruct (syncOne_run octokit fuel o n i open q 100 w0)
      as (w1 & Hrun & Hst & Hnow & Hev & Hreq); [reflexivity|lia|]
  end.
  rewrite Hrun. eexists. split; [reflexivity|]. split.
  - simpl. rewrite app_nil_r, Hst. simpl.
    rewrite issuesOf_replaced by apply converted_repoId.
    f_equal. apply take_ge. unfold nextPage in *. simpl in *. lia.
  - simpl. exact Hreq.
Qed.

(** X16. With neither state selected a sync asks the remote for nothing and
    empties the cached issues of the repository. *)
Theorem syncRepositoryIssues_nothing_selected octokit fuel repo maxIssues w :
  exists w',
    syncRepositoryIssues octokit fuel repo
      (mkSyncOptions (Some false) (Some false) maxIssues) w = (Returned tt, w') /\
    requests w' = requests w /\
    issuesOf (store w') (toString (gr_id repo)) = [] /\
    ip_status (progress w') = st_completed.
Proof.
  rewrite syncRepositoryIssues_unfold. cbv zeta. simpl default. cbv iota.
  eexists. split; [reflexivity|]. split; [done|]. split; [|done].
  simpl. by apply issuesOf_replaced.
Qed.

(** A sync with the default budget returns normally, whatever the remote
    answers. *)
Lemma syncRepositoryIssues_returns octokit fuel repo syncOpen syncClosed w :
  exists w',
    syncRepositoryIssues octokit (S fuel) repo (mkSyncOptions syncOpen syncClosed None) w
      = (Returned tt, w').
Proof.
  rewrite syncRepositoryIssues_unfold. cbv zeta. simpl opt_maxIssues.
  simpl opt_syncOpen. simpl opt_syncClosed. simpl (default (100 : Q) None).
  assert (Hopen : forall w0, exists l w1,
    (if default true syncOpen
     then syncOne octokit (S fuel) (splitSlash (gr_full_name repo) !! 0%nat)
            (splitSlash (gr_full_name repo) !! 1%nat) (toString (gr_id repo)) open
            (100 / (if default false syncClosed then 2 else 1))%Q w0
     else (Returned [], w0)) = (Returned l, w1)).
  { intros w0. destruct (default true syncOpen); [|by eexists _, _].
    destruct (default false syncClosed).
    - destruct (syncOne_run octokit fuel (splitSlash (gr_full_name repo) !! 0%nat)
                  (splitSlash (gr_full_name repo) !! 1%nat) (toString (gr_id repo))
                  open (100 / 2)%Q 50 w0) as (w1 & Hrun & _); [reflexivity|lia|].
      by eexists _, _.
    - destruct (syncOne_run octokit fuel (splitSlash (gr_full_name repo) !! 0%nat)
                  (splitSlash (gr_full_name repo) !! 1%nat) (toString (gr_id repo))
                  open (100 / 1)%Q 100 w0) as (w1 & Hrun & _); [reflexivity|lia|].
      by eexists _, _. }
  match goal with |- context [if default true _ then _ else (_, ?w0)] =>
    destruct (Hopen w0) as (l1 & w1 & ->) end.
  destruct (default false syncClosed).
  - destruct (syncOne_run octokit fuel (splitSlash (gr_full_name repo) !! 0%nat)
                (splitSlash (gr_full_name repo) !! 1%nat) (toString (gr_id repo))
                closed (100 / 2)%Q 50 w1) as (w2 & -> & _); [reflexivity|lia|].
    by eexists.
  - by eexists.
Qed.

(** X17. [syncMultipleRepositories] never fails and never hangs: for every
    list of repositories, every choice of states and every remote, it
    returns normally. The budget it is given plays no part: each
    repository is synced with the default budget. *)
Theorem syncMultipleRepositories_returns octokit fuel repositories
    syncOpen syncClosed maxIssuesPerRepo w :
  exists w',
    syncMultipleRepositories octokit (S fuel) repositories
      syncOpen syncClosed maxIssuesPerRepo w = (Returned tt, w') /\
    syncMultipleRepositories octokit (S fuel) repositories
      syncOpen syncClosed None w = (Returned tt, w').
Proof.
  unfold syncMultipleRepositories. revert w.
  induction repositories as [|repo repositories IH]; intros w.
  - by eexists.
  - simpl. unfold bind, tryCatch.
    destruct (syncRepositoryIssues_returns octokit fuel repo syncOpen syncClosed w)
      as (w1 & ->).
    destruct (IH w1) as (w' & Hrun & _). by exists w'.
Qed.

Lemma syncRepositoryIssues_frame_witness :
  let w' := snd (syncRepositoryIssues (hosting sixOpenTwentyClosed) 1 sampleRepo
                   (mkSyncOptions None (Some true) None) worldWithCache) in
  files (store w') = [] /\ issuesOf (store w') "2" = [].
Proof.
  destruct (syncRepositoryIssues_frame (hosting sixOpenTwentyClosed) 1 sampleRepo
              (mkSyncOptions None (Some true) None) worldWithCache "2")
    as (Hfiles & _ & Hissues).
  - discriminate.
  - split; [exact Hfiles|exact Hissues].
Defined.

Lemma syncRepositoryIssues_listing_down_witness :
  exists w',
    syncRepositoryIssues Listings.offline 1 sampleRepo (mkSyncOptions None None None) worldWithCache
      = (Returned tt, w') /\
    issuesOf (store worldWithCache) "1" = [cachedOpenIssue] /\
    issuesOf (store w') "1" = [].
Proof.
  destruct (syncRepositoryIssues_listing_down Listings.offline 0 sampleRepo
              (mkSyncOptions None None None) worldWithCache)
    as (w' & Hrun & Hnone & _).
  - intros n p. eexists. reflexivity.
  - exists w'. split; [exact Hrun|]. split; [reflexivity|exact Hnone].
Defined.

Lemma syncRepositoryIssues_default_one_page_witness :
  exists w',
    syncRepositoryIssues (hosting sixOpenTwentyClosed) 1 sampleRepo
      (mkSyncOptions None None None) emptyWorld = (Returned tt, w') /\
    length (issuesOf (store w') "1") = 6 /\
    length (requests w') = 1.
Proof.
  destruct (syncRepositoryIssues_default_one_page (hosting sixOpenTwentyClosed) 0
              sampleRepo emptyWorld) as (w' & Hrun & Hst & Hreq).
  - vm_compute. lia.
  - exists w'. split; [exact Hrun|].
    change (toString (gr_id sampleRepo)) with "1" in Hst. rewrite Hst, Hreq.
    split; reflexivity.
Defined.

End IssuesSyncMore.
(** ** The provider client: more of [getFileContent] *)

Module IntegrationsMore.
Import JS Text TextFacts GithubDb Runtime Types Integrations IntegrationsFacts.

Lemma splitSlash_pair owner repo :
  hasChar "/" owner = false -> hasChar "/" repo = false ->
  splitSlash (String.append owner (String.append "/" repo)) = [owner; repo].
Proof.
  intros Ho Hr. unfold splitSlash, splitOn.
  change (String.append "/" repo) with (String "/" repo).
  rewrite (splitAux_append "/"%char "" owner repo Ho).
  by rewrite (splitAux_plain "/"%char "" repo Hr).
Qed.

(** X18. The two calling conventions of [getFileContent] agree: a call with
    owner, repository, path and ref does what the call with the full name
    [owner/repository], the path and the ref does. *)
Theorem getFileContent_conventions octokit owner repo path ref w :
  hasChar "/" owner = false -> hasChar "/" repo = false -> path <> "" ->
  getFileContent octokit owner repo (Some path) (Some ref) w =
  getFileContent octokit (String.append owner (String.append "/" repo)) path
    (Some ref) None w.
Proof.
  intros Ho Hr Hp. unfold getFileContent.
  rewrite (truthy_Some path Hp). rewrite (splitSlash_pair owner repo Ho Hr). done.
Qed.

Lemma getFileContent_conventions_witness :
  getFileContent onMainOnly "acme" "app" (Some "README.md") (Some "main") freshWorld =
  getFileContent onMainOnly "acme/app" "README.md" (Some "main") None freshWorld.
Proof.
  apply (getFileContent_conventions onMainOnly "acme" "app" "README.md" "main" freshWorld).
  - reflexivity.
  - reflexivity.
  - discriminate.
Defined.

(** X19. Only a 404 sends [getFileContent] to the default branch. When the
    fetch at the ref is answered in any other way the call ends after that
    one request: with the decoded content when the answer holds a content
    that is not empty, and otherwise with an error; an empty content and an
    answer without content are reported as "File content not found". *)
Theorem getFileContent_single_attempt octokit fullName path ref w :
  let owner := splitSlash fullName !! 0%nat in
  let repo := splitSlash fullName !! 1%nat in
  let first := mkGetContentParams owner repo path (Some ref) in
  let answer := repos_getContent octokit (length (requests w)) first in
  ref <> "" ->
  (forall e, answer = Failure e -> err_status e <> Some 404%Z) ->
  getFileContent octokit fullName path (Some ref) None w =
  (match answer with
   | Data (FileData (Some c)) =>
       if String.eqb c ""
       then Thrown (mkError "Failed to fetch file content: File content not found" None)
       else Returned (base64_decode octokit c)
   | Data _ => Thrown (mkError "Failed to fetch file content: File content not found" None)
   | Failure e => Thrown (mkError (failedToFetch e) None)
   end,
   requested (GetContent first) w).
Proof.
  intros owner repo first answer Href Hnot. subst answer first owner repo.
  unfold getFileContent. cbv zeta. rewrite (truthy_Some ref Href).
  unfold tryCatch at 1, bind at 1.
  rewrite (fetchContent_run octokit fullName path ref w Href).
  destruct (repos_getContent octokit _ _) as [[[c|]|]|e]; try done.
  - by destruct (String.eqb c "").
  - specialize (Hnot e eq_refl).
    rewrite bool_decide_false by done. simpl.
    by rewrite bool_decide_false by done.
Qed.

(** X20. Whatever goes wrong, the error that [getFileContent] throws carries
    no status, and its message is either "File not found at path: ..." or
    "Failed to fetch file content: ...". *)
Theorem getFileContent_errors octokit ownerOrFullName repoOrPath pathOrRef ref w e w' :
  getFileContent octokit ownerOrFullName repoOrPath pathOrRef ref w = (Thrown e, w') ->
  err_status e = None /\
  (String.prefix "File not found at path: " (err_message e) = true \/
   String.prefix "Failed to fetch file content: " (err_message e) = true).
Proof.
  unfold getFileContent.
  destruct (match ref with Some r => _ | None => _ end) as [[[owner repo] path] refToUse].
  unfold tryCatch at 1.
  match goal with |- context [match ?m w with _ => _ end] =>
    destruct (m w) as [[content|e0|] w0] end; try done.
  destruct (bool_decide (err_status e0 = Some 404%Z)); unfold throw; intros [= <- _].
  - split; [done|]. left. apply prefix_append.
  - split; [done|]. right. apply prefix_append.
Qed.

Lemma getFileContent_errors_witness :
  let e := mkError "File not found at path: README.md (ref: abc123)" None in
  err_status e = None /\
  (String.prefix "File not found at path: " (err_message e) = true \/
   String.prefix "Failed to fetch file content: " (err_message e) = true).
Proof.
  intros e.
  apply (getFileContent_errors (hosting []) "acme/app" "README.md" (Some "abc123") None
           freshWorld e
           (snd (getFileContent (hosting []) "acme/app" "README.md" (Some "abc123") None
                   freshWorld))).
  reflexivity.
Defined.

Lemma getFileContent_single_attempt_witness :
  getFileContent Listings.offline "acme/app" "README.md" (Some "abc123") None freshWorld =
  (Thrown (mkError "Failed to fetch file content: Network Error" None),
   requested (GetContent (mkGetContentParams (Some "acme") (Some "app") "README.md"
                            (Some "abc123"))) freshWorld).
Proof.
  apply (getFileContent_single_attempt Listings.offline "acme/app" "README.md" "abc123"
           freshWorld).
  - discriminate.
  - intros e [= <-]. discriminate.
Defined.

End IntegrationsMore.
(** ** The relevance search engine: terms, windows and counts *)

Module SearchMore.
Import JS JSFacts Text TextFacts Numbers CodeContext SearchFacts.

Lemma arrayIncludes_elem a x : arrayIncludes a x = true <-> x ∈ a.
Proof.
  unfold arrayIncludes. rewrite existsb_exists. split.
  - intros (y & Hy & E). apply String.eqb_eq in E. subst y. by apply list_elem_of_In.
  - intros Hx. exists x. split; [by apply list_elem_of_In|apply String.eqb_refl].
Qed.

Lemma dedupe_spec seen a :
  NoDup (dedupe seen a) /\ forall x, x ∈ dedupe seen a -> x ∈ a /\ x ∉ seen.
Proof.
  revert seen. induction a as [|y a IH]; intros seen; simpl.
  - split; [constructor|]. intros x Hx. by apply elem_of_nil in Hx.
  - destruct (arrayIncludes seen y) eqn:E.
    + destruct (IH seen) as [Hn Hin]. split; [done|].
      intros x Hx. destruct (Hin x Hx). split; [by right|done].
    + destruct (IH (y :: seen)) as [Hn Hin]. split.
      * constructor; [|done]. intros Hy. destruct (Hin y Hy) as [_ Hnot].
        apply Hnot. left.
      * intros x Hx. apply elem_of_cons in Hx as [->|Hx].
        -- split; [left|]. intros Hs. apply arrayIncludes_elem in Hs. congruence.
        -- destruct (Hin x Hx) as [Ha Hnot]. split; [by right|].
           intros Hs. apply Hnot. by right.
Qed.

Lemma everyChar_append p s t :
  everyChar p (String.append s t) = everyChar p s && everyChar p t.
Proof.
  induction s as [|c s IH]; [done|]. rewrite append_cons. simpl.
  rewrite IH. by destruct (p c).
Qed.

(** The words of a text hold the characters of the text that are not
    white space. *)
Lemma wordsAux_chars p cur s :
  everyChar p cur = true ->
  everyChar (fun c => isSpace c || p c) s = true ->
  Forall (fun w => everyChar p w = true) (wordsAux cur s).
Proof.
  revert cur. induction s as [|c s IH]; intros cur Hcur Hs; simpl.
  - destruct (String.eqb cur ""); by repeat constructor.
  - simpl in Hs. apply andb_true_iff in Hs as [Hc Hs].
    destruct (isSpace c) eqn:E.
    + destruct (String.eqb cur ""); [by apply IH|]. constructor; [done|by apply IH].
    + apply IH; [|done]. rewrite everyChar_append, Hcur. simpl.
      simpl in Hc. by rewrite Hc.
Qed.

Lemma lowered_char c :
  let x := if isWordChar (lowerChar c) || isSpace (lowerChar c)
           then lowerChar c else " "%char in
  isSpace x || plainChar x = true.
Proof. destruct c as [[] [] [] [] [] [] [] []]; reflexivity. Qed.

Lemma lowered_text s :
  everyChar (fun c => isSpace c || plainChar c) (blankPunctuation (toLowerCase s)) = true.
Proof.
  induction s as [|c s IH]; [done|]. simpl. rewrite IH.
  pose proof (lowered_char c) as H. simpl in H. by rewrite H.
Qed.

Lemma technicalTerms_plain :
  Forall (fun term => plainWord term = true /\ 3 <= String.length term) technicalTerms.
Proof.
  apply Forall_forall. intros term Hterm. apply list_elem_of_In in Hterm.
  assert (H : forallb (fun t => plainWord t && Nat.leb 3 (String.length t)) technicalTerms = true)
    by (vm_compute; reflexivity).
  rewrite forallb_forall in H. specialize (H term Hterm).
  apply andb_true_iff in H as [H1 H2]. apply Nat.leb_le in H2. done.
Qed.

(** X21. The search terms drawn from a query: no term occurs twice, every
    term has at least three characters, and every term is made of
    lower-case letters, digits and underscores only, so that the pattern
    built from a term holds no character that is special in a pattern. *)
Theorem extractSearchTerms_shape query :
  NoDup (extractSearchTerms query) /\
  Forall (fun term => plainWord term = true /\ 3 <= String.length term)
         (extractSearchTerms query).
Proof.
  unfold extractSearchTerms. cbv zeta.
  match goal with |- context [dedupe [] ?a] =>
    destruct (dedupe_spec [] a) as [Hnodup Hin] end.
  split; [done|]. apply Forall_forall. intros term Hterm.
  destruct (Hin term Hterm) as [Ha _]. apply elem_of_app in Ha as [Hw|Hp].
  - apply list_elem_of_In, filter_In in Hw as [Hw _].
    apply filter_In in Hw as [Hw Hlen]. apply Nat.ltb_lt in Hlen.
    split; [|lia]. apply list_elem_of_In in Hw.
    pose proof (wordsAux_chars plainChar "" (blankPunctuation (toLowerCase query))
                  eq_refl (lowered_text query)) as Hall.
    rewrite Forall_forall in Hall. by apply Hall.
  - apply list_elem_of_In, filter_In in Hp as [Hp _]. apply list_elem_of_In in Hp.
    pose proof technicalTerms_plain as Hall. rewrite Forall_forall in Hall.
    by apply Hall.
Qed.

Lemma byLineScore_sorted l :
  StronglySorted (fun a b : nat * nat => snd b <= snd a) (arraySort byLineScore l).
Proof.
  eapply StoreFacts.StronglySorted_weaken; [|apply (arraySort_sorted byLineScore)].
  - intros a b. unfold ordered, byLineScore. rewrite Nat.compare_gt_iff. simpl. lia.
  - intros a b. unfold ordered, byLineScore. rewrite !Nat.compare_gt_iff. lia.
  - intros a b c. unfold ordered, byLineScore. rewrite !Nat.compare_gt_iff. lia.
Qed.

(** X22. The window of [extractRelevantSection]. Nothing is returned exactly
    when no line mentions a search term. Otherwise the window is laid
    around a line that mentions more terms than any other, or as many: it
    starts fifteen lines before that line, or at line 1, and ends fifteen
    lines after it, or at the last line; the line numbers reported are
    those of the text returned, and the window holds 31 lines at most. *)
Theorem extractRelevantSection_window content searchTerms :
  let lines := splitOn "010"%char content in
  match extractRelevantSection content searchTerms with
  | None => Forall (fun line => lineScore searchTerms line = 0) lines
  | Some (text, (start, stop)) =>
      exists i best,
        lines !! i = Some best /\ 0 < lineScore searchTerms best /\
        Forall (fun line => lineScore searchTerms line <= lineScore searchTerms best) lines /\
        start = S (i - 15) /\ stop = S (Nat.min (length lines - 1) (i + 15)) /\
        start <= S i /\ S i <= stop /\ stop <= length lines /\ stop - start <= 30 /\
        text = join (String "010"%char "") (take (S stop - start) (drop (start - 1) lines))
  end.
Proof.
  intros lines. unfold extractRelevantSection. fold lines. cbv zeta.
  set (scored := imap (fun index line => (index, lineScore searchTerms line)) lines).
  set (relevantLines := List.filter (fun p => (0 <? snd p)%nat) scored).
  pose proof (byLineScore_sorted relevantLines) as Hsorted.
  pose proof (arraySort_perm byLineScore relevantLines) as Hperm.
  assert (Hrel : forall j line, lines !! j = Some line -> 0 < lineScore searchTerms line ->
                   (j, lineScore searchTerms line) ∈ relevantLines).
  { intros j line Hj Hpos. apply list_elem_of_In, filter_In. split.
    - apply list_elem_of_In.
      apply (elem_of_lookup_imap_2 (fun index line => (index, lineScore searchTerms line))).
      done.
    - by apply Nat.ltb_lt. }
  destruct (arraySort byLineScore relevantLines) as [|[i sc] rest] eqn:E.
  - apply Permutation_nil_l in Hperm. apply Forall_forall. intros line Hline.
    apply list_elem_of_lookup_1 in Hline as [j Hj].
    destruct (lineScore searchTerms line) eqn:Es; [done|].
    assert (Hin : (j, lineScore searchTerms line) ∈ relevantLines)
      by (apply Hrel; [done|lia]).
    rewrite <- Hperm in Hin. by apply elem_of_nil in Hin.
  - assert (Hbest : (i, sc) ∈ relevantLines) by (rewrite <- Hperm; left).
    apply list_elem_of_In, filter_In in Hbest as [Hbest Hpos].
    apply Nat.ltb_lt in Hpos. simpl in Hpos.
    apply list_elem_of_In, elem_of_lookup_imap_1 in Hbest as (i' & best & [= <- ->] & Hi).
    exists i, best. simpl fst.
    pose proof (lookup_lt_Some _ _ _ Hi) as Hlt.
    split; [done|]. split; [done|]. split.
    { apply Forall_forall. intros line Hline.
      apply list_elem_of_lookup_1 in Hline as [j Hj].
      destruct (lineScore searchTerms line) eqn:Es; [lia|]. rewrite <- Es.
      assert (Hin : (j, lineScore searchTerms line) ∈ relevantLines)
        by (apply Hrel; [done|lia]).
      rewrite <- Hperm in Hin. apply elem_of_cons in Hin as [[= _ ->]|Hin]; [done|].
      apply StronglySorted_inv in Hsorted as [_ Hall].
      rewrite Forall_forall in Hall. apply (Hall _ Hin). }
    split; [done|]. split; [done|].
    split; [lia|]. split; [lia|]. split; [lia|]. split; [lia|].
    replace (S (i - 15) - 1) with (i - 15) by lia.
    generalize (Nat.min (length lines - 1) (i + 15)). intros m.
    generalize (i - 15). intros k.
    by replace (S (S m) - S k) with (S m - k) by lia.
Qed.

Lemma length_omap_le {A B} (f : A -> option B) (l : list A) :
  length (omap f l) <= length l.
Proof.
  induction l as [|x l IH]; [done|]. cbn [omap list_omap].
  destruct (f x); cbn [length]; lia.
Qed.

(** X23. The counts of a search. [totalMatches] counts the files of the
    corpus that could be read and score above the threshold; no more
    contexts are returned than that, whatever [maxResults] is; and every
    context returned stands for such a file, with the score computed for
    it. A file that cannot be read is never returned. *)
Theorem searchCodeContext_accounting `{Number} corpus query maxResults :
  let result := searchCodeContext corpus query maxResults in
  length (sr_contexts result) <= sr_totalMatches result /\
  sr_totalMatches result <= length corpus /\
  Forall (fun ctx =>
            gtb (cc_relevanceScore ctx) (lit (1 # 10)) = true /\
            exists file content,
              (file, Some content) ∈ corpus /\
              cc_filePath ctx = cf_relativePath file /\
              cc_fileName ctx = cf_name file /\
              cc_relevanceScore ctx =
                calculateFileRelevance file content (extractSearchTerms query) query)
         (sr_contexts result).
Proof.
  intros result. subst result. split; [|split].
  - unfold searchCodeContext. destruct (Nat.eqb (length corpus) 0); [done|]. simpl.
    etrans; [apply sublist_length, StoreFacts.slice0_sublist|].
    by rewrite arraySort_length.
  - unfold searchCodeContext. destruct (Nat.eqb (length corpus) 0); simpl; [lia|].
    apply length_omap_le.
  - apply Forall_forall. intros ctx Hctx.
    destruct (searchCodeContext_contexts _ _ _ _ Hctx) as ([file content] & Hentry & Hc).
    unfold contextOf in Hc. destruct content as [content|]; [|done].
    destruct (gtb _ _) eqn:Hgt; [|done]. injection Hc as <-. simpl.
    split; [done|]. by exists file, content.
Qed.

End SearchMore.
(** ** The steps of the analysis *)

Module AnalysisFacts.
Import JS JSFacts Text TextFacts GithubDb Numbers CodeContext IssueAnalysis AnalysisSteps.
Import SearchFacts SearchMore.

Lemma toLowerCase_append s t :
  toLowerCase (String.append s t) = String.append (toLowerCase s) (toLowerCase t).
Proof.
  induction s as [|c s IH]; [done|]. rewrite append_cons. simpl. by rewrite IH.
Qed.

(** A text that ends in a blank has an empty last piece. *)
Lemma splitSpacesAux_blank cur inRun s :
  "" ∈ splitSpacesAux cur inRun (String.append s " ").
Proof.
  revert cur inRun. induction s as [|c s IH]; intros cur inRun.
  - simpl. destruct inRun; [left|right; left].
  - rewrite append_cons. simpl. destruct (isSpace c).
    + destruct inRun; [apply IH|right; apply IH].
    + apply IH.
Qed.

Lemma dedupe_complete seen a x : x ∈ a -> x ∉ seen -> x ∈ dedupe seen a.
Proof.
  revert seen. induction a as [|y a IH]; intros seen Hx Hseen.
  - by apply elem_of_nil in Hx.
  - simpl. destruct (arrayIncludes seen y) eqn:E.
    + apply arrayIncludes_elem in E. apply elem_of_cons in Hx as [->|Hx]; [done|].
      by apply IH.
    + destruct (decide (x = y)) as [->|Hne]; [left|]. right.
      apply elem_of_cons in Hx as [->|Hx]; [done|]. apply IH; [done|].
      intros Hin. apply elem_of_cons in Hin as [->|Hin]; done.
Qed.

Lemma extractKeywords_blank statement :
  "" ∈ extractKeywords (String.append statement " ").
Proof.
  unfold extractKeywords. cbv zeta. apply dedupe_complete; [|apply not_elem_of_nil].
  apply elem_of_app. left. apply list_elem_of_In, filter_In. split.
  - apply list_elem_of_In. rewrite toLowerCase_append. apply splitSpacesAux_blank.
  - reflexivity.
Qed.

Section Issues.
Context `{Number}.

Lemma filter_everything {A} (p : A -> bool) (l : list A) :
  (forall x, p x = true) -> List.filter p l = l.
Proof.
  intros Hp. induction l as [|x l IH]; [done|]. simpl. by rewrite Hp, IH.
Qed.

(** X24. A statement that ends in a blank matches every sample issue,
    whatever else it says: its last word is the empty word, which is kept
    as a keyword and occurs in every text. *)
Theorem findRelevantIssues_trailing_blank statement context :
  "" ∈ extractKeywords (String.append statement " ") /\
  findRelevantIssues (extractKeywords (String.append statement " ")) context
    ≡ₚ mockIssues.
Proof.
  split; [apply extractKeywords_blank|].
  unfold findRelevantIssues. rewrite filter_everything.
  - rewrite slice0_nonneg by lia. rewrite take_ge.
    + apply arraySort_perm.
    + rewrite arraySort_length. simpl. lia.
  - intros issue. unfold isRelevant. apply orb_true_iff. left.
    apply existsb_exists. exists "". split.
    + apply list_elem_of_In, extractKeywords_blank.
    + apply StoreFacts.includes_empty.
Qed.
End Issues.

(** X25. The issues found for a list of keywords are the sample issues that
    match, each once, ranked by relevance score in non-increasing order;
    the cut at five never removes one. *)
Theorem findRelevantIssues_ranked `{NumberLaws} keywords context :
  let result := findRelevantIssues keywords context in
  StronglySorted (fun a b => leN (im_relevanceScore b) (im_relevanceScore a)) result /\
  result ≡ₚ List.filter (isRelevant keywords context) mockIssues /\
  length result <= 3.
Proof.
  intros result. subst result. unfold findRelevantIssues.
  rewrite slice0_nonneg by lia.
  assert (Hlen : length (List.filter (isRelevant keywords context) mockIssues) <= 3).
  { simpl. repeat (destruct (isRelevant keywords context _)); simpl; lia. }
  rewrite take_ge by (rewrite arraySort_length; lia).
  split; [|split].
  - apply (arraySort_sorted byIssueRelevance).
    + unfold ordered, byIssueRelevance. intros a b Hgt. rewrite compareN_opp, Hgt. done.
    + unfold ordered, byIssueRelevance. intros a b c Hab Hbc. by eapply leN_trans.
  - apply arraySort_perm.
  - by rewrite arraySort_length.
Qed.

Lemma findRelevantIssues_ranked_witness :
  length (findRelevantIssues (H := rational) ["timeout"] []) <= 3.
Proof.
  destruct (findRelevantIssues_ranked (H := rational_laws) ["timeout"] []) as (_ & _ & Hlen).
  exact Hlen.
Defined.

End AnalysisFacts.
(** ** The file browser *)

Module BrowserFacts.
Import JS JSFacts Text TextFacts GithubDb GithubDbFacts Browser.

(** Induction on a tree, with the property at hand for all children. *)
Lemma FileTreeNode_nested_ind (P : FileTreeNode -> Prop) :
  (forall name p type sha size url isExpanded,
     P (mkFileTreeNode name p type sha size url None isExpanded)) ->
  (forall name p type sha size url ns isExpanded,
     Forall P ns -> P (mkFileTreeNode name p type sha size url (Some ns) isExpanded)) ->
  forall n, P n.
Proof.
  intros Hleaf Hnode. fix IH 1.
  intros [name p type sha size url [ns|] isExpanded].
  - apply Hnode. induction ns as [|n ns IHns]; constructor; [apply IH|apply IHns].
  - apply Hleaf.
Qed.

Lemma map_id_Forall {A} (g : A -> A) (l : list A) :
  Forall (fun x => g x = x) l -> map g l = l.
Proof. induction 1 as [|x l Hx _ IH]; simpl; [done|by rewrite Hx, IH]. Qed.

Lemma toggle_involutive path n : toggle path (toggle path n) = n.
Proof.
  induction n as [name p type sha size url isExpanded
                 |name p type sha size url ns isExpanded IH]
    using FileTreeNode_nested_ind; simpl.
  - destruct (String.eqb p path && bool_decide (type = dir)) eqn:E; simpl; rewrite E.
    + by rewrite negb_involutive.
    + done.
  - destruct (String.eqb p path && bool_decide (type = dir)) eqn:E; simpl; rewrite E.
    + by rewrite negb_involutive.
    + rewrite map_map. by rewrite (map_id_Forall (fun x => toggle path (toggle path x))).
Qed.

Lemma toggle_paths path n : flattenPaths (toggle path n) = flattenPaths n.
Proof.
  induction n as [name p type sha size url isExpanded
                 |name p type sha size url ns isExpanded IH]
    using FileTreeNode_nested_ind; simpl.
  - by destruct (String.eqb p path && bool_decide (type = dir)).
  - destruct (String.eqb p path && bool_decide (type = dir)); [done|]. simpl.
    do 2 f_equal. rewrite map_map. apply map_ext_Forall.
    eapply Forall_impl; [exact IH|]. done.
Qed.

Lemma toggle_elsewhere path n : path ∉ dirPaths n -> toggle path n = n.
Proof.
  induction n as [name p type sha size url isExpanded
                 |name p type sha size url ns isExpanded IH]
    using FileTreeNode_nested_ind; simpl; intros Hnot.
  - destruct (String.eqb p path && bool_decide (type = dir)) eqn:E; [|done].
    apply andb_true_iff in E as [Ep Et]. apply String.eqb_eq in Ep.
    apply bool_decide_eq_true in Et. subst. exfalso. apply Hnot. simpl. left.
  - destruct (String.eqb p path && bool_decide (type = dir)) eqn:E.
    + apply andb_true_iff in E as [Ep Et]. apply String.eqb_eq in Ep.
      apply bool_decide_eq_true in Et. subst. exfalso. apply Hnot. simpl. left.
    + do 2 f_equal. apply map_id_Forall. rewrite Forall_forall in IH.
      apply Forall_forall. intros n Hn. apply IH; [done|].
      intros Hin. apply Hnot. apply elem_of_app. right.
      apply elem_of_concat_map. by exists n.
Qed.

(** X26. Toggling a folder only flips what is shown as open. Toggling twice
    gives the tree back as it was; the tree shows the same paths in the
    same order after a toggle; and toggling a path that is not the path of
    a directory of the tree, the path of a file say, changes nothing at
    all. *)
Theorem toggleNode_flips path nodes :
  toggleNode path (toggleNode path nodes) = nodes /\
  map flattenPaths (toggleNode path nodes) = map flattenPaths nodes /\
  (path ∉ concat (map dirPaths nodes) -> toggleNode path nodes = nodes).
Proof.
  unfold toggleNode. split; [|split].
  - rewrite map_map. apply map_id_Forall, Forall_forall.
    intros n _. apply toggle_involutive.
  - rewrite map_map. apply map_ext. intros n. apply toggle_paths.
  - intros Hnot. apply map_id_Forall, Forall_forall. intros n Hn.
    apply toggle_elsewhere. intros Hin. apply Hnot.
    apply elem_of_concat_map. by exists n.
Qed.

End BrowserFacts.
(** ** The tree reconstructor: what holds for every input *)

Module TreeMore.
Import JS JSFacts GithubDb GithubDbFacts.

Lemma unfold_collapsed s fuel a t n :
  unfold fuel (heap (run s)) a = Some t -> n ∈ subnodes (erase t) ->
  tn_isExpanded n = false.
Proof.
  revert a t n. induction fuel as [|fuel IH]; intros a t n Ht Hn; [done|].
  pose proof (unfold_inv _ _ _ _ Ht) as (f & kids & Hf & -> & Hk).
  simpl in Hn. apply elem_of_cons in Hn as [->|Hn].
  - simpl. unfold objAt. by destruct (file_type f).
  - destruct (file_type f).
    { subst kids. by apply elem_of_nil in Hn. }
    destruct Hk as (ts & -> & HF). simpl in *.
    rewrite map_map in Hn.
    apply elem_of_concat_map in Hn as (tj & Htj & Hn).
    destruct (Forall2_elem_r _ _ _ _ HF Htj) as (j' & Hj' & Huj).
    by eapply IH.
Qed.

(** X27. Whatever the input, [buildFileTree] returns, and every node of the
    tree it returns, at every depth, shows the fields of an entry of the
    input, is collapsed, and has a [children] array exactly when that
    entry is a directory: the tree holds nothing that was not put in. *)
Theorem buildFileTree_sound `{Collation} files :
  exists forest,
    buildFileTree files = Some forest /\
    Forall (fun n =>
              tn_isExpanded n = false /\
              exists f, f ∈ files /\ represents n f /\
                (tn_children n = None <-> file_type f = file))
           (concat (map subnodes forest)).
Proof.
  destruct (forest_total localeCompare files) as [forest Hf].
  exists (map erase forest). split.
  { unfold buildFileTree, buildFileTreeWith. by rewrite Hf. }
  apply Forall_forall. intros n Hn. rewrite map_map in Hn.
  apply elem_of_concat_map in Hn as (t & Ht & Hn).
  destruct (forest_trees _ _ _ _ Hf Ht) as [_ Hu].
  split; [by eapply unfold_collapsed|].
  destruct (unfold_subnodes _ _ _ _ _ Hu Hn) as (i & f & Hi & Hrep & Hk).
  exists f. split.
  { rewrite <- (sorted_perm localeCompare files). by eapply list_elem_of_lookup_2. }
  split; [done|]. destruct (file_type f); [done|].
  destruct Hk as (ns & -> & _). done.
Qed.

Lemma NoDup_fmap_eq {A B} (g : A -> B) (l : list A) x y :
  NoDup (map g l) -> x ∈ l -> y ∈ l -> g x = g y -> x = y.
Proof.
  induction l as [|z l IH]; intros Hn Hx Hy E; [by apply elem_of_nil in Hx|].
  simpl in Hn. apply NoDup_cons in Hn as [Hz Hn].
  apply elem_of_cons in Hx as [->|Hx], Hy as [->|Hy].
  - done.
  - exfalso. apply Hz. rewrite E. by apply list_elem_of_fmap_2.
  - exfalso. apply Hz. rewrite <- E. by apply list_elem_of_fmap_2.
  - by apply IH.
Qed.

(** Two sorted lists with the same elements are the same list, when no two
    elements tie. *)
Lemma sorted_perm_eq {A} (R : A -> A -> Prop) (l1 l2 : list A) :
  (forall x y, x ∈ l1 -> y ∈ l1 -> R x y -> R y x -> x = y) ->
  StronglySorted R l1 -> StronglySorted R l2 -> l1 ≡ₚ l2 -> l1 = l2.
Proof.
  revert l2. induction l1 as [|x l1 IH]; intros l2 Hanti H1 H2 Hp.
  - by apply Permutation_nil_l in Hp.
  - destruct l2 as [|y l2]; [by apply Permutation_nil_r in Hp|].
    apply StronglySorted_inv in H1 as [H1 Hx], H2 as [H2 Hy].
    rewrite Forall_forall in Hx, Hy.
    assert (x = y) as <-.
    { assert (Hxin : x ∈ y :: l2) by (rewrite <- Hp; left).
      assert (Hyin : y ∈ x :: l1) by (rewrite Hp; left).
      apply elem_of_cons in Hxin as [->|Hxin]; [done|].
      apply elem_of_cons in Hyin as [->|Hyin]; [done|].
      apply Hanti; [left|by right|by apply Hx|by apply Hy]. }
    f_equal. apply IH; [|done|done|by eapply Permutation_cons_inv].
    intros a b Ha Hb. apply Hanti; by right.
Qed.

(** X28. The tree does not depend on the order in which the store hands
    over the rows: for rows with pairwise distinct paths, no two of which
    tie in the collation of the host, every rearrangement of them gives the
    same tree. *)
Theorem buildFileTree_order `{CollationLaws} files files' :
  uniquePaths files -> pathsToldApart files -> files ≡ₚ files' ->
  buildFileTree files = buildFileTree files'.
Proof.
  intros Huniq Hapart Hperm.
  assert (Hsame : sortFiles localeCompare files = sortFiles localeCompare files').
  { apply (sorted_perm_eq (ordered (byPath localeCompare))).
    - intros f g Hf Hg Hfg Hgf. rewrite sorted_perm in Hf, Hg.
      apply (NoDup_fmap_eq file_path files); [done..|].
      apply Hapart; [done..|]. unfold ordered, byPath in *.
      rewrite collation_opp in Hgf.
      by destruct (localeCompare (file_path f) (file_path g)).
    - apply (arraySort_sorted (byPath localeCompare)).
      + intros a b Hgt. unfold ordered, byPath in *. rewrite collation_opp, Hgt. done.
      + intros a b c. unfold ordered, byPath. apply collation_trans.
    - apply (arraySort_sorted (byPath localeCompare)).
      + intros a b Hgt. unfold ordered, byPath in *. rewrite collation_opp, Hgt. done.
      + intros a b c. unfold ordered, byPath. apply collation_trans.
    - by rewrite !sorted_perm. }
  unfold buildFileTree, buildFileTreeWith, buildFileTreeObjs. by rewrite Hsame.
Qed.

Lemma buildFileTree_order_witness :
  @buildFileTree codeUnitOrder scenarioTree = @buildFileTree codeUnitOrder (rev scenarioTree).
Proof.
  apply (@buildFileTree_order codeUnitOrder codeUnitOrder_laws scenarioTree (rev scenarioTree)).
  - by apply (bool_decide_unpack _).
  - intros f g _ _. apply codeUnitOrder_eq.
  - apply Permutation_rev.
Defined.

End TreeMore.
(** ** The editor's file selection *)

Module EditorFacts.
Import JS Text GithubDb Runtime Types Integrations StoreQueries StoreFacts Editor.

(** A computation that leaves the store alone and always ends. *)
Abbreviation quiet m :=
  (forall w : World, store (snd (m w)) = store w /\ fst (m w) <> Diverged).

Lemma quiet_ret {A} (a : A) : quiet (ret a).
Proof. done. Qed.

Lemma quiet_throw {A} e : quiet (@throw World A e).
Proof. done. Qed.

Lemma quiet_call {A} r (answer : nat -> Reply A) : quiet (call r answer).
Proof. intros w. unfold call. by destruct (answer _). Qed.

Lemma quiet_bind {A B} (m : M World A) (k : A -> M World B) :
  quiet m -> (forall a, quiet (k a)) -> quiet (bind m k).
Proof.
  intros Hm Hk w. unfold bind. destruct (Hm w) as [Hs Hd].
  destruct (m w) as [[a|e|] w1]; simpl in *; [|done|done].
  destruct (Hk a w1) as [Hs1 Hd1]. by rewrite Hs1.
Qed.

Lemma quiet_tryCatch {A} (m : M World A) (h : JsError -> M World A) :
  quiet m -> (forall e, quiet (h e)) -> quiet (tryCatch m h).
Proof.
  intros Hm Hh w. unfold tryCatch. destruct (Hm w) as [Hs Hd].
  destruct (m w) as [[a|e|] w1]; simpl in *; [done| |done].
  destruct (Hh e w1) as [Hs1 Hd1]. by rewrite Hs1.
Qed.

Lemma quiet_fetchContent octokit owner repo path ref :
  quiet (fetchContent octokit owner repo path ref).
Proof.
  unfold fetchContent. apply quiet_tryCatch.
  - apply quiet_bind; [apply quiet_call|].
    intros [[c|]|]; [|apply quiet_throw..].
    destruct (String.eqb c ""); [apply quiet_throw|apply quiet_ret].
  - intros e. destruct (_ && _); [apply quiet_ret|apply quiet_throw].
Qed.

(** The provider client never touches the store, and always ends. *)
Lemma getFileContent_store octokit a b c d :
  quiet (Integrations.getFileContent octokit a b c d).
Proof.
  unfold Integrations.getFileContent.
  destruct (match d with Some r => _ | None => _ end) as [[[owner repo] path] refToUse].
  apply quiet_tryCatch.
  - apply quiet_bind.
    + destruct (truthy refToUse); [apply quiet_fetchContent|apply quiet_ret].
    + intros [content|]; [apply quiet_ret|].
      apply quiet_bind; [apply quiet_call|]. intros branch.
      apply quiet_bind; [apply quiet_fetchContent|].
      intros [content|]; [apply quiet_ret|apply quiet_throw].
  - intros e. destruct (bool_decide _); apply quiet_throw.
Qed.

Section Component.
Variable octokit : Octokit.
Variable getFileLanguage : string -> string.

Abbreviation shown repo repoId filePath content :=
  (mkCurrentFile filePath (List.last (splitSlash filePath) "") content
     (getFileLanguage (List.last (splitSlash filePath) "")) repoId (repo_fullName repo)).

Lemma nonEmpty_Some s : s <> "" -> nonEmpty (Some s) = Some s.
Proof.
  intros Hs. simpl. destruct (String.eqb s "") eqn:E; [|done].
  by apply String.eqb_eq in E.
Qed.

(** A selection that finds the content in the store. *)
Lemma handleFileSelect_hit repoId filePath ed repo content :
  repoId <> "" ->
  repos (store (ed_world ed)) !! repoId = Some repo ->
  getFileContent (store (ed_world ed)) repoId filePath = Some content ->
  content <> "" ->
  handleFileSelect octokit getFileLanguage (Some repoId) filePath ed =
  (Returned tt,
   mkEditorState (ed_world ed) (Some (shown repo repoId filePath content)) false
     (ed_toasts ed)).
Proof.
  intros Hid Hrepo Hcached Hc. unfold handleFileSelect.
  rewrite (nonEmpty_Some repoId Hid).
  unfold finally, tryCatch, bind, modify, get. simpl.
  rewrite Hrepo, Hcached, (nonEmpty_Some content Hc). done.
Qed.

(** X29. The store is a read-through cache for the editor. When a file
    that has a row but no content is selected and the provider delivers
    its content, the content is shown and saved with the row; selecting the
    file once more then makes no further request and shows the same. *)
Theorem handleFileSelect_read_through repoId filePath ed repo row content w1 :
  repoId <> "" ->
  repos (store (ed_world ed)) !! repoId = Some repo ->
  nonEmpty (getFileContent (store (ed_world ed)) repoId filePath) = None ->
  getFile (store (ed_world ed)) repoId filePath = Some row ->
  file_sha row <> "" ->
  Integrations.getFileContent octokit (repo_fullName repo) filePath
    (Some (file_sha row)) None (ed_world ed) = (Returned content, w1) ->
  content <> "" ->
  exists ed1,
    handleFileSelect octokit getFileLanguage (Some repoId) filePath ed
      = (Returned tt, ed1) /\
    ed_currentFile ed1 = Some (shown repo repoId filePath content) /\
    getFileContent (store (ed_world ed1)) repoId filePath = Some content /\
    requests (ed_world ed1) = requests w1 /\
    handleFileSelect octokit getFileLanguage (Some repoId) filePath ed1
      = (Returned tt, ed1).
Proof.
  intros Hid Hrepo Hnone Hrow Hsha Hfetch Hc.
  destruct (getFileContent_store octokit (repo_fullName repo) filePath
              (Some (file_sha row)) None (ed_world ed)) as [Hstore _].
  rewrite Hfetch in Hstore. simpl in Hstore.
  set (ed1 := mkEditorState
                (withStore w1 (saveFileContent (store w1) repoId filePath content))
                (Some (shown repo repoId filePath content)) false (ed_toasts ed)).
  assert (Hsaved : getFileContent (store (ed_world ed1)) repoId filePath = Some content).
  { simpl. rewrite saved_content, decide_True by done. by rewrite Hstore, Hrow. }
  assert (Hrun : handleFileSelect octokit getFileLanguage (Some repoId) filePath ed
                 = (Returned tt, ed1)).
  { unfold handleFileSelect. rewrite (nonEmpty_Some repoId Hid).
    unfold finally, tryCatch at 1, bind at 1, modify at 1. unfold bind at 1, get at 1.
    cbn [ed_world setIsLoading]. rewrite Hrepo, Hnone, Hrow.
    destruct (String.eqb (file_sha row) "") eqn:E; [by apply String.eqb_eq in E|].
    unfold bind at 1, bind at 1, inWorld, syncService_getFileContent, tryCatch at 1.
    cbn [ed_world setIsLoading]. rewrite Hfetch.
    unfold bind, modify, ret. pose proof (nonEmpty_Some content Hc) as Hne.
    simpl in Hne. simpl. by rewrite Hne. }
  exists ed1. split; [done|]. split; [done|]. split; [done|]. split; [done|].
  rewrite (handleFileSelect_hit repoId filePath ed1 repo content); try done.
  simpl. by rewrite Hstore.
Qed.

End Component.

Lemma handleFileSelect_read_through_witness :
  exists ed1,
    handleFileSelect onMainOnly (fun _ => "markdown") (Some "7") "README.md" freshEditor
      = (Returned tt, ed1) /\
    cur_content <$> ed_currentFile ed1 = Some "aGVsbG8=" /\
    length (requests (ed_world ed1)) = 3 /\
    handleFileSelect onMainOnly (fun _ => "markdown") (Some "7") "README.md" ed1
      = (Returned tt, ed1).
Proof.
  destruct (handleFileSelect_read_through onMainOnly (fun _ => "markdown") "7" "README.md"
              freshEditor (mkGitHubRepo "7" "app" "acme/app" "main" 0 1 completed)
              readme "aGVsbG8="
              (snd (Integrations.getFileContent onMainOnly "acme/app" "README.md"
                      (Some "abc123") None (ed_world freshEditor))))
    as (ed1 & Hrun & Hshown & _ & Hreq & Hagain).
  - discriminate.
  - reflexivity.
  - reflexivity.
  - reflexivity.
  - discriminate.
  - reflexivity.
  - discriminate.
  - exists ed1. split; [exact Hrun|]. rewrite Hshown, Hreq.
    split; [reflexivity|]. split; [reflexivity|exact Hagain].
Defined.

End EditorFacts.
